(** * readwise-export: the paginated fetcher and the incremental exporter

    A shallow embedding of [src/export.py].  The two functions of the
    program, [fetch_all_documents] and [append_to_file], are written as
    Rocq functions over explicit state: the shelve cache and the file
    system are finite maps that are passed in and returned, the remote
    service is a transition function on an abstract server state, and
    every observable action (network call, sleep, print, yield, cache
    store, file open, read and write) is recorded in a trace.

    What the model takes for granted:
    - Python values are the values [response.json()] can produce, without
      floating-point numbers; characters are the code points below 256.
    - A response body is any such value: an object, a list, a string, a
      number, a boolean or [None].
    - The records handed to [append_to_file] form a finite list; the
      generator [fetch_all_documents] is followed to its end, to an
      exception or until the fuel of the [while True] loop is used up.
    - Files are regular files of a POSIX system; opening, reading and
      writing do not fail.
    - [re], [json], [csv] and [pathlib] are modelled as far as the program
      uses them: the pattern of line 51, [json.dumps] with its defaults,
      the excel dialect of [csv] with its field size limit, and
      [Path.suffix] on POSIX paths.
    - Conversions between integers and decimal text refuse more than 4300
      digits ([sys.int_max_str_digits]): [int] of line 52 and the csv
      writer have that error path; [repr] and [json.dumps] are the texts
      of the values whose integers stay within it ([within_digits]), as
      the integers of a parsed response do. *)

From Stdlib Require Import ZArith Ascii DecimalString.
From Stdlib Require String.
From stdpp Require Import base option list gmap strings.

Local Open Scope Z_scope.

(** ** Characters and strings *)

Module Py.

Definition LF : ascii := "010"%char.
Definition CR : ascii := "013"%char.
Definition TAB : ascii := "009"%char.
Definition DQ : ascii := "034"%char.
Definition SQ : ascii := "'"%char.
Definition BSL : ascii := "\"%char.

Definition chr (c : ascii) : string := String c "".

Definition code (c : ascii) : N := N_of_ascii c.

(** [str.isspace] on one character (code points below 256). *)
Definition isspace (c : ascii) : bool :=
  let n := code c in
  ((9 <=? n) && (n <=? 13) || (28 <=? n) && (n <=? 32)
   || (n =? 133) || (n =? 160))%N.

Definition isdigit (c : ascii) : bool :=
  let n := code c in ((48 <=? n) && (n <=? 57))%N.

Fixpoint drop_while (p : ascii → bool) (s : string) : string :=
  match s with
  | String c s' => if p c then drop_while p s' else s
  | EmptyString => EmptyString
  end.

Fixpoint str_contains (c : ascii) (s : string) : bool :=
  match s with
  | String a s' => if decide (a = c) then true else str_contains c s'
  | EmptyString => false
  end.

(** [needle in s] for two strings: [needle] occurs in [s]. *)
Fixpoint str_in (needle s : string) : bool :=
  String.prefix needle s
  || match s with
     | String _ s' => str_in needle s'
     | EmptyString => false
     end.

(** [len(s)]. *)
Definition len (s : string) : N := N.of_nat (String.length s).

(** [sys.int_max_str_digits]: the longest decimal text [int] and [str]
    convert. *)
Definition max_str_digits : N := 4300.

Fixpoint str_forall (p : ascii → bool) (s : string) : bool :=
  match s with
  | String a s' => p a && str_forall p s'
  | EmptyString => true
  end.

(** [s.lstrip()], [s.rstrip()], [s.strip()] and [s.lstrip(".")]. *)
Definition lstrip (s : string) : string := drop_while isspace s.
Definition rstrip (s : string) : string :=
  String.rev (drop_while isspace (String.rev s)).
Definition strip (s : string) : string := lstrip (rstrip s).
Definition lstrip_dots (s : string) : string :=
  drop_while (λ c, bool_decide (c = "."%char)) s.

(** [sep.join(parts)]. *)
Fixpoint join (sep : string) (parts : list string) : string :=
  match parts with
  | [] => ""
  | [p] => p
  | p :: rest => p +:+ sep +:+ join sep rest
  end.

Fixpoint concat (parts : list string) : string :=
  match parts with
  | [] => ""
  | p :: rest => p +:+ concat rest
  end.

(** Decimal text of an integer, as [str(n)] and [json.dumps(n)] give it. *)
Definition str_of_Z (n : Z) : string := NilZero.string_of_int (Z.to_int n).

(** Value of a run of decimal digits, most significant first. *)
Fixpoint digits_value (acc : Z) (s : string) : Z :=
  match s with
  | String c s' => digits_value (10 * acc + Z.of_N (code c - 48)) s'
  | EmptyString => acc
  end.

Definition hex_digit (n : N) : ascii :=
  ascii_of_N (if (n <? 10)%N then 48 + n else 87 + n).

Definition hex2 (c : ascii) : string :=
  String (hex_digit (code c / 16)) (String (hex_digit (code c mod 16)) "").

End Py.

(** ** Values *)

(** What [response.json()] returns: [None], booleans, integers, strings,
    lists and dicts with string keys.  A dict is the list of its items in
    insertion order. *)
Unset Elimination Schemes.
Inductive json : Type :=
| JNull
| JBool (b : bool)
| JInt (n : Z)
| JStr (s : string)
| JArr (items : list json)
| JObj (fields : list (string * json)).
Set Elimination Schemes.

Abbreviation pydict := (list (string * json)).

Section json_induction.
Variable P : json → Prop.
Hypothesis Hnull : P JNull.
Hypothesis Hbool : ∀ b, P (JBool b).
Hypothesis Hint : ∀ n, P (JInt n).
Hypothesis Hstr : ∀ s, P (JStr s).
Hypothesis Harr : ∀ l, Forall P l → P (JArr l).
Hypothesis Hobj : ∀ d, Forall (λ kv, P kv.2) d → P (JObj d).

Fixpoint json_nested_ind (j : json) : P j :=
  match j with
  | JNull => Hnull
  | JBool b => Hbool b
  | JInt n => Hint n
  | JStr s => Hstr s
  | JArr l =>
      Harr l
        ((fix go (l : list json) : Forall P l :=
            match l with
            | [] => Forall_nil_2 P
            | x :: l' => Forall_cons_2 P x l' (json_nested_ind x) (go l')
            end) l)
  | JObj d =>
      Hobj d
        ((fix go (d : pydict) : Forall (λ kv, P kv.2) d :=
            match d with
            | [] => Forall_nil_2 _
            | kv :: d' =>
                Forall_cons_2 (λ kv, P kv.2) kv d'
                  (json_nested_ind kv.2) (go d')
            end) d)
  end.
End json_induction.

(** [d.get(k)] on an item list: the first item with that key. *)
Fixpoint dict_get {K V : Type} `{EqDecision K} (k : K) (d : list (K * V)) : option V :=
  match d with
  | [] => None
  | (k', v) :: d' => if decide (k' = k) then Some v else dict_get k d'
  end.

(** [d[k] = v]: replace in place, or add at the end. *)
Fixpoint dict_set {K V : Type} `{EqDecision K} (k : K) (v : V) (d : list (K * V)) : list (K * V) :=
  match d with
  | [] => [(k, v)]
  | (k', v') :: d' =>
      if decide (k' = k) then (k, v) :: d' else (k', v') :: dict_set k v d'
  end.

Definition dict_has {K V : Type} `{EqDecision K} (k : K) (d : list (K * V)) : bool :=
  bool_decide (is_Some (dict_get k d)).

Definition dict_keys {K V : Type} (d : list (K * V)) : list K := map fst d.

(** Truth value of a Python object, as [if x:] and [not x] take it. *)
Definition truthy (j : json) : bool :=
  match j with
  | JNull => false
  | JBool b => b
  | JInt n => negb (n =? 0)
  | JStr s => negb (bool_decide (s = ""))
  | JArr l => negb (bool_decide (l = []))
  | JObj d => negb (bool_decide (d = []))
  end.

(** ** [repr] and [str] *)

Module Repr.
Import Py.

(** [str.isprintable] on one character. *)
Definition isprintable (c : ascii) : bool :=
  let n := code c in
  ((32 <=? n) && (n <=? 126) || (161 <=? n) && negb (n =? 173))%N.

Definition quote_of (s : string) : ascii :=
  if str_contains SQ s && negb (str_contains DQ s) then DQ else SQ.

Definition repr_char (q c : ascii) : string :=
  if decide (c = q) then String BSL (chr c)
  else if decide (c = BSL) then String BSL (chr BSL)
  else if decide (c = TAB) then "\t"
  else if decide (c = LF) then "\n"
  else if decide (c = CR) then "\r"
  else if isprintable c then chr c
  else "\x" +:+ hex2 c.

Fixpoint repr_chars (q : ascii) (s : string) : string :=
  match s with
  | String c s' => repr_char q c +:+ repr_chars q s'
  | EmptyString => ""
  end.

Definition repr_str (s : string) : string :=
  let q := quote_of s in chr q +:+ repr_chars q s +:+ chr q.

Fixpoint repr (j : json) : string :=
  match j with
  | JNull => "None"
  | JBool true => "True"
  | JBool false => "False"
  | JInt n => str_of_Z n
  | JStr s => repr_str s
  | JArr l => "[" +:+ join ", " (map repr l) +:+ "]"
  | JObj d =>
      "{" +:+ join ", " (map (λ kv, repr_str kv.1 +:+ ": " +:+ repr kv.2) d) +:+ "}"
  end.

(** [str(x)]: the text itself for a string, [repr] otherwise. *)
Definition str (j : json) : string :=
  match j with
  | JStr s => s
  | _ => repr j
  end.

End Repr.

(** The decimal digits of an integer, and the values whose integers all
    have at most 4300: on any other value [str], [repr] and [json.dumps]
    raise [ValueError]. *)
Definition int_digits (n : Z) : N := Py.len (Py.str_of_Z (Z.abs n)).

Fixpoint within_digits (j : json) : bool :=
  match j with
  | JInt n => (int_digits n <=? Py.max_str_digits)%N
  | JArr l => forallb within_digits l
  | JObj d => forallb (λ kv, within_digits kv.2) d
  | _ => true
  end.

(** ** Regular expressions of line 51 *)

(** The fragment of [re] the program uses: literal characters, [.], and
    the captured group of a greedy, backtracking star over the digits 0-9.
    [re.match] anchors at the start of the subject only. *)
Module Re.
Import Py.

Inductive atom : Type :=
| Lit (c : ascii)
| Dot
| DigitsGroup.

Fixpoint lits (s : string) : list atom :=
  match s with
  | String c s' => Lit c :: lits s'
  | EmptyString => []
  end.

(** The group: as many digits as possible, fewer when the rest fails. *)
Fixpoint digits_star (rest : string → option (option string))
    (taken s : string) : option (option string) :=
  let stop := (λ _ : option string, Some (String.rev taken)) <$> rest s in
  match s with
  | String a s' =>
      if isdigit a then
        match digits_star rest (String a taken) s' with
        | Some g => Some g
        | None => stop
        end
      else stop
  | EmptyString => stop
  end.

(** [re_match p s]: [None] when [re.match] returns [None], otherwise the
    text of group 1 ([None] inside when the pattern has no group). *)
Fixpoint re_match (p : list atom) : string → option (option string) :=
  match p with
  | [] => λ _, Some None
  | Lit c :: p' => λ s,
      match s with
      | String a s' => if decide (a = c) then re_match p' s' else None
      | EmptyString => None
      end
  | Dot :: p' => λ s,
      match s with
      | String a s' => if decide (a = LF) then None else re_match p' s'
      | EmptyString => None
      end
  | DigitsGroup :: p' => digits_star (re_match p') ""
  end.

(** The pattern of line 51, apostrophes included. *)
Definition throttled : list atom :=
  lits "'Request was throttled" ++ [Dot] ++ lits " Expected available in "
  ++ [DigitsGroup] ++ lits " seconds" ++ [Dot] ++ lits "'".

End Re.

(** ** Exceptions and observable actions *)

Inductive exn : Type :=
| ApiError (body : json)            (* ValueError("Error fetching data: ...") *)
| IntError (text : string)          (* ValueError from int(...) *)
| DigitsLimit                       (* ValueError: Exceeds the limit (4300 digits) *)
| OverflowError                     (* from time.sleep *)
| TypeError
| KeyError (key : string)
| AttributeError
| StopIteration
| ExtraFields (names : list string) (* ValueError of DictWriter.writerow *)
| CsvError
| UnsupportedFormat (fmt : string). (* ValueError("Unsupported file format: ...") *)

Inductive event : Type :=
| EvGet (params : pydict) (token : string)
| EvStore (key : string) (body : json)
| EvPrint (text : string)
| EvSleep (seconds : Z)
| EvYield (item : json).

Definition yielded (tr : list event) : list json :=
  omap (λ e, match e with EvYield x => Some x | _ => None end) tr.

Definition network_calls (tr : list event) : list pydict :=
  omap (λ e, match e with EvGet p _ => Some p | _ => None end) tr.

Definition sleeps (tr : list event) : list Z :=
  omap (λ e, match e with EvSleep n => Some n | _ => None end) tr.

Definition stores (tr : list event) : list (string * json) :=
  omap (λ e, match e with EvStore k v => Some (k, v) | _ => None end) tr.

(** ** The fetcher *)

(** [int(waiting.group(1))] on a run of digits: the empty text is no
    literal, and a text of more than 4300 digits is refused. *)
Definition py_int (s : string) : exn + Z :=
  match s with
  | EmptyString => inl (IntError s)
  | _ =>
      if (Py.max_str_digits <? Py.len s)%N then inl DigitsLimit
      else inr (Py.digits_value 0 s)
  end.

(** The longest [time.sleep] takes, in seconds: beyond it the number of
    nanoseconds does not fit 64 bits and [time.sleep] raises. *)
Definition max_sleep : Z := 9223372036.

(** [k in x] for a string [k]: a key of a dict, an element of a list, a
    part of a string; other values are not containers. *)
Definition py_in (k : string) (x : json) : exn + bool :=
  match x with
  | JObj d => inr (dict_has k d)
  | JArr l =>
      inr (existsb (λ y, match y with
                         | JStr s => bool_decide (s = k)
                         | _ => false
                         end) l)
  | JStr s => inr (Py.str_in k s)
  | _ => inl TypeError
  end.

(** The test of line 49 has let the body through. *)
Definition has_results (response_json : json) : bool :=
  match py_in "results" response_json with
  | inr b => b
  | inl _ => false
  end.

(** [iter(x)] for the [for] loop of line 60. *)
Definition py_iter (x : json) : exn + list json :=
  match x with
  | JArr l => inr l
  | JObj d => inr (JStr <$> dict_keys d)
  | JStr s => inr ((λ c, JStr (Py.chr c)) <$> String.list_ascii_of_string s)
  | _ => inl TypeError
  end.

(** Lines 36-39: the request parameters and the cache key [f"{params}"]. *)
Definition params_of (next_page_cursor : json) : pydict :=
  if truthy next_page_cursor then [("pageCursor", next_page_cursor)] else [].

Definition cache_key (next_page_cursor : json) : string :=
  Repr.repr (JObj (params_of next_page_cursor)).

Inductive outcome : Type :=
| Done
| Raised (e : exn)
| OutOfFuel.

(** What lines 40-58 leave the loop body with. *)
Inductive acquired : Type :=
| Page (response_json : json)
| Retry
| Failed (e : exn).

Section Fetcher.
(** The remote service: [requests.get(...).json()] as a transition of
    the server's state, given the query parameters and the token. *)
Context {Srv : Type}.
Variable http_get : Srv → pydict → string → json * Srv.

Record world : Type := World {
  cache : gmap string json;
  server : Srv
}.

(** Lines 50-56, for the text of ["detail"]. *)
Definition throttle (detail : string) (response_json : json)
  : acquired * list event :=
  match Re.re_match Re.throttled detail with
  | Some waiting =>
      match py_int (default "" waiting) with
      | inr wait_time =>
          let announce :=
            EvPrint ("Waiting for " +:+ Py.str_of_Z wait_time +:+ " seconds") in
          if (wait_time <=? max_sleep)%Z
          then (Retry, [announce; EvSleep wait_time])
          else (Failed OverflowError, [announce])
      | inl e => (Failed e, [])
      end
  | None => (Failed (ApiError response_json), [])
  end.

(** Lines 49-57, for a fetched body that has not passed the test of line
    49.  [response_json["detail"]] is the value of a dict; on a string or
    a list that holds ["detail"] it raises [TypeError]. *)
Definition no_results (response_json : json) : acquired * list event :=
  match response_json with
  | JObj d =>
      match dict_get "detail" d with
      | Some (JStr detail) => throttle detail response_json
      | Some _ => (Failed TypeError, [])
      | None => (Failed (ApiError response_json), [])
      end
  | _ =>
      match py_in "detail" response_json with
      | inr true => (Failed TypeError, [])
      | inr false => (Failed (ApiError response_json), [])
      | inl e => (Failed e, [])
      end
  end.

(** Lines 36-58: one pass through the top of the loop body. *)
Definition acquire (token : string) (next_page_cursor : json) (w : world)
  : acquired * world * list event :=
  let params := params_of next_page_cursor in
  let key := cache_key next_page_cursor in
  match cache w !! key with
  | Some response_json => (Page response_json, w, [])
  | None =>
      let '(response_json, srv') := http_get (server w) params token in
      let w' := World (cache w) srv' in
      match py_in "results" response_json with
      | inl e => (Failed e, w', [EvGet params token])
      | inr true =>
          (Page response_json,
           World (<[key := response_json]> (cache w)) srv',
           [EvGet params token; EvStore key response_json])
      | inr false =>
          let '(a, evs) := no_results response_json in
          (a, w', EvGet params token :: evs)
      end
  end.

(** Lines 60-64: emit the page, then stop or move to the next cursor.
    [response_json["results"]] is the value of a dict; on any other body
    it raises [TypeError]. *)
Definition emit (response_json : json) : exn + (list event * json) :=
  match response_json with
  | JObj d =>
      match dict_get "results" d with
      | None => inl (KeyError "results")
      | Some results =>
          match py_iter results with
          | inl e => inl e
          | inr items =>
              inr (EvYield <$> items,
                   default JNull (dict_get "nextPageCursor" d))
          end
      end
  | _ => inl TypeError
  end.

(** The [while True] loop; each pass through its body takes one unit of
    fuel.  The trace lists the actions in the order they happen, so a
    consumer that stops pulling has seen a prefix of it. *)
Fixpoint fetch_loop (fuel : nat) (token : string) (next_page_cursor : json)
    (w : world) : outcome * world * list event :=
  match fuel with
  | O => (OutOfFuel, w, [])
  | S fuel' =>
      let '(a, w1, evs) := acquire token next_page_cursor w in
      match a with
      | Failed e => (Raised e, w1, evs)
      | Retry =>
          let '(o, w2, tr) := fetch_loop fuel' token next_page_cursor w1 in
          (o, w2, evs ++ tr)
      | Page response_json =>
          match emit response_json with
          | inl e => (Raised e, w1, evs)
          | inr (ys, next) =>
              if truthy next then
                let '(o, w2, tr) := fetch_loop fuel' token next w1 in
                (o, w2, evs ++ ys ++ tr)
              else (Done, w1, evs ++ ys)
          end
      end
  end.

Definition fetch_all_documents (fuel : nat) (token : string) (w : world)
  : outcome * world * list event :=
  fetch_loop fuel token JNull w.

End Fetcher.

(** Replays the cache stores of a trace on a cache, refusing a store on a
    key that is present and a store of a body that does not pass the test
    of line 49. *)
Fixpoint apply_stores (c : gmap string json) (ss : list (string * json))
  : option (gmap string json) :=
  match ss with
  | [] => Some c
  | (k, v) :: ss' =>
      if bool_decide (c !! k = None) && has_results v
      then apply_stores (<[k := v]> c) ss'
      else None
  end.


(** ** Page chains and test services *)

(** The records of a page whose ["results"] is a list, and the value
    [response_json.get("nextPageCursor")] of a page. *)
Definition page_items (r : pydict) : option (list json) :=
  match dict_get "results" r with
  | Some (JArr l) => Some l
  | _ => None
  end.

Definition page_cursor (r : pydict) : json :=
  default JNull (dict_get "nextPageCursor" r).

(** The cursors a walk over the pages [rs] asks for, starting at [cur]. *)
Fixpoint requests (cur : json) (rs : list pydict) : list json :=
  match rs with
  | [] => []
  | r :: rs' => cur :: requests (page_cursor r) rs'
  end.

(** A finite chain: every page has a list of results, every page but the
    last carries a cursor that counts as true, the last carries none
    (absent, [None] or empty). *)
Fixpoint linked (rs : list pydict) : Prop :=
  match rs with
  | [] => False
  | r :: rs' =>
      is_Some (page_items r) ∧
      match rs' with
      | [] => truthy (page_cursor r) = false
      | _ => truthy (page_cursor r) = true ∧ linked rs'
      end
  end.

Definition chain_items (rs : list pydict) : list json :=
  mjoin ((λ r, default [] (page_items r)) <$> rs).

(** The cache holds nothing for the cursor, or holds this very page. *)
Definition cache_agrees (c : gmap string json) (cur : json) (r : pydict) : Prop :=
  c !! cache_key cur = None ∨ c !! cache_key cur = Some (JObj r).

(** In every state the service answers the request for [cur] with [r]. *)
Definition answers {Srv : Type} (http_get : Srv → pydict → string → json * Srv)
    (token : string) (cur : json) (r : pydict) : Prop :=
  ∀ srv, (http_get srv (params_of cur) token).1 = JObj r.

(** The text of a throttling notice, as the claim quotes it, and the same
    text between apostrophes, as the pattern of line 51 wants it. *)
Definition throttle_notice (digits : string) : string :=
  "Request was throttled. Expected available in " +:+ digits +:+ " seconds.".

Definition quoted_notice (digits : string) : string :=
  "'" +:+ throttle_notice digits +:+ "'".

(** A service that answers its first request with [{"detail": detail}]
    and every later request with [page]; its state counts the requests. *)
Definition throttle_once (detail : string) (page : pydict)
    (calls : nat) (params : pydict) (token : string) : json * nat :=
  (match calls with
   | O => JObj [("detail", JStr detail)]
   | S _ => JObj page
   end, S calls).

(** A stateless service over three pages with cursors [c1] and [c2]. *)
Definition three_pages (srv : unit) (params : pydict) (token : string) : json * unit :=
  (JObj match dict_get "pageCursor" params with
        | None => [("results", JArr [JInt 1; JInt 2]); ("nextPageCursor", JStr "c1")]
        | Some (JStr "c1") => [("results", JArr [JInt 3]); ("nextPageCursor", JStr "c2")]
        | Some _ => [("count", JInt 4); ("results", JArr [JInt 4])]
        end, tt).

(** A service that answers every request with the same body. *)
Definition constant_service (body : json)
    (srv : unit) (params : pydict) (token : string) : json * unit :=
  (body, tt).

(** The cursors of a chain are strings: a cursor that counts as true is a
    string. *)
Definition string_cursor (r : pydict) : Prop :=
  truthy (page_cursor r) = true → ∃ s, page_cursor r = JStr s.

(** A request is for the first page or carries a non-empty string. *)
Definition token_like (cur : json) : Prop :=
  cur = JNull ∨ ∃ s, cur = JStr s ∧ s ≠ "".

(** All the characters of the model. *)
Definition all_chars : list ascii := ascii_of_nat <$> seq 0 256.

(** The [repr] text of a character does not begin with the quote, and of
    the texts of two characters neither begins the other. *)
Definition prefix_free (q : ascii) : bool :=
  forallb (λ c1,
    match Repr.repr_char q c1 with
    | String a _ => negb (bool_decide (a = q))
    | EmptyString => false
    end
    && forallb (λ c2,
         bool_decide (c1 = c2)
         || negb (String.prefix (Repr.repr_char q c1) (Repr.repr_char q c2)))
       all_chars)
    all_chars.

(** A body that contains the results field, in the words of the
    specification: a JSON object with the key ["results"]. *)
Definition has_results_field (body : json) : bool :=
  match body with
  | JObj d => dict_has "results" d
  | _ => false
  end.

(** ** [json.dumps] *)

(** The default encoder: [ensure_ascii], separators [", "] and [": "]. *)
Module Json.
Import Py.

Definition escape_char (c : ascii) : string :=
  if decide (c = DQ) then String BSL (chr DQ)
  else if decide (c = BSL) then String BSL (chr BSL)
  else if decide (c = LF) then "\n"
  else if decide (c = CR) then "\r"
  else if decide (c = TAB) then "\t"
  else if decide (c = "008"%char) then "\b"
  else if decide (c = "012"%char) then "\f"
  else if ((32 <=? code c) && (code c <=? 126))%N then chr c
  else "\u00" +:+ hex2 c.

Fixpoint escape (s : string) : string :=
  match s with
  | String c s' => escape_char c +:+ escape s'
  | EmptyString => ""
  end.

Definition dumps_str (s : string) : string := chr DQ +:+ escape s +:+ chr DQ.

Fixpoint dumps (j : json) : string :=
  match j with
  | JNull => "null"
  | JBool true => "true"
  | JBool false => "false"
  | JInt n => str_of_Z n
  | JStr s => dumps_str s
  | JArr l => "[" +:+ join ", " (map dumps l) +:+ "]"
  | JObj d =>
      "{" +:+ join ", " (map (λ kv, dumps_str kv.1 +:+ ": " +:+ dumps kv.2) d) +:+ "}"
  end.

End Json.

(** ** Equality of Python values *)

Module Eq.

Definition bool_int (b : bool) : Z := if b then 1 else 0.

(** [a == b] on the values of the model. *)
Fixpoint py_eq (a b : json) : bool :=
  match a, b with
  | JNull, JNull => true
  | JBool x, JBool y => bool_decide (x = y)
  | JBool x, JInt n => bool_int x =? n
  | JInt n, JBool y => n =? bool_int y
  | JInt n, JInt m => n =? m
  | JStr s, JStr t => bool_decide (s = t)
  | JArr l, JArr k =>
      (fix each (l k : list json) : bool :=
         match l, k with
         | [], [] => true
         | x :: l', y :: k' => py_eq x y && each l' k'
         | _, _ => false
         end) l k
  | JObj d, JObj e =>
      bool_decide (length d = length e) &&
      (fix each (d : pydict) : bool :=
         match d with
         | [] => true
         | kv :: d' =>
             match dict_get kv.1 e with
             | Some v' => py_eq kv.2 v' && each d'
             | None => false
             end
         end) d
  | _, _ => false
  end.

(** A record against a row of [csv.DictReader], whose keys are strings
    or [None]. *)
Definition row_eq (item : json) (row : list (option string * json)) : bool :=
  match item with
  | JObj d =>
      bool_decide (length d = length row) &&
      forallb (λ kv, match dict_get (Some kv.1) row with
                     | Some v' => py_eq kv.2 v'
                     | None => false
                     end) d
  | _ => false
  end.

End Eq.

(** ** Text files *)

Module Text.
Import Py.

Definition cons_head (c : ascii) (ls : list string) : list string :=
  match ls with
  | [] => [chr c]
  | l :: ls' => String c l :: ls'
  end.

(** The lines a text file opened for reading yields (universal newlines:
    every line ending comes out as a line feed). *)
Fixpoint readlines (s : string) : list string :=
  match s with
  | EmptyString => []
  | String c s' =>
      if decide (c = LF) then chr LF :: readlines s'
      else if decide (c = CR) then
        match s' with
        | String c2 s'' =>
            if decide (c2 = LF) then chr LF :: readlines s''
            else chr LF :: readlines s'
        | EmptyString => [chr LF]
        end
      else cons_head c (readlines s')
  end.

End Text.

(** What a text comes back as through a file opened for reading with
    universal newlines: a carriage return, alone or before a line feed,
    is a line feed. *)
Fixpoint universal_newlines (s : string) : string :=
  match s with
  | EmptyString => EmptyString
  | String c s' =>
      if decide (c = Py.CR) then
        String Py.LF
          match s' with
          | String c2 s'' =>
              if decide (c2 = Py.LF) then universal_newlines s''
              else universal_newlines s'
          | EmptyString => EmptyString
          end
      else String c (universal_newlines s')
  end.

(** ** The [csv] module, excel dialect *)

Module Csv.
Import Py.

Inductive pstate : Type :=
| START_RECORD
| START_FIELD
| IN_FIELD
| IN_QUOTED_FIELD
| QUOTE_IN_QUOTED_FIELD
| EAT_CRNL.

Global Instance pstate_eq_dec : EqDecision pstate.
Proof. solve_decision. Defined.

(** The reader: its state, the field and the fields of the record being
    read, and the records read so far. *)
Record reader : Type := Reader {
  state : pstate;
  field : string;
  fields : list string;
  rows : list (list string)
}.

Definition init : reader := Reader START_RECORD "" [] [].

Definition set_state (st : pstate) (r : reader) : reader :=
  Reader st (field r) (fields r) (rows r).

(** [csv.field_size_limit()]: the most characters a field may have. *)
Definition field_limit : N := 131072.

(** One more character for the field; [None] is [csv.Error], raised when
    the field already has [field_limit] characters. *)
Definition add_char (c : ascii) (r : reader) : option reader :=
  if (field_limit <=? len (field r))%N then None
  else Some (Reader (state r) (field r +:+ chr c) (fields r) (rows r)).

Definition save_field (r : reader) : reader :=
  Reader (state r) "" (fields r ++ [field r]) (rows r).

Definition is_eol (c : option ascii) : bool :=
  match c with
  | None => true
  | Some a => bool_decide (a = LF) || bool_decide (a = CR)
  end.

Definition after_eol (c : option ascii) : pstate :=
  match c with
  | None => START_RECORD
  | Some _ => EAT_CRNL
  end.

Definition start_field (r : reader) (c : option ascii) : option reader :=
  if is_eol c then Some (set_state (after_eol c) (save_field r))
  else if decide (c = Some DQ) then Some (set_state IN_QUOTED_FIELD r)
  else if decide (c = Some ","%char) then Some (save_field (set_state START_FIELD r))
  else match c with
       | Some a => set_state IN_FIELD <$> add_char a r
       | None => Some r
       end.

(** One character, or the end of a line ([None]); [None] as a result is
    [csv.Error]: a field beyond the limit, or a character other than a
    line ending right after a line ending outside quotes. *)
Definition process_char (r : reader) (c : option ascii) : option reader :=
  match state r with
  | START_RECORD =>
      match c with
      | None => Some r
      | Some a =>
          if bool_decide (a = LF) || bool_decide (a = CR)
          then Some (set_state EAT_CRNL r)
          else start_field r c
      end
  | START_FIELD => start_field r c
  | IN_FIELD =>
      if is_eol c then Some (set_state (after_eol c) (save_field r))
      else if decide (c = Some ","%char) then Some (set_state START_FIELD (save_field r))
      else match c with
           | Some a => add_char a r
           | None => Some r
           end
  | IN_QUOTED_FIELD =>
      match c with
      | None => Some r
      | Some a =>
          if decide (a = DQ) then Some (set_state QUOTE_IN_QUOTED_FIELD r)
          else add_char a r
      end
  | QUOTE_IN_QUOTED_FIELD =>
      if decide (c = Some DQ) then set_state IN_QUOTED_FIELD <$> add_char DQ r
      else if decide (c = Some ","%char) then Some (set_state START_FIELD (save_field r))
      else if is_eol c then Some (set_state (after_eol c) (save_field r))
      else match c with
           | Some a => set_state IN_FIELD <$> add_char a r
           | None => Some r
           end
  | EAT_CRNL =>
      match c with
      | None => Some (set_state START_RECORD r)
      | Some a =>
          if bool_decide (a = LF) || bool_decide (a = CR) then Some r else None
      end
  end.

(** A record is complete when a line leaves the reader in
    [START_RECORD]. *)
Definition end_of_line (r : reader) : option reader :=
  r' ← process_char r None;
  Some (if decide (state r' = START_RECORD)
        then Reader START_RECORD "" [] (rows r' ++ [fields r'])
        else r').

Fixpoint feed_chars (r : reader) (line : string) : option reader :=
  match line with
  | EmptyString => Some r
  | String c line' => r' ← process_char r (Some c); feed_chars r' line'
  end.

Fixpoint feed_lines (r : reader) (ls : list string) : option reader :=
  match ls with
  | [] => Some r
  | l :: ls' => r1 ← feed_chars r l; r2 ← end_of_line r1; feed_lines r2 ls'
  end.

(** The input has ended: a record in progress is given as it stands. *)
Definition end_of_input (r : reader) : list (list string) :=
  if negb (bool_decide (field r = "")) || bool_decide (state r = IN_QUOTED_FIELD)
  then rows r ++ [fields r ++ [field r]]
  else rows r.

(** [list(csv.reader(lines))]. *)
Definition read (ls : list string) : option (list (list string)) :=
  end_of_input <$> feed_lines init ls.

(** The writer: a field is quoted when it holds a comma, a quote, a
    carriage return or a line feed, and quotes inside it are doubled. *)
Definition special (c : ascii) : bool :=
  bool_decide (c = ","%char) || bool_decide (c = DQ)
  || bool_decide (c = CR) || bool_decide (c = LF).

Fixpoint needs_quotes (s : string) : bool :=
  match s with
  | String c s' => special c || needs_quotes s'
  | EmptyString => false
  end.

Fixpoint double_quotes (s : string) : string :=
  match s with
  | String c s' =>
      if decide (c = DQ) then String DQ (String DQ (double_quotes s'))
      else String c (double_quotes s')
  | EmptyString => ""
  end.

Definition write_field (s : string) : string :=
  if needs_quotes s then chr DQ +:+ double_quotes s +:+ chr DQ else s.

(** [writer.writerow(cells)] with the line terminator. *)
Definition write_row (cells : list string) : string :=
  match cells with
  | [EmptyString] => String DQ (String DQ (String CR (chr LF)))
  | _ => join "," (write_field <$> cells) +:+ String CR (chr LF)
  end.

(** A value as the writer prints it. *)
Definition cell_text (v : json) : string :=
  match v with
  | JNull => ""
  | _ => Repr.str v
  end.

(** Rows of [csv.DictReader]: keys are field names or [None] (the rest
    key), values are strings, [None] (the rest value) or a list. *)
Abbreviation csvdict := (list (option string * json)).

Fixpoint zip_row (names : list string) (row : list string) (d : csvdict) : csvdict :=
  match names, row with
  | k :: names', v :: row' => zip_row names' row' (dict_set (Some k) (JStr v) d)
  | _, _ => d
  end.

Definition dict_row (fieldnames : list string) (row : list string) : csvdict :=
  let d := zip_row fieldnames row [] in
  let lf := length fieldnames in
  let lr := length row in
  if (lf <? lr)%nat then dict_set None (JArr (JStr <$> drop lf row)) d
  else foldl (λ d k, dict_set (Some k) JNull d) d (drop lr fieldnames).

(** [list(csv.DictReader(lines))]: the first record names the fields,
    empty records are skipped. *)
Definition dict_read (ls : list string) : option (list csvdict) :=
  rs ← read ls;
  match rs with
  | [] => Some []
  | fieldnames :: rs' =>
      Some (dict_row fieldnames <$> filter (λ row, row ≠ []) rs')
  end.

(** [DictWriter.writerow(rowdict)]: the text written, or the names of
    the fields that [fieldnames] lacks. *)
Definition dict_write (fieldnames : list string) (rowdict : pydict)
  : list string + string :=
  let wrong := filter (λ k, k ∉ fieldnames) (dict_keys rowdict) in
  match wrong with
  | [] =>
      inr (write_row ((λ k, from_option cell_text "" (dict_get k rowdict)) <$> fieldnames))
  | _ => inl wrong
  end.

End Csv.

(** ** Paths *)

Module Path.
Import Py.

Fixpoint split_on (sep : ascii) (s : string) : list string :=
  match s with
  | EmptyString => [""]
  | String c s' =>
      if decide (c = sep) then "" :: split_on sep s'
      else match split_on sep s' with
           | [] => [chr c]
           | p :: ps => String c p :: ps
           end
  end.

(** [Path(p).name]: the last component that is neither empty nor ["."]. *)
Definition name (p : string) : string :=
  default "" (last (filter (λ part, part ≠ "" ∧ part ≠ ".") (split_on "/" p))).

(** [Path(p).suffix]: from the last dot of the name on, when that dot is
    neither the first nor the last character of the name. *)
Definition suffix (p : string) : string :=
  match reverse (split_on "." (name p)) with
  | ext :: before :: rest =>
      if bool_decide (ext = "") || bool_decide (join "." (reverse (before :: rest)) = "")
      then ""
      else "." +:+ ext
  | _ => ""
  end.

End Path.

(** ** The exporter *)

Inductive io : Type :=
| IoExists (path : string)
| IoOpen (path : string) (mode : string)
| IoRead (path : string)
| IoWrite (path : string) (text : string).

(** The regular files, by path.  Text written in jsonl mode keeps its
    line feeds (the POSIX line separator); csv mode opens the file with
    [newline=""], which never translates. *)
Abbreviation files := (gmap string string).

Definition exists_file (fs : files) (path : string) : bool :=
  bool_decide (is_Some (fs !! path)).

(** [open(path, mode)] for ["w"] and ["a"]. *)
Definition open_for_writing (fs : files) (path : string) (overwrite : bool) : files :=
  if overwrite then <[path := ""]> fs
  else match fs !! path with
       | Some _ => fs
       | None => <[path := ""]> fs
       end.

Definition write (fs : files) (path text : string) : files :=
  <[path := default "" (fs !! path) +:+ text]> fs.

Definition mode_of (overwrite : bool) : string := if overwrite then "w" else "a".

(** Line 76. *)
Definition resolve_format (file_path : string) (file_format : option string) : string :=
  match file_format with
  | Some f => f
  | None => Py.lstrip_dots (Path.suffix file_path)
  end.

(** Lines 85-88, on records that [json.dumps] accepts ([within_digits]). *)
Fixpoint jsonl_loop (existing_data_lines : gset string) (allow_duplicates : bool)
    (file_path : string) (data : list json) (fs : files) : files * list io :=
  match data with
  | [] => (fs, [])
  | item :: data' =>
      let item_str := Json.dumps item in
      if allow_duplicates || bool_decide (Py.strip item_str ∉ existing_data_lines) then
        let '(fs', tr) :=
          jsonl_loop existing_data_lines allow_duplicates file_path data'
            (write fs file_path (item_str +:+ Py.chr Py.LF)) in
        (fs', IoWrite file_path (item_str +:+ Py.chr Py.LF) :: tr)
      else jsonl_loop existing_data_lines allow_duplicates file_path data' fs
  end.

(** [writer.writerow(item)]: [DictWriter] first refuses a dict with a key
    that is no field name; the writer then prints the cells, where [str]
    refuses an integer of more than 4300 digits.  A row is written whole
    or not at all. *)
Definition writerow (fieldnames : list string) (item : json) : exn + string :=
  match item with
  | JObj rowdict =>
      match Csv.dict_write fieldnames rowdict with
      | inl wrong => inl (ExtraFields wrong)
      | inr text =>
          if forallb (λ k, from_option within_digits true (dict_get k rowdict))
               fieldnames
          then inr text
          else inl DigitsLimit
      end
  | _ => inl AttributeError
  end.

(** Lines 105-107. *)
Fixpoint csv_loop (existing_data : list Csv.csvdict) (allow_duplicates : bool)
    (fieldnames : list string) (file_path : string) (data : list json) (fs : files)
  : (exn + unit) * files * list io :=
  match data with
  | [] => (inr (), fs, [])
  | item :: data' =>
      if allow_duplicates || negb (existsb (Eq.row_eq item) existing_data) then
        match writerow fieldnames item with
        | inl e => (inl e, fs, [])
        | inr text =>
            let '(res, fs', tr) :=
              csv_loop existing_data allow_duplicates fieldnames file_path data'
                (write fs file_path text) in
            (res, fs', IoWrite file_path text :: tr)
        end
      else csv_loop existing_data allow_duplicates fieldnames file_path data' fs
  end.

Definition append_to_file (data : list json) (file_path : string)
    (file_format : option string) (overwrite allow_duplicates : bool)
    (fs : files) : (exn + unit) * files * list io :=
  let file_format := resolve_format file_path file_format in
  if decide (file_format = "jsonl") then
    let mode := mode_of overwrite in
    let reading := negb overwrite && exists_file fs file_path in
    let existing_data_lines : gset string :=
      if reading
      then list_to_set (Py.strip <$> Text.readlines (default "" (fs !! file_path)))
      else ∅ in
    let tr_read :=
      if overwrite then []
      else IoExists file_path ::
           (if reading then [IoOpen file_path "r"; IoRead file_path] else []) in
    let fs1 := open_for_writing fs file_path overwrite in
    let '(fs2, tr) :=
      jsonl_loop existing_data_lines allow_duplicates file_path data fs1 in
    (inr (), fs2, tr_read ++ IoOpen file_path mode :: tr)
  else if decide (file_format = "csv") then
    let mode := mode_of overwrite in
    let reading := negb overwrite && exists_file fs file_path in
    let tr_read :=
      if overwrite then []
      else IoExists file_path ::
           (if reading then [IoOpen file_path "r"; IoRead file_path] else []) in
    match
      (if reading
       then Csv.dict_read (Text.readlines (default "" (fs !! file_path)))
       else Some [])
    with
    | None => (inl CsvError, fs, tr_read)
    | Some existing_data =>
        let fs1 := open_for_writing fs file_path overwrite in
        let tr_open := tr_read ++ [IoOpen file_path mode] in
        match data with
        | [] => (inl StopIteration, fs1, tr_open)
        | first_item :: _ =>
            match first_item with
            | JNull => (inr (), fs1, tr_open)
            | JObj first_dict =>
                let fieldnames := dict_keys first_dict in
                let header := overwrite || negb (exists_file fs1 file_path) in
                let head_text := Csv.write_row fieldnames in
                let fs2 := if header then write fs1 file_path head_text else fs1 in
                let tr_head :=
                  (if overwrite then [] else [IoExists file_path])
                  ++ (if header then [IoWrite file_path head_text] else []) in
                let '(res, fs3, tr) :=
                  csv_loop existing_data allow_duplicates fieldnames file_path data fs2 in
                (res, fs3, tr_open ++ tr_head ++ tr)
            | _ => (inl AttributeError, fs1, tr_open)
            end
        end
    end
  else (inl (UnsupportedFormat file_format), fs, []).

(** ** Notions the claims on the exporter use *)

Module Text_spec.
Import Py.

(** A text that is empty or ends with a line feed. *)
Fixpoint terminated (s : string) : bool :=
  match s with
  | EmptyString => true
  | String c s' =>
      match s' with
      | EmptyString => bool_decide (c = LF)
      | _ => terminated s'
      end
  end.

Definition no_break (c : ascii) : bool :=
  negb (bool_decide (c = LF)) && negb (bool_decide (c = CR)).

Definition printable (c : ascii) : bool :=
  ((32 <=? code c) && (code c <=? 126))%N.

(** The distinct lines of a jsonl file, trimmed: the set of line 82. *)
Definition line_set (content : string) : gset string :=
  list_to_set (strip <$> Text.readlines content).

End Text_spec.

(** The texts written to [path], in order. *)
Definition writes (path : string) (tr : list io) : list string :=
  omap (λ e, match e with
             | IoWrite p text => if decide (p = path) then Some text else None
             | _ => None
             end) tr.

Definition content_of (fs : files) (path : string) : string :=
  default "" (fs !! path).

(** The line written for a record in jsonl mode, and the test of line 87
    when duplicates are not allowed. *)
Definition jsonl_line (item : json) : string := Json.dumps item +:+ Py.chr Py.LF.

Definition jsonl_fresh (existing_data_lines : gset string) (item : json) : Prop :=
  Py.strip (Json.dumps item) ∉ existing_data_lines.

Module Csv_spec.
Import Py.

(** The records of a text that is empty or ends with a line feed and that
    leaves the reader between two records; [None] for any other text. *)
Definition records (t : string) : option (list (list string)) :=
  match Csv.feed_lines Csv.init (Text.readlines t) with
  | Some (Csv.Reader Csv.START_RECORD EmptyString [] rs) =>
      if Text_spec.terminated t then Some rs else None
  | _ => None
  end.

(** A csv file with a header that ends at the end of a record. *)
Definition with_header (t : string) : bool :=
  match records t with
  | Some (_ :: _) => true
  | _ => false
  end.

(** The rows line 95 reads back ([existing_data]). *)
Definition csv_rows (content : string) : list Csv.csvdict :=
  default [] (Csv.dict_read (Text.readlines content)).

(** The test of line 106 when duplicates are not allowed. *)
Definition csv_fresh (existing_data : list Csv.csvdict) (item : json) : Prop :=
  existsb (Eq.row_eq item) existing_data = false.

Global Instance csv_fresh_dec existing_data item :
  Decision (csv_fresh existing_data item).
Proof. unfold csv_fresh. apply _. Defined.

(** The rows [writerow] gives for the records, up to the first error. *)
Fixpoint row_texts (fieldnames : list string) (items : list json)
  : exn + list string :=
  match items with
  | [] => inr []
  | item :: items' =>
      match writerow fieldnames item with
      | inl e => inl e
      | inr text =>
          match row_texts fieldnames items' with
          | inl e => inl e
          | inr texts => inr (text :: texts)
          end
      end
  end.

(** Reading a text in one pass: every line ending feeds the reader a line
    feed and the end of the line. *)
Definition line_end (r : Csv.reader) : option Csv.reader :=
  r1 ← Csv.process_char r (Some LF); Csv.end_of_line r1.

Fixpoint feed_text (r : Csv.reader) (s : string) : option Csv.reader :=
  match s with
  | EmptyString => Some r
  | String c s' =>
      if decide (c = LF) then r' ← line_end r; feed_text r' s'
      else if decide (c = CR) then
        r' ← line_end r;
        match s' with
        | String c2 s'' => if decide (c2 = LF) then feed_text r' s'' else feed_text r' s'
        | EmptyString => Some r'
        end
      else r' ← Csv.process_char r (Some c); feed_text r' s'
  end.

(** The rows a file with header [hdr] gains from rows the writer printed. *)
Definition gained (hdr : list string) (texts : list string) : list Csv.csvdict :=
  Csv.dict_row hdr
  <$> filter (λ row, row ≠ []) (mjoin ((λ t, default [] (records t)) <$> texts)).

Definition shift (pre : list (list string)) (r : Csv.reader) : Csv.reader :=
  Csv.Reader (Csv.state r) (Csv.field r) (Csv.fields r) (pre ++ Csv.rows r).

End Csv_spec.

(** A cell the reader takes back: with its line endings as line feeds
    it has at most [Csv.field_limit] characters.  A record whose values
    all print as such cells. *)
Definition cell_fits (cell : string) : Prop :=
  (Py.len (universal_newlines cell) ≤ Csv.field_limit)%N.

Definition record_fits (item : json) : Prop :=
  match item with
  | JObj rowdict => Forall (λ kv, cell_fits (Csv.cell_text kv.2)) rowdict
  | _ => True
  end.

(** Reader states in which a field may begin, and in which one has just
    been read. *)
Definition cell_start (r : Csv.reader) : bool :=
  bool_decide (Csv.state r = Csv.START_RECORD)
  || bool_decide (Csv.state r = Csv.START_FIELD).

Definition cell_done (r : Csv.reader) : bool :=
  cell_start r
  || bool_decide (Csv.state r = Csv.IN_FIELD)
  || bool_decide (Csv.state r = Csv.QUOTE_IN_QUOTED_FIELD).

(** What a call reads from the destination before it writes: the set of
    line 82 and the rows of line 95, empty when the file is absent or
    about to be overwritten. *)
Definition start_lines (overwrite : bool) (fs : files) (path : string) : gset string :=
  if negb overwrite && exists_file fs path
  then Text_spec.line_set (content_of fs path)
  else ∅.

Definition start_rows (overwrite : bool) (fs : files) (path : string)
  : list Csv.csvdict :=
  if negb overwrite && exists_file fs path
  then Csv_spec.csv_rows (content_of fs path)
  else [].

(** * Further notions on the fetcher *)



(** A service that answers every request with the same throttling
    notice; its state counts the requests. *)
Definition throttle_forever (digits : string)
    (calls : nat) (params : pydict) (token : string) : json * nat :=
  (JObj [("detail", JStr (quoted_notice digits))], S calls).

(** * Further notions on the exporter *)

(** The path an action of the exporter names. *)
Definition io_path (e : io) : string :=
  match e with
  | IoExists p | IoOpen p _ | IoRead p | IoWrite p _ => p
  end.

(** What [open(path, mode)] leaves in the file before anything is
    written: nothing in mode ["w"], what was there in mode ["a"]. *)
Definition opened_content (overwrite : bool) (fs : files) (path : string) : string :=
  if overwrite then "" else content_of fs path.

(** The set a jsonl call tests against, and the rows a csv call tests
    against: with [allow_duplicates] the test of lines 87 and 106 is not
    made at all. *)
Definition tested_lines (overwrite allow_duplicates : bool) (fs : files)
    (path : string) : gset string :=
  if allow_duplicates then ∅ else start_lines overwrite fs path.

Definition tested_rows (overwrite allow_duplicates : bool) (fs : files)
    (path : string) : list Csv.csvdict :=
  if allow_duplicates then [] else start_rows overwrite fs path.

(** Values that a row of [csv.DictReader] can hold under a field name:
    a string or [None]. *)
Definition textual (v : json) : bool :=
  match v with
  | JStr _ | JNull => true
  | _ => false
  end.

(** An entry of a row read back: under a field name it holds a string or
    [None]. *)
Definition named_textual (kv : option string * json) : Prop :=
  kv.1 = None ∨ textual kv.2 = true.

(** A text without a carriage return. *)
Definition cr_free (s : string) : bool :=
  Py.str_forall (λ c, negb (bool_decide (c = Py.CR))) s.

(** The cells [DictWriter] prints for a dict, in the order of the field
    names, and for a record. *)
Definition record_cells (fieldnames : list string) (rowdict : pydict) : list string :=
  (λ k, from_option Csv.cell_text "" (dict_get k rowdict)) <$> fieldnames.

Definition item_cells (fieldnames : list string) (item : json) : list string :=
  match item with
  | JObj rowdict => record_cells fieldnames rowdict
  | _ => []
  end.

(** A record of strings over the given field names: a dict with exactly
    these keys, each once, whose values are strings without a carriage
    return. *)
Definition text_record (fieldnames : list string) (item : json) : Prop :=
  ∃ d, item = JObj d ∧
       NoDup (dict_keys d) ∧
       dict_keys d ≡ₚ fieldnames ∧
       Forall (λ kv, ∃ s, kv.2 = JStr s ∧ cr_free s = true) d.

(** * The exporter without [tqdm]

    When [tqdm.auto] cannot be imported, lines 19-25 define [tqdm] with
    [@contextmanager]: [tqdm(data)] is then a context manager, which is
    not iterable, and each [for item in tqdm(data)] raises [TypeError]
    before it takes a record.  [append_to_file] above is the function
    with [tqdm.auto]'s [tqdm], which iterates over what it is given; this
    is the function with the fallback. *)
Definition append_to_file_without_tqdm (data : list json) (file_path : string)
    (file_format : option string) (overwrite allow_duplicates : bool)
    (fs : files) : (exn + unit) * files * list io :=
  let file_format := resolve_format file_path file_format in
  let mode := mode_of overwrite in
  let reading := negb overwrite && exists_file fs file_path in
  let tr_read :=
    if overwrite then []
    else IoExists file_path ::
         (if reading then [IoOpen file_path "r"; IoRead file_path] else []) in
  if decide (file_format = "jsonl") then
    let fs1 := open_for_writing fs file_path overwrite in
    (inl TypeError, fs1, tr_read ++ [IoOpen file_path mode])
  else if decide (file_format = "csv") then
    match
      (if reading
       then Csv.dict_read (Text.readlines (default "" (fs !! file_path)))
       else Some [])
    with
    | None => (inl CsvError, fs, tr_read)
    | Some existing_data =>
        let fs1 := open_for_writing fs file_path overwrite in
        let tr_open := tr_read ++ [IoOpen file_path mode] in
        match data with
        | [] => (inl StopIteration, fs1, tr_open)
        | first_item :: _ =>
            match first_item with
            | JNull => (inr (), fs1, tr_open)
            | JObj first_dict =>
                let fieldnames := dict_keys first_dict in
                let header := overwrite || negb (exists_file fs1 file_path) in
                let head_text := Csv.write_row fieldnames in
                let fs2 := if header then write fs1 file_path head_text else fs1 in
                let tr_head :=
                  (if overwrite then [] else [IoExists file_path])
                  ++ (if header then [IoWrite file_path head_text] else []) in
                (inl TypeError, fs2, tr_open ++ tr_head)
            | _ => (inl AttributeError, fs1, tr_open)
            end
        end
    end
  else (inl (UnsupportedFormat file_format), fs, []).

(** * The program: [main]

    [main] hands the generator to the exporter, so the two run
    interleaved: the generator runs when the exporter asks for the next
    record and is suspended at its [yield] while the exporter handles
    the record.  The trace of a run lists the actions of both in the
    order they happen. *)

Inductive act : Type :=
| ActFetch (e : event)
| ActFile (e : io).

Definition fetch_acts (tr : list act) : list event :=
  omap (λ a, match a with ActFetch e => Some e | _ => None end) tr.

Definition file_acts (tr : list act) : list io :=
  omap (λ a, match a with ActFile e => Some e | _ => None end) tr.

(** The body of a [for] loop over the records: what it does to the
    files with one record, or the exception it raises. *)
Definition loop_body : Type := json → files → (exn + unit) * files * list io.

(** Lines 86-88 and lines 106-107. *)
Definition jsonl_body (existing_data_lines : gset string) (allow_duplicates : bool)
    (file_path : string) : loop_body := λ item fs,
  let item_str := Json.dumps item in
  if allow_duplicates || bool_decide (Py.strip item_str ∉ existing_data_lines) then
    (inr (), write fs file_path (item_str +:+ Py.chr Py.LF),
     [IoWrite file_path (item_str +:+ Py.chr Py.LF)])
  else (inr (), fs, []).

Definition csv_body (existing_data : list Csv.csvdict) (allow_duplicates : bool)
    (fieldnames : list string) (file_path : string) : loop_body := λ item fs,
  if allow_duplicates || negb (existsb (Eq.row_eq item) existing_data) then
    match writerow fieldnames item with
    | inl e => (inl e, fs, [])
    | inr text => (inr (), write fs file_path text, [IoWrite file_path text])
    end
  else (inr (), fs, []).

(** The records of one page, handed to the loop body one by one: each is
    yielded, then handled; an exception of the body ends the loop. *)
Fixpoint consume_items (body : loop_body) (items : list json) (fs : files)
  : (exn + unit) * files * list act :=
  match items with
  | [] => (inr (), fs, [])
  | item :: items' =>
      let '(res, fs1, tr) := body item fs in
      match res with
      | inl e => (inl e, fs1, ActFetch (EvYield item) :: (ActFile <$> tr))
      | inr _ =>
          let '(res2, fs2, tr2) := consume_items body items' fs1 in
          (res2, fs2, ActFetch (EvYield item) :: (ActFile <$> tr) ++ tr2)
      end
  end.

(** How a run ends: [main] returns, raises an exception of the fetcher
    or the exporter, raises the [ValueError] of line 116, or is still
    inside the [while True] loop when the fuel is used up. *)
Inductive ending : Type :=
| Returns
| Raises (e : exn)
| RaisesTokenNotFound
| Unfinished.

Definition ending_of (o : outcome) : ending :=
  match o with
  | Done => Returns
  | Raised e => Raises e
  | OutOfFuel => Unfinished
  end.

(** What [next] on the fresh generator gives (line 99): the first record,
    with the generator suspended at its [yield] inside a page (the records
    left on the page, the page's cursor, the fuel left); or the end of the
    generator; or its exception. *)
Inductive first_pull : Type :=
| FirstItem (item : json) (items : list json) (next : json) (fuel : nat)
| NoItem
| FirstRaised (e : exn)
| FirstOutOfFuel.

Module Cli.

(** The values [--format] may take ([choices]). *)
Inductive format_choice : Type :=
| jsonl
| csv.

Definition format_name (f : format_choice) : string :=
  match f with
  | jsonl => "jsonl"
  | csv => "csv"
  end.

(** What [parser.parse_args(argv)] returns. *)
Record args : Type := Args {
  output : option string;
  format : option format_choice;
  overwrite : bool;
  allow_duplicates : bool
}.

(** Lines 148-151. *)
Definition output_path (a : args) : string :=
  match output a with
  | Some path => path
  | None =>
      match format a with
      | None => "readwise_export.csv"
      | Some f => "readwise_export." +:+ format_name f
      end
  end.

End Cli.

Section Main.
Context {Srv : Type}.
Variable http_get : Srv → pydict → string → json * Srv.

(** [for item in fetch_all_documents(token): body], from the top of the
    generator's loop with the given cursor: the generator of lines 28-64
    with the loop body run at each [yield].  An exception of the body
    leaves the generator suspended: it makes no further request. *)
Fixpoint for_each_document (fuel : nat) (body : loop_body) (token : string)
    (next_page_cursor : json) (w : world) (fs : files)
  : outcome * world (Srv:=Srv) * files * list act :=
  match fuel with
  | O => (OutOfFuel, w, fs, [])
  | S fuel' =>
      let '(a, w1, evs) := acquire http_get token next_page_cursor w in
      match a with
      | Failed e => (Raised e, w1, fs, ActFetch <$> evs)
      | Retry =>
          let '(o, w2, fs2, tr) :=
            for_each_document fuel' body token next_page_cursor w1 fs in
          (o, w2, fs2, (ActFetch <$> evs) ++ tr)
      | Page response_json =>
          match emit response_json with
          | inl e => (Raised e, w1, fs, ActFetch <$> evs)
          | inr (ys, next) =>
              let '(res, fs1, tr1) := consume_items body (yielded ys) fs in
              match res with
              | inl e => (Raised e, w1, fs1, (ActFetch <$> evs) ++ tr1)
              | inr _ =>
                  if truthy next then
                    let '(o, w2, fs2, tr) :=
                      for_each_document fuel' body token next w1 fs1 in
                    (o, w2, fs2, (ActFetch <$> evs) ++ tr1 ++ tr)
                  else (Done, w1, fs1, (ActFetch <$> evs) ++ tr1)
              end
          end
      end
  end.

(** The generator resumed inside a page: the records left on the page,
    then the rest of the walk. *)
Definition resume (fuel : nat) (body : loop_body) (token : string)
    (items : list json) (next : json) (w : world) (fs : files)
  : outcome * world (Srv:=Srv) * files * list act :=
  let '(res, fs1, tr1) := consume_items body items fs in
  match res with
  | inl e => (Raised e, w, fs1, tr1)
  | inr _ =>
      if truthy next then
        let '(o, w2, fs2, tr) := for_each_document fuel body token next w fs1 in
        (o, w2, fs2, tr1 ++ tr)
      else (Done, w, fs1, tr1)
  end.

(** [next(iter(first_items))] on the fresh generator: the generator runs
    to its first [yield]. *)
Fixpoint first_document (fuel : nat) (token : string) (next_page_cursor : json)
    (w : world) : first_pull * world (Srv:=Srv) * list event :=
  match fuel with
  | O => (FirstOutOfFuel, w, [])
  | S fuel' =>
      let '(a, w1, evs) := acquire http_get token next_page_cursor w in
      match a with
      | Failed e => (FirstRaised e, w1, evs)
      | Retry =>
          let '(f, w2, tr) := first_document fuel' token next_page_cursor w1 in
          (f, w2, evs ++ tr)
      | Page response_json =>
          match emit response_json with
          | inl e => (FirstRaised e, w1, evs)
          | inr (ys, next) =>
              match yielded ys with
              | item :: items =>
                  (FirstItem item items next fuel', w1, evs ++ [EvYield item])
              | [] =>
                  if truthy next then
                    let '(f, w2, tr) := first_document fuel' token next w1 in
                    (f, w2, evs ++ tr)
                  else (NoItem, w1, evs)
              end
          end
      end
  end.

(** [append_to_file(fetch_all_documents(token), ...)]: lines 67-109 on
    the generator instead of a list.  Nothing of the generator runs
    before the first record is asked for: after the format is settled,
    the destination read and opened. *)
Definition export_documents (fuel : nat) (token : string) (file_path : string)
    (file_format : option string) (overwrite allow_duplicates : bool)
    (w : world) (fs : files) : ending * world (Srv:=Srv) * files * list act :=
  let file_format := resolve_format file_path file_format in
  let mode := mode_of overwrite in
  let reading := negb overwrite && exists_file fs file_path in
  let tr_read :=
    if overwrite then []
    else IoExists file_path ::
         (if reading then [IoOpen file_path "r"; IoRead file_path] else []) in
  if decide (file_format = "jsonl") then
    let existing_data_lines : gset string :=
      if reading
      then list_to_set (Py.strip <$> Text.readlines (default "" (fs !! file_path)))
      else ∅ in
    let fs1 := open_for_writing fs file_path overwrite in
    let '(o, w1, fs2, tr) :=
      for_each_document fuel
        (jsonl_body existing_data_lines allow_duplicates file_path)
        token JNull w fs1 in
    (ending_of o, w1, fs2, (ActFile <$> tr_read ++ [IoOpen file_path mode]) ++ tr)
  else if decide (file_format = "csv") then
    match
      (if reading
       then Csv.dict_read (Text.readlines (default "" (fs !! file_path)))
       else Some [])
    with
    | None => (Raises CsvError, w, fs, ActFile <$> tr_read)
    | Some existing_data =>
        let fs1 := open_for_writing fs file_path overwrite in
        let tr_open := ActFile <$> tr_read ++ [IoOpen file_path mode] in
        let '(first, w1, evs) := first_document fuel token JNull w in
        let tr_first := tr_open ++ (ActFetch <$> evs) in
        match first with
        | NoItem => (Raises StopIteration, w1, fs1, tr_first)
        | FirstRaised e => (Raises e, w1, fs1, tr_first)
        | FirstOutOfFuel => (Unfinished, w1, fs1, tr_first)
        | FirstItem first_item items next fuel' =>
            match first_item with
            | JNull => (Returns, w1, fs1, tr_first)
            | JObj first_dict =>
                let fieldnames := dict_keys first_dict in
                let header := overwrite || negb (exists_file fs1 file_path) in
                let head_text := Csv.write_row fieldnames in
                let fs2 := if header then write fs1 file_path head_text else fs1 in
                let tr_head :=
                  ActFile <$>
                    (if overwrite then [] else [IoExists file_path])
                    ++ (if header then [IoWrite file_path head_text] else []) in
                let body := csv_body existing_data allow_duplicates fieldnames file_path in
                let '(res, fs3, tr3) := body first_item fs2 in
                match res with
                | inl e => (Raises e, w1, fs3, tr_first ++ tr_head ++ (ActFile <$> tr3))
                | inr _ =>
                    let '(o, w2, fs4, tr4) :=
                      resume fuel' body token items next w1 fs3 in
                    (ending_of o, w2, fs4,
                     tr_first ++ tr_head ++ (ActFile <$> tr3) ++ tr4)
                end
            | _ => (Raises AttributeError, w1, fs1, tr_first)
            end
        end
    end
  else (Raises (UnsupportedFormat file_format), w, fs, []).

(** Lines 112-157.  [environ_token] is what [os.getenv] gives after
    [load_dotenv()], [a] what [parse_args] returns. *)
Definition main (fuel : nat) (environ_token : option string) (a : Cli.args)
    (w : world) (fs : files) : ending * world (Srv:=Srv) * files * list act :=
  match environ_token with
  | None | Some EmptyString => (RaisesTokenNotFound, w, fs, [])
  | Some token =>
      export_documents fuel token (Cli.output_path a)
        (Cli.format_name <$> Cli.format a)
        (Cli.overwrite a) (Cli.allow_duplicates a) w fs
  end.

End Main.
(** ** Facts about the fetcher *)

Lemma apply_stores_app c ss1 ss2 :
  apply_stores c (ss1 ++ ss2) = apply_stores c ss1 ≫= λ c', apply_stores c' ss2.
Proof.
  revert c. induction ss1 as [|[k v] ss1 IH]; intros c; simpl; [done|].
  destruct (bool_decide (c !! k = None) && has_results v); [apply IH|done].
Qed.

Lemma apply_stores_subseteq c ss c' : apply_stores c ss = Some c' → c ⊆ c'.
Proof.
  revert c. induction ss as [|[k v] ss IH]; intros c; simpl.
  - intros [= ->]. done.
  - destruct (bool_decide (c !! k = None)) eqn:Hk; simpl; [|done].
    destruct (has_results v); [|done].
    intros H. apply bool_decide_eq_true in Hk.
    etrans; [|by apply IH]. by apply insert_subseteq.
Qed.

Lemma yielded_app tr1 tr2 : yielded (tr1 ++ tr2) = yielded tr1 ++ yielded tr2.
Proof. apply omap_app. Qed.

Lemma network_calls_app tr1 tr2 :
  network_calls (tr1 ++ tr2) = network_calls tr1 ++ network_calls tr2.
Proof. apply omap_app. Qed.


Lemma stores_app tr1 tr2 : stores (tr1 ++ tr2) = stores tr1 ++ stores tr2.
Proof. apply omap_app. Qed.

Lemma yielded_yields items : yielded (EvYield <$> items) = items.
Proof. induction items as [|x l IH]; [done|]. cbn. f_equal. exact IH. Qed.

Lemma network_calls_yields items : network_calls (EvYield <$> items) = [].
Proof. induction items as [|x l IH]; [done|]. exact IH. Qed.

Lemma stores_yields items : stores (EvYield <$> items) = [].
Proof. induction items as [|x l IH]; [done|]. exact IH. Qed.

Lemma sleeps_yields items : sleeps (EvYield <$> items) = [].
Proof. induction items as [|x l IH]; [done|]. exact IH. Qed.

Section FetcherFacts.
Context {Srv : Type}.
Variable http_get : Srv → pydict → string → json * Srv.

Abbreviation acquire := (acquire http_get).
Abbreviation fetch_loop := (fetch_loop http_get).

Lemma no_results_not_page r a evs : no_results r = (a, evs) → ∀ p, a ≠ Page p.
Proof.
  unfold no_results, throttle. intros H p ->.
  repeat case_match; simplify_eq.
Qed.

Lemma no_results_stores r a evs : no_results r = (a, evs) → stores evs = [].
Proof.
  unfold no_results, throttle. intros H.
  repeat case_match; simplify_eq; done.
Qed.

Lemma py_in_has_results r : py_in "results" r = inr true → has_results r = true.
Proof. unfold has_results. by intros ->. Qed.

Lemma acquire_hit token cur w r :
  cache w !! cache_key cur = Some r →
  acquire token cur w = (Page r, w, []).
Proof. unfold acquire. by intros ->. Qed.

(** One pass either leaves the cache alone or adds one fresh key whose
    body has ["results"]. *)
Lemma acquire_stores token cur w a w' evs :
  acquire token cur w = (a, w', evs) →
  apply_stores (cache w) (stores evs) = Some (cache w').
Proof.
  unfold acquire. destruct (cache w !! cache_key cur) as [r|] eqn:Hk.
  - intros [= <- <- <-]. done.
  - destruct (http_get (server w) (params_of cur) token) as [r srv'].
    destruct (py_in "results" r) as [e|[]] eqn:Hr.
    + intros [= <- <- <-]. done.
    + intros [= <- <- <-]. simpl. rewrite (py_in_has_results _ Hr).
      by rewrite bool_decide_eq_true_2.
    + destruct (no_results r) as [a' evs'] eqn:Hn.
      intros [= <- <- <-]. simpl.
      change (stores (EvGet (params_of cur) token :: evs')) with (stores evs').
      by rewrite (no_results_stores _ _ _ Hn).
Qed.

Lemma fetch_loop_stores fuel token cur w o w' tr :
  fetch_loop fuel token cur w = (o, w', tr) →
  apply_stores (cache w) (stores tr) = Some (cache w').
Proof.
  revert cur w o w' tr. induction fuel as [|fuel IH]; intros cur w o w' tr; simpl.
  - intros [= <- <- <-]. done.
  - destruct (acquire token cur w) as [[a w1] evs] eqn:Ha.
    apply acquire_stores in Ha.
    destruct a as [r| |e].
    + destruct (emit r) as [e|[ys next]] eqn:He.
      { intros [= <- <- <-]. done. }
      destruct (truthy next).
      * destruct (fetch_loop fuel token next w1) as [[o2 w2] tr2] eqn:Hl.
        intros [= <- <- <-]. apply IH in Hl.
        rewrite !stores_app, apply_stores_app, Ha. simpl.
        unfold emit in He. repeat case_match; simplify_eq.
        by rewrite stores_yields.
      * intros [= <- <- <-].
        rewrite stores_app, apply_stores_app, Ha. simpl.
        unfold emit in He. repeat case_match; simplify_eq.
        by rewrite stores_yields.
    + destruct (fetch_loop fuel token cur w1) as [[o2 w2] tr2] eqn:Hl.
      intros [= <- <- <-]. apply IH in Hl.
      by rewrite stores_app, apply_stores_app, Ha.
    + intros [= <- <- <-]. done.
Qed.

(** More fuel does not change a run that has ended. *)
Lemma fetch_loop_more_fuel fuel fuel' token cur w o w' tr :
  fetch_loop fuel token cur w = (o, w', tr) →
  o ≠ OutOfFuel →
  (fuel ≤ fuel')%nat →
  fetch_loop fuel' token cur w = (o, w', tr).
Proof.
  revert fuel' cur w o w' tr.
  induction fuel as [|fuel IH]; intros fuel' cur w o w' tr; simpl.
  - intros [= <- <- <-]. done.
  - intros H Ho Hle. destruct fuel' as [|fuel']; [lia|]. simpl.
    destruct (acquire token cur w) as [[a w1] evs].
    destruct a as [r| |e]; [|
      destruct (fetch_loop fuel token cur w1) as [[o2 w2] tr2] eqn:Hl;
      simplify_eq; erewrite IH; [done..|lia] |done].
    destruct (emit r) as [e|[ys next]]; [done|].
    destruct (truthy next); [|done].
    destruct (fetch_loop fuel token next w1) as [[o2 w2] tr2] eqn:Hl.
    simplify_eq. erewrite IH; [done..|lia].
Qed.

Lemma acquire_yielded token cur w a w' evs :
  acquire token cur w = (a, w', evs) → yielded evs = [].
Proof.
  unfold acquire, no_results, throttle. intros H.
  repeat case_match; simplify_eq; done.
Qed.

Lemma acquire_failed_or_cached token cur w r w' evs :
  acquire token cur w = (Page r, w', evs) → cache w' !! cache_key cur = Some r.
Proof.
  unfold acquire. destruct (cache w !! cache_key cur) as [r0|] eqn:Hk.
  - by intros [= <- <- <-].
  - destruct (http_get (server w) (params_of cur) token) as [r1 srv'].
    destruct (py_in "results" r1) as [e|[]].
    + by intros [=].
    + intros [= <- <- <-]. simpl. apply lookup_insert_eq.
    + destruct (no_results r1) as [a evs'] eqn:Hn. intros [= -> <- <-].
      by destruct (no_results_not_page _ _ _ Hn r).
Qed.

Lemma emit_yields r ys next :
  emit r = inr (ys, next) → ys = EvYield <$> yielded ys.
Proof.
  unfold emit. intros H. repeat case_match; simplify_eq.
  by rewrite yielded_yields.
Qed.

(** A run that ended normally is replayed from any cache that extends
    its final cache: no pass reaches the network. *)
Lemma fetch_loop_replay fuel token cur w w1 tr :
  fetch_loop fuel token cur w = (Done, w1, tr) →
  ∀ c' srv', cache w1 ⊆ c' →
    fetch_loop fuel token cur (World c' srv')
    = (Done, World c' srv', EvYield <$> yielded tr).
Proof.
  revert cur w w1 tr. induction fuel as [|fuel IH]; intros cur w w1 tr; [done|].
  intros Hrun c' srv' Hsub.
  assert (Hmono : fetch_loop (S fuel) token cur w = (Done, w1, tr)) by done.
  simpl in Hrun.
  destruct (acquire token cur w) as [[a wa] evs] eqn:Ha.
  pose proof (acquire_yielded _ _ _ _ _ _ Ha) as Hy.
  destruct a as [r| |e]; [| |done].
  - pose proof (acquire_failed_or_cached _ _ _ _ _ _ Ha) as Hr.
    destruct (emit r) as [e|[ys next]] eqn:He; [done|].
    pose proof (emit_yields _ _ _ He) as Hys.
    destruct (truthy next) eqn:Hn.
    + destruct (fetch_loop fuel token next wa) as [[o2 w2] tr2] eqn:Hl.
      injection Hrun as -> -> <-.
      assert (c' !! cache_key cur = Some r) as Hc'.
      { eapply lookup_weaken; [|exact Hsub].
        eapply lookup_weaken; [exact Hr|].
        eapply apply_stores_subseteq, fetch_loop_stores, Hl. }
      simpl. rewrite (acquire_hit token cur (World c' srv') r Hc'), He, Hn.
      rewrite (IH _ _ _ _ Hl _ _ Hsub). simpl.
      rewrite !yielded_app, Hy. simpl. by rewrite fmap_app, <- Hys.
    + injection Hrun as <- <-.
      assert (c' !! cache_key cur = Some r) as Hc'.
      { eapply lookup_weaken; [exact Hr|exact Hsub]. }
      simpl. rewrite (acquire_hit token cur (World c' srv') r Hc'), He, Hn. simpl.
      rewrite yielded_app, Hy. simpl. by rewrite <- Hys.
  - destruct (fetch_loop fuel token cur wa) as [[o2 w2] tr2] eqn:Hl.
    injection Hrun as -> -> <-.
    rewrite yielded_app, Hy, app_nil_l.
    eapply fetch_loop_more_fuel; [by eapply IH|done|lia].
Qed.

End FetcherFacts.

(** ** Walking a chain of pages *)

Lemma Forall2_impl_elem {A B} (P Q : A → B → Prop) (l : list A) (k : list B) :
  Forall2 P l k → (∀ x y, x ∈ l → P x y → Q x y) → Forall2 Q l k.
Proof.
  induction 1 as [|x y l k Hxy _ IH]; intros HPQ; constructor.
  - apply HPQ; [left|done].
  - apply IH. intros x' y' Hin. apply HPQ. by right.
Qed.

Section Chains.
Context {Srv : Type}.
Variable http_get : Srv → pydict → string → json * Srv.

Abbreviation fetch_loop' := (fetch_loop http_get).
Abbreviation answers := (answers http_get).

Lemma page_items_has_results r items :
  page_items r = Some items → py_in "results" (JObj r) = inr true.
Proof.
  unfold page_items, py_in, dict_has. intros H. f_equal.
  destruct (dict_get "results" r); [|done]. by apply bool_decide_eq_true_2.
Qed.

Lemma page_items_emit r items :
  page_items r = Some items →
  emit (JObj r) = inr (EvYield <$> items, page_cursor r).
Proof.
  unfold page_items, emit. intros H.
  destruct (dict_get "results" r) as [[]|]; simplify_eq. done.
Qed.

Lemma acquire_chain_page token cur w r items :
  page_items r = Some items →
  answers token cur r →
  cache_agrees (cache w) cur r →
  ∃ w' evs,
    acquire http_get token cur w = (Page (JObj r), w', evs) ∧
    cache w' = <[cache_key cur := JObj r]> (cache w).
Proof.
  intros Hit Hans [Hc|Hc]; unfold acquire; rewrite Hc.
  - specialize (Hans (server w)).
    destruct (http_get (server w) (params_of cur) token) as [r' srv']. simpl in Hans.
    subst r'. rewrite (page_items_has_results _ _ Hit). eauto.
  - eexists _, _. split; [done|]. by rewrite insert_id.
Qed.

Lemma fetch_chain token rs : ∀ cur w fuel,
  linked rs →
  Forall2 (answers token) (requests cur rs) rs →
  Forall2 (cache_agrees (cache w)) (requests cur rs) rs →
  NoDup (cache_key <$> requests cur rs) →
  (length rs ≤ fuel)%nat →
  ∃ w' tr, fetch_loop' fuel token cur w = (Done, w', tr) ∧
           yielded tr = chain_items rs.
Proof.
  induction rs as [|r rs IH]; intros cur w fuel; [done|].
  intros [[items Hit] Hlink] Hans Hagree Hnd Hfuel. simpl in *.
  destruct fuel as [|fuel]; [lia|].
  apply Forall2_cons in Hans as [Hans1 Hans], Hagree as [Hag1 Hagree].
  apply NoDup_cons in Hnd as [Hfresh Hnd].
  destruct (acquire_chain_page token cur w r items Hit Hans1 Hag1)
    as (w1 & evs & Ha & Hw1).
  pose proof (acquire_yielded _ _ _ _ _ _ _ Ha) as Hy.
  simpl. rewrite Ha, (page_items_emit _ _ Hit).
  unfold chain_items. simpl. rewrite Hit. simpl.
  destruct rs as [|r2 rs'].
  - rewrite Hlink. eexists _, _. split; [done|].
    rewrite yielded_app, Hy, yielded_yields. simpl. by rewrite app_nil_r.
  - destruct Hlink as [Htrue Hlink]. rewrite Htrue.
    destruct (IH (page_cursor r) w1 fuel) as (w2 & tr & Hrun & Htr);
      [done|done| |done|simpl in *; lia|].
    + rewrite Hw1. eapply Forall2_impl_elem; [exact Hagree|].
      intros c p Hin. unfold cache_agrees.
      rewrite lookup_insert_ne; [done|].
      intros Heq. apply Hfresh. rewrite Heq.
      apply list_elem_of_fmap. by exists c.
    + rewrite Hrun. eexists _, _. split; [done|].
      rewrite !yielded_app, Hy, yielded_yields, Htr. done.
Qed.

End Chains.

(** ** The throttling pattern *)

Lemma str_cons_app c (a b : string) : String c a +:+ b = String c (a +:+ b).
Proof. done. Qed.

Lemma str_nil_app (b : string) : "" +:+ b = b.
Proof. done. Qed.

Lemma str_app_assoc (a b c : string) : (a +:+ b) +:+ c = a +:+ b +:+ c.
Proof. induction a as [|x a IH]; [done|]. by rewrite !str_cons_app, IH. Qed.

Lemma str_app_nil_r (a : string) : a +:+ "" = a.
Proof. induction a as [|x a IH]; [done|]. by rewrite str_cons_app, IH. Qed.

Lemma str_rev_app_spec (a b : string) :
  String.rev_app a b = String.rev a +:+ b.
Proof.
  unfold String.rev. revert b. induction a as [|x a IH]; intros b; [done|].
  cbn [String.rev_app]. rewrite IH, (IH (String x "")). by rewrite str_app_assoc.
Qed.

Lemma str_rev_cons c (a : string) :
  String.rev (String c a) = String.rev a +:+ Py.chr c.
Proof. unfold String.rev at 1. cbn [String.rev_app]. apply str_rev_app_spec. Qed.

Lemma str_rev_snoc (a : string) c :
  String.rev (a +:+ Py.chr c) = String c (String.rev a).
Proof.
  induction a as [|x a IH]; [done|].
  by rewrite str_cons_app, !str_rev_cons, IH.
Qed.

Lemma str_rev_involutive (a : string) : String.rev (String.rev a) = a.
Proof.
  induction a as [|x a IH]; [done|].
  by rewrite str_rev_cons, str_rev_snoc, IH.
Qed.

Lemma re_match_lit c p s :
  Re.re_match (Re.Lit c :: p) (String c s) = Re.re_match p s.
Proof. cbn. by rewrite decide_True. Qed.

Lemma re_match_dot c p s :
  c ≠ Py.LF → Re.re_match (Re.Dot :: p) (String c s) = Re.re_match p s.
Proof. intros Hc. cbn. by rewrite decide_False. Qed.

(** A subject that does not begin with an apostrophe is not matched. *)
Lemma throttled_wants_apostrophe c s :
  c ≠ Py.SQ → Re.re_match Re.throttled (String c s) = None.
Proof. intros Hc. cbn. by rewrite decide_False. Qed.

Lemma throttle_notice_unmatched digits :
  Re.re_match Re.throttled (throttle_notice digits) = None.
Proof. by apply throttled_wants_apostrophe. Qed.

(** The greedy group takes a whole run of digits that a blank follows. *)
Lemma digits_star_run rest (digits tail : string) g : ∀ taken,
  Py.str_forall Py.isdigit digits = true →
  rest (String " " tail) = Some g →
  Re.digits_star rest taken (digits +:+ String " " tail)
  = Some (Some (String.rev taken +:+ digits)).
Proof.
  induction digits as [|d digits IH]; intros taken Hd Hp.
  - rewrite str_nil_app. cbn. rewrite Hp. cbn. by rewrite str_app_nil_r.
  - cbn in Hd. apply andb_prop in Hd as [Hd1 Hd2].
    rewrite str_cons_app. cbn. rewrite Hd1, (IH (String d taken) Hd2 Hp).
    by rewrite str_rev_cons, str_app_assoc.
Qed.

Lemma quoted_notice_matched digits :
  Py.str_forall Py.isdigit digits = true →
  Re.re_match Re.throttled (quoted_notice digits) = Some (Some digits).
Proof.
  intros Hd. unfold Re.throttled, quoted_notice, throttle_notice.
  rewrite !str_app_assoc, !str_cons_app, !str_nil_app.
  cbn [Re.lits app].
  repeat first [rewrite re_match_lit | rewrite re_match_dot by done].
  cbn [Re.re_match].
  by erewrite digits_star_run.
Qed.

Section Throttling.
Context {Srv : Type}.
Variable http_get : Srv → pydict → string → json * Srv.

Lemma no_results_plain_notice r digits :
  dict_get "detail" r = Some (JStr (throttle_notice digits)) →
  no_results (JObj r) = (Failed (ApiError (JObj r)), []).
Proof.
  unfold no_results, throttle. intros ->. by rewrite throttle_notice_unmatched.
Qed.

(** A run of digits that [int] and [time.sleep] both accept: at most
    4300 digits, for at most 9223372036 seconds. *)
Lemma py_int_digits d digits :
  (Py.len (String d digits) ≤ Py.max_str_digits)%N →
  py_int (String d digits) = inr (Py.digits_value 0 (String d digits)).
Proof.
  intros Hlen. unfold py_int.
  by rewrite (proj2 (N.ltb_ge _ _) Hlen).
Qed.

Lemma no_results_quoted_notice r d digits :
  dict_get "detail" r = Some (JStr (quoted_notice (String d digits))) →
  Py.str_forall Py.isdigit (String d digits) = true →
  (Py.len (String d digits) ≤ Py.max_str_digits)%N →
  Py.digits_value 0 (String d digits) ≤ max_sleep →
  no_results (JObj r)
  = (Retry,
     [EvPrint ("Waiting for "
               +:+ Py.str_of_Z (Py.digits_value 0 (String d digits))
               +:+ " seconds");
      EvSleep (Py.digits_value 0 (String d digits))]).
Proof.
  unfold no_results, throttle. intros -> Hd Hlen Hmax.
  rewrite quoted_notice_matched by done.
  change (default "" (Some (String d digits))) with (String d digits).
  rewrite py_int_digits by done.
  by rewrite (proj2 (Z.leb_le _ _) Hmax).
Qed.

(** A throttling body with the notice between apostrophes: the loop
    prints, sleeps the stated seconds and asks for the same cursor again,
    from the same cache. *)
Lemma fetch_loop_quoted_notice fuel token cur w r srv' d digits :
  cache w !! cache_key cur = None →
  http_get (server w) (params_of cur) token = (JObj r, srv') →
  dict_has "results" r = false →
  dict_get "detail" r = Some (JStr (quoted_notice (String d digits))) →
  Py.str_forall Py.isdigit (String d digits) = true →
  (Py.len (String d digits) ≤ Py.max_str_digits)%N →
  Py.digits_value 0 (String d digits) ≤ max_sleep →
  fetch_loop http_get (S fuel) token cur w
  = let '(o, w2, tr) := fetch_loop http_get fuel token cur (World (cache w) srv') in
    (o, w2,
     [EvGet (params_of cur) token;
      EvPrint ("Waiting for "
               +:+ Py.str_of_Z (Py.digits_value 0 (String d digits))
               +:+ " seconds");
      EvSleep (Py.digits_value 0 (String d digits))] ++ tr).
Proof.
  intros Hc Hget Hres Hdet Hd Hlen Hmax. cbn [fetch_loop]. unfold acquire.
  rewrite Hc, Hget. cbn [py_in]. rewrite Hres.
  by rewrite (no_results_quoted_notice _ _ _ Hdet Hd Hlen Hmax).
Qed.

(** The same body with the bare notice: the loop raises at once. *)
Lemma fetch_loop_plain_notice fuel token cur w r srv' digits :
  cache w !! cache_key cur = None →
  http_get (server w) (params_of cur) token = (JObj r, srv') →
  dict_has "results" r = false →
  dict_get "detail" r = Some (JStr (throttle_notice digits)) →
  fetch_loop http_get (S fuel) token cur w
  = (Raised (ApiError (JObj r)), World (cache w) srv',
     [EvGet (params_of cur) token]).
Proof.
  intros Hc Hget Hres Hdet. cbn [fetch_loop]. unfold acquire.
  rewrite Hc, Hget. cbn [py_in]. rewrite Hres.
  by rewrite (no_results_plain_notice _ _ Hdet).
Qed.

End Throttling.

(** With the notice between apostrophes a service that throttles once
    is waited for and asked again: the page comes out after the sleep. *)
Lemma quoted_notice_then_page d digits items fuel token :
  Py.str_forall Py.isdigit (String d digits) = true →
  (Py.len (String d digits) ≤ Py.max_str_digits)%N →
  Py.digits_value 0 (String d digits) ≤ max_sleep →
  let page := [("results", JArr items)] in
  let wait_time := Py.digits_value 0 (String d digits) in
  fetch_all_documents (throttle_once (quoted_notice (String d digits)) page)
    (S (S fuel)) token (World ∅ 0%nat)
  = (Done,
     World {[ "{}" := JObj page ]} 2%nat,
     [EvGet [] token;
      EvPrint ("Waiting for " +:+ Py.str_of_Z wait_time +:+ " seconds");
      EvSleep wait_time;
      EvGet [] token;
      EvStore "{}" (JObj page)]
     ++ (EvYield <$> items)).
Proof.
  intros Hd Hlen Hmax page wait_time. unfold fetch_all_documents.
  erewrite fetch_loop_quoted_notice; [|done|done|done|done|exact Hd|exact Hlen|exact Hmax].
  cbn [fetch_loop]. unfold acquire. cbn. by rewrite insert_empty.
Qed.

Lemma apply_stores_results c ss c' :
  apply_stores c ss = Some c' →
  Forall (λ kv, has_results kv.2 = true) ss.
Proof.
  revert c. induction ss as [|[k v] ss IH]; intros c; simpl; [constructor|].
  destruct (bool_decide (c !! k = None)); simpl; [|done].
  destruct (has_results v) eqn:Hv; [|done].
  intros H. constructor; [done|]. by eapply IH.
Qed.

Lemma has_results_py_in r : has_results r = true → py_in "results" r = inr true.
Proof. unfold has_results. destruct (py_in "results" r) as [e|[]]; by intros. Qed.

(** ** Cache keys of distinct cursors *)

Section CacheKeys.
Import Py.

Lemma all_chars_complete c : In c all_chars.
Proof.
  destruct c as [[] [] [] [] [] [] [] []];
    apply list_elem_of_In, (bool_decide_unpack _); by vm_compute.
Qed.

Lemma prefix_free_spec q c1 c2 :
  prefix_free q = true →
  (∃ a w, Repr.repr_char q c1 = String a w ∧ a ≠ q) ∧
  (c1 ≠ c2 → String.prefix (Repr.repr_char q c1) (Repr.repr_char q c2) = false).
Proof.
  unfold prefix_free. rewrite forallb_forall. intros H.
  specialize (H c1 (all_chars_complete c1)).
  apply andb_prop in H as [Hne H]. split.
  - destruct (Repr.repr_char q c1) as [|a w]; [done|].
    exists a, w. split; [done|].
    by apply negb_true_iff, bool_decide_eq_false in Hne.
  - rewrite forallb_forall in H. specialize (H c2 (all_chars_complete c2)).
    intros Hc. apply orb_prop in H as [H|H].
    + by apply bool_decide_eq_true in H.
    + by apply negb_true_iff in H.
Qed.

Lemma prefix_free_quote s : prefix_free (Repr.quote_of s) = true.
Proof.
  unfold Repr.quote_of.
  destruct (str_contains SQ s && negb (str_contains DQ s)); by vm_compute.
Qed.

Lemma prefix_of_app (a b x y : string) :
  a +:+ x = b +:+ y → String.prefix a b = true ∨ String.prefix b a = true.
Proof.
  revert b. induction a as [|c a IH]; intros [|d b]; [by left|by left|by right|].
  rewrite !str_cons_app. intros [= -> H]. cbn.
  destruct (IH _ H) as [Hp|Hp]; [left|right];
    by destruct (Ascii.ascii_dec d d).
Qed.

Lemma str_rev_app (a b : string) :
  String.rev (a +:+ b) = String.rev b +:+ String.rev a.
Proof.
  induction a as [|x a IH]; [by rewrite str_nil_app, str_app_nil_r|].
  by rewrite str_cons_app, !str_rev_cons, IH, str_app_assoc.
Qed.

Lemma str_app_inv_r (a b c : string) : a +:+ c = b +:+ c → a = b.
Proof.
  intros H. apply (f_equal String.rev) in H. rewrite !str_rev_app in H.
  apply (inj (String.app _)) in H.
  by rewrite <- (str_rev_involutive a), H, str_rev_involutive.
Qed.

Lemma repr_chars_inj q s1 : ∀ s2 x,
  prefix_free q = true →
  Repr.repr_chars q s1 +:+ String q x = Repr.repr_chars q s2 +:+ String q x →
  s1 = s2.
Proof.
  induction s1 as [|c1 s1 IH]; intros s2 x Hq Heq.
  - destruct s2 as [|c2 s2]; [done|]. cbn [Repr.repr_chars] in Heq.
    destruct (prefix_free_spec q c2 c2 Hq) as [(a & w & Hw & Ha) _].
    rewrite Hw, str_nil_app, !str_cons_app in Heq. congruence.
  - destruct s2 as [|c2 s2]; cbn [Repr.repr_chars] in Heq.
    + destruct (prefix_free_spec q c1 c1 Hq) as [(a & w & Hw & Ha) _].
      rewrite Hw, str_nil_app, !str_cons_app in Heq. congruence.
    + rewrite !str_app_assoc in Heq.
      destruct (decide (c1 = c2)) as [->|Hne].
      * apply (inj (String.app _)) in Heq. f_equal. by eapply IH.
      * destruct (prefix_of_app _ _ _ _ Heq) as [Hp|Hp].
        -- destruct (prefix_free_spec q c1 c2 Hq) as [_ Hpf]. by rewrite Hpf in Hp.
        -- destruct (prefix_free_spec q c2 c1 Hq) as [_ Hpf]. by rewrite Hpf in Hp.
Qed.

Lemma repr_str_inj s1 s2 : Repr.repr_str s1 = Repr.repr_str s2 → s1 = s2.
Proof.
  unfold Repr.repr_str, chr. rewrite !str_cons_app, !str_nil_app.
  intros [= Hq Heq]. rewrite <- Hq in Heq.
  eapply repr_chars_inj; [apply prefix_free_quote|exact Heq].
Qed.

Lemma cache_key_string s :
  s ≠ "" → cache_key (JStr s) = "{'pageCursor': " +:+ Repr.repr_str s +:+ "}".
Proof.
  intros Hs. unfold cache_key, params_of. cbn [truthy].
  rewrite bool_decide_eq_false_2 by done. cbn [negb Repr.repr map join fst snd].
  by rewrite !str_app_assoc.
Qed.

Lemma cache_key_inj cur1 cur2 :
  token_like cur1 → token_like cur2 →
  cache_key cur1 = cache_key cur2 → cur1 = cur2.
Proof.
  intros [->|(s1 & -> & Hs1)] [->|(s2 & -> & Hs2)]; [done|..];
    rewrite ?cache_key_string by done.
  - by intros [=].
  - by intros [=].
  - intros H. apply (inj (String.app _)) in H.
    apply str_app_inv_r, repr_str_inj in H. by subst.
Qed.

Lemma requests_token_like rs : ∀ cur,
  linked rs → Forall string_cursor rs → token_like cur →
  Forall token_like (requests cur rs).
Proof.
  induction rs as [|r rs IH]; intros cur Hl Hs Hcur; [constructor|].
  cbn [requests]. constructor; [done|].
  destruct rs as [|r2 rs]; [constructor|].
  destruct Hl as [_ [Htrue Hl]]. apply Forall_cons in Hs as [Hr Hs].
  apply IH; [done|done|]. destruct (Hr Htrue) as [s Hcs].
  right. exists s. split; [done|]. intros ->. by rewrite Hcs in Htrue.
Qed.

End CacheKeys.

(** ** The claims on the fetcher *)

(** C1. A cursor whose cache key is in the cache is served from the
    cache: the pass returns the cached page, leaves cache and service as
    they were and performs no action, so no network call.  Hence, when a
    run has ended normally, a later run from the cache it left (by any
    service state, with any fuel not below the first run's) ends normally
    too, performs no network call, leaves the cache as it is and yields
    the same records in the same order. *)
Theorem cache_replay {Srv : Type} (http_get : Srv → pydict → string → json * Srv) :
  (∀ token cur w r,
     cache w !! cache_key cur = Some r →
     acquire http_get token cur w = (Page r, w, []))
  ∧
  (∀ fuel token w w1 tr,
     fetch_all_documents http_get fuel token w = (Done, w1, tr) →
     ∀ srv' fuel', (fuel ≤ fuel')%nat →
       ∃ tr',
         fetch_all_documents http_get fuel' token (World (cache w1) srv')
         = (Done, World (cache w1) srv', tr')
         ∧ network_calls tr' = []
         ∧ yielded tr' = yielded tr).
Proof.
  split; [apply acquire_hit|].
  intros fuel token w w1 tr Hrun srv' fuel' Hle.
  exists (EvYield <$> yielded tr). split_and!.
  - eapply fetch_loop_more_fuel; [|done|exact Hle].
    by eapply fetch_loop_replay.
  - apply network_calls_yields.
  - apply yielded_yields.
Qed.

Lemma cache_replay_witness :
  let first := fetch_all_documents three_pages 3 "token" (World ∅ tt) in
  length (network_calls first.2) = 3%nat ∧
  ∃ tr',
    fetch_all_documents three_pages 5 "token" (World (cache first.1.2) tt)
    = (Done, World (cache first.1.2) tt, tr')
    ∧ network_calls tr' = []
    ∧ yielded tr' = yielded first.2.
Proof.
  intros first. split; [reflexivity|].
  apply (proj2 (cache_replay three_pages) 3%nat "token" (World ∅ tt)
           first.1.2 first.2); [reflexivity|lia].
Defined.

(** C2. For pages [rs] that form a finite chain (each page a list of
    results and a cursor to the next, the last page without one) with
    pairwise distinct string cursors, which the service gives for the
    walk's requests and which the cache does not contradict: with fuel
    for one pass per page the fetch ends normally, right after the first
    page without a cursor, having yielded the pages' results in page
    order and in-page order. *)
Theorem pagination_completeness {Srv : Type}
    (http_get : Srv → pydict → string → json * Srv) token rs w fuel :
  linked rs →
  Forall string_cursor rs →
  NoDup (requests JNull rs) →
  Forall2 (answers http_get token) (requests JNull rs) rs →
  Forall2 (cache_agrees (cache w)) (requests JNull rs) rs →
  (length rs ≤ fuel)%nat →
  ∃ w' tr,
    fetch_all_documents http_get fuel token w = (Done, w', tr) ∧
    yielded tr = chain_items rs.
Proof.
  intros Hl Hs Hnd Hans Hag Hfuel. apply fetch_chain; try done.
  apply NoDup_fmap_2_strong; [|done].
  pose proof (requests_token_like rs JNull Hl Hs (or_introl eq_refl)) as Htl.
  rewrite Forall_forall in Htl.
  intros x y Hx Hy. apply cache_key_inj; by apply Htl.
Qed.

Lemma pagination_completeness_witness :
  let p1 := [("results", JArr [JInt 1; JInt 2]); ("nextPageCursor", JStr "c1")] in
  let p2 := [("results", JArr [JInt 3]); ("nextPageCursor", JStr "c2")] in
  let p3 := [("count", JInt 4); ("results", JArr [JInt 4])] in
  ∃ w' tr,
    fetch_all_documents three_pages 3 "token" (World ∅ tt) = (Done, w', tr) ∧
    yielded tr = chain_items [p1; p2; p3].
Proof.
  intros p1 p2 p3.
  apply (pagination_completeness three_pages "token" [p1; p2; p3] (World ∅ tt) 3).
  - cbn. repeat split; by eexists.
  - repeat first [apply Forall_nil_2 | apply Forall_cons_2];
      intros Ht; first [done | by eexists].
  - cbn [requests]. rewrite !NoDup_cons, !not_elem_of_cons.
    split_and!; try done; [apply not_elem_of_nil..|apply NoDup_nil_2].
  - repeat constructor; by intros [].
  - repeat constructor.
  - cbn. lia.
Defined.

(** C3, as stated, fails on the code.  Line 49 is a membership test; on
    a body that is a JSON string it is a substring test.  A service that
    answers the string ["no results"] passes it: line 58 stores that
    body, which has no field at all, under the key of the first request,
    and line 60 then raises [TypeError]. *)
Lemma string_body_is_cached :
  let run :=
    fetch_all_documents (constant_service (JStr "no results")) 1 "token"
      (World ∅ tt) in
  run.1.1 = Raised TypeError
  ∧ stores run.2 = [("{}", JStr "no results")]
  ∧ cache run.1.2 = {[ "{}" := JStr "no results" ]}
  ∧ ¬ Forall (λ kv, has_results_field kv.2 = true) (stores run.2).
Proof.
  intros run. split_and!; [done|done|by vm_compute|].
  intros H. by apply Forall_cons in H as [H _].
Qed.

(** C3, amended.  In any run, ended or not, the stores of the trace
    replay on the initial cache to the final cache, each on a key that is
    absent at that moment and each of a body that passes the membership
    test of line 49; a stored body that is a JSON object has the key
    ["results"].  So every entry of the initial cache is in the final
    cache with the same value. *)
Theorem cache_only_grows {Srv : Type}
    (http_get : Srv → pydict → string → json * Srv) fuel token cur w :
  let '(_, w', tr) := fetch_loop http_get fuel token cur w in
  apply_stores (cache w) (stores tr) = Some (cache w')
  ∧ Forall (λ kv, py_in "results" kv.2 = inr true) (stores tr)
  ∧ Forall (λ kv, ∀ d, kv.2 = JObj d → has_results_field kv.2 = true) (stores tr)
  ∧ cache w ⊆ cache w'.
Proof.
  destruct (fetch_loop http_get fuel token cur w) as [[o w'] tr] eqn:Hrun.
  pose proof (fetch_loop_stores _ _ _ _ _ _ _ _ Hrun) as Hs.
  pose proof (apply_stores_results _ _ _ Hs) as Hr.
  split_and!; [done| | |by eapply apply_stores_subseteq].
  - eapply Forall_impl; [exact Hr|]. intros [k v]. apply has_results_py_in.
  - eapply Forall_impl; [exact Hr|].
    intros [k v] Hv d Hd. simpl in Hd. subst v. exact Hv.
Qed.

(** C4 fails on the code.  A service whose first answer is the body
    [{"detail": "Request was throttled. Expected available in N seconds."}]
    makes the fetch raise the API error after one network call: nothing
    is slept, nothing retried, whatever the service would answer next. *)
Theorem throttle_notice_raises digits page fuel token :
  fetch_all_documents (throttle_once (throttle_notice digits) page)
    (S fuel) token (World ∅ 0%nat)
  = (Raised (ApiError (JObj [("detail", JStr (throttle_notice digits))])),
     World ∅ 1%nat,
     [EvGet [] token]).
Proof.
  unfold fetch_all_documents.
  by erewrite fetch_loop_plain_notice.
Qed.


(** ** Facts about the exporter *)

(** After [open] the destination exists, whatever the mode. *)
Lemma exists_after_open fs path overwrite :
  exists_file (open_for_writing fs path overwrite) path = true.
Proof.
  unfold exists_file, open_for_writing. apply bool_decide_eq_true_2.
  destruct overwrite; [by rewrite lookup_insert_eq|].
  destruct (fs !! path) eqn:Hp; [by rewrite Hp|by rewrite lookup_insert_eq].
Qed.

(** So the test of line 103 reduces to [overwrite]. *)
Lemma header_condition fs path overwrite :
  overwrite || negb (exists_file (open_for_writing fs path overwrite) path)
  = overwrite.
Proof. rewrite exists_after_open. by destruct overwrite. Qed.

(** ** Paths and formats *)

Section Suffix.
Import Py.

Lemma split_on_nonempty sep s : Path.split_on sep s ≠ [].
Proof. destruct s as [|c s]; cbn; repeat case_match; done. Qed.

Lemma split_on_app sep (a b : string) :
  Path.split_on sep (a +:+ String sep b) = Path.split_on sep a ++ Path.split_on sep b.
Proof.
  induction a as [|c a IH].
  - rewrite str_nil_app. cbn. by rewrite decide_True.
  - rewrite str_cons_app. cbn [Path.split_on]. rewrite IH.
    destruct (decide (c = sep)); [done|].
    pose proof (split_on_nonempty sep a).
    by destruct (Path.split_on sep a).
Qed.

Lemma split_on_plain sep s :
  str_contains sep s = false → Path.split_on sep s = [s].
Proof.
  induction s as [|c s IH]; [done|]. cbn.
  destruct (decide (c = sep)); [done|]. intros Hs. by rewrite IH.
Qed.

Lemma join_split sep s : join (chr sep) (Path.split_on sep s) = s.
Proof.
  induction s as [|c s IH]; [done|]. cbn [Path.split_on].
  pose proof (split_on_nonempty sep s) as Hne.
  destruct (decide (c = sep)) as [->|Hc].
  - destruct (Path.split_on sep s) as [|p ps]; [done|].
    change (join (chr sep) ("" :: p :: ps))
      with ("" +:+ chr sep +:+ join (chr sep) (p :: ps)).
    by rewrite IH.
  - destruct (Path.split_on sep s) as [|p ps]; [done|].
    destruct ps as [|p2 ps]; cbn in *; by rewrite <- IH.
Qed.

(** A name [stem.ext] with a stem and a dot-free extension has the
    suffix [.ext], and the inferred format is [ext]. *)
Lemma format_of_extension file_path (stem ext : string) :
  Path.name file_path = stem +:+ String "." ext →
  stem ≠ "" → ext ≠ "" → str_contains "." ext = false →
  resolve_format file_path None = ext.
Proof.
  intros Hname Hstem Hext Hdot. unfold resolve_format, Path.suffix.
  rewrite Hname, split_on_app, (split_on_plain _ _ Hdot), reverse_app.
  cbn [reverse rev_append app].
  pose proof (split_on_nonempty "." stem) as Hne.
  destruct (reverse (Path.split_on "." stem)) as [|before rest] eqn:Hrev.
  { apply (f_equal reverse) in Hrev. rewrite reverse_involutive in Hrev.
    by destruct Hne. }
  assert (reverse (before :: rest) = Path.split_on "." stem) as Hrr
    by (rewrite <- Hrev; apply reverse_involutive).
  change (rev_append rest [before]) with (reverse (before :: rest)). rewrite Hrr.
  change (join "." (Path.split_on "." stem))
    with (join (chr ".") (Path.split_on "." stem)).
  rewrite (join_split "." stem).
  rewrite !bool_decide_eq_false_2 by done. cbn [orb].
  destruct ext as [|c ext]; [done|]. cbn in Hdot.
  destruct (decide (c = "."%char)) as [|Hc]; [done|].
  unfold lstrip_dots. rewrite str_cons_app, str_nil_app. cbn [drop_while].
  by rewrite bool_decide_eq_true_2, bool_decide_eq_false_2.
Qed.

End Suffix.

(** ** The claims on the exporter: formats, headers, empty input *)

(** C5. Without a format the format is the suffix of the path without its
    leading dots, which for a name [stem.ext] is [ext]; and when the
    format, given or inferred, is neither [jsonl] nor [csv], the call
    raises the unsupported-format error, returns the file system as it
    was and performs no file action. *)
Theorem unsupported_format_rejected data file_path file_format overwrite
    allow_duplicates fs :
  resolve_format file_path None = Py.lstrip_dots (Path.suffix file_path) ∧
  (∀ stem ext,
     Path.name file_path = stem +:+ String "." ext →
     stem ≠ "" → ext ≠ "" → Py.str_contains "." ext = false →
     resolve_format file_path None = ext) ∧
  (resolve_format file_path file_format ≠ "jsonl" →
   resolve_format file_path file_format ≠ "csv" →
   append_to_file data file_path file_format overwrite allow_duplicates fs
   = (inl (UnsupportedFormat (resolve_format file_path file_format)), fs, [])).
Proof.
  split_and!; [done|apply format_of_extension|].
  intros Hj Hc. unfold append_to_file. by rewrite !decide_False.
Qed.

Lemma unsupported_format_rejected_witness :
  resolve_format "notes/export.txt" None = "txt" ∧
  append_to_file [JObj [("a", JInt 1)]] "notes/export.txt" None false false
    {[ "notes/export.txt" := "kept" ]}
  = (inl (UnsupportedFormat "txt"), {[ "notes/export.txt" := "kept" ]}, []).
Proof.
  pose proof (unsupported_format_rejected [JObj [("a", JInt 1)]]
                "notes/export.txt" None false false
                {[ "notes/export.txt" := "kept" ]}) as (_ & Hext & Hrej).
  split.
  - apply (Hext "export" "txt"); by vm_compute.
  - apply Hrej; by vm_compute.
Defined.

(** C8 fails on the code.  The destination is opened, hence created,
    before line 103 asks whether it exists, so the header is written
    exactly when [overwrite] is set: appending one record to a path that
    does not exist leaves a file with the row and no header. *)
Theorem no_header_for_new_file :
  (∀ fs path overwrite,
     overwrite || negb (exists_file (open_for_writing fs path overwrite) path)
     = overwrite)
  ∧ append_to_file [JObj [("a", JStr "1")]] "out.csv" None false false ∅
    = (inr (),
       {[ "out.csv" := "1" +:+ String Py.CR (Py.chr Py.LF) ]},
       [IoExists "out.csv"; IoOpen "out.csv" "a"; IoExists "out.csv";
        IoWrite "out.csv" ("1" +:+ String Py.CR (Py.chr Py.LF))]).
Proof. split; [apply header_condition|]. by vm_compute. Qed.

(** C9 fails on the code.  With no record and no file at the path, csv
    mode creates the file empty and then raises [StopIteration] from
    [next]: the call neither returns normally nor leaves the path
    without a file. *)
Theorem empty_csv_creates_and_raises file_path overwrite allow_duplicates :
  append_to_file [] file_path (Some "csv") overwrite allow_duplicates ∅
  = (inl StopIteration,
     {[ file_path := "" ]},
     (if overwrite then [] else [IoExists file_path])
     ++ [IoOpen file_path (mode_of overwrite)]).
Proof.
  unfold append_to_file. simpl.
  unfold exists_file. rewrite lookup_empty, bool_decide_eq_false_2 by by intros [].
  rewrite andb_false_r. unfold open_for_writing. rewrite lookup_empty.
  destruct overwrite; done.
Qed.

(** ** Strings, lines and [json.dumps] *)

Section StringFacts.
Import Py Text_spec.

Lemma str_forall_app p (a b : string) :
  str_forall p (a +:+ b) = str_forall p a && str_forall p b.
Proof.
  induction a as [|c a IH]; [done|].
  rewrite str_cons_app. cbn. by rewrite IH, andb_assoc.
Qed.

Lemma str_forall_join p sep parts :
  str_forall p sep = true →
  Forall (λ s, str_forall p s = true) parts →
  str_forall p (join sep parts) = true.
Proof.
  intros Hsep. induction 1 as [|s parts Hs _ IH]; [done|].
  destruct parts as [|s2 parts]; [done|].
  change (join sep (s :: s2 :: parts)) with (s +:+ sep +:+ join sep (s2 :: parts)).
  by rewrite !str_forall_app, Hs, Hsep, IH.
Qed.

Lemma str_forall_impl (p q : ascii → bool) s :
  (∀ c, p c = true → q c = true) →
  str_forall p s = true → str_forall q s = true.
Proof.
  intros Hpq. induction s as [|c s IH]; [done|]. cbn.
  intros [Hc Hs]%andb_prop. by rewrite (Hpq _ Hc), IH.
Qed.

Lemma printable_no_break c : printable c = true → no_break c = true.
Proof. destruct c as [[] [] [] [] [] [] [] []]; by vm_compute. Qed.

Lemma escape_char_printable c : str_forall printable (Json.escape_char c) = true.
Proof. destruct c as [[] [] [] [] [] [] [] []]; by vm_compute. Qed.

Lemma escape_printable s : str_forall printable (Json.escape s) = true.
Proof.
  induction s as [|c s IH]; [done|]. cbn [Json.escape].
  by rewrite str_forall_app, escape_char_printable, IH.
Qed.

Lemma dumps_str_printable s : str_forall printable (Json.dumps_str s) = true.
Proof.
  unfold Json.dumps_str. by rewrite !str_forall_app, escape_printable.
Qed.

Lemma string_of_uint_nil_empty_printable d :
  str_forall printable (NilEmpty.string_of_uint d) = true.
Proof.
  induction d; cbn [NilEmpty.string_of_uint str_forall]; [done|..];
    rewrite IHd; by vm_compute.
Qed.

Lemma string_of_uint_printable d :
  str_forall printable (NilZero.string_of_uint d) = true.
Proof.
  destruct d; [done|..]; apply string_of_uint_nil_empty_printable.
Qed.

Lemma str_of_Z_printable n : str_forall printable (str_of_Z n) = true.
Proof.
  unfold str_of_Z. destruct (Z.to_int n); cbn [NilZero.string_of_int str_forall];
    by rewrite string_of_uint_printable.
Qed.

Lemma dumps_printable j : str_forall printable (Json.dumps j) = true.
Proof.
  induction j as [|[]|n|s|l IH|d IH] using json_nested_ind; cbn [Json.dumps];
    try done.
  - apply str_of_Z_printable.
  - apply dumps_str_printable.
  - rewrite !str_forall_app, str_forall_join; [by vm_compute|done|].
    by apply Forall_fmap.
  - rewrite !str_forall_app, str_forall_join; [by vm_compute|done|].
    apply Forall_fmap.
    eapply Forall_impl; [exact IH|]. intros [k v] Hv. cbn in *.
    by rewrite !str_forall_app, dumps_str_printable, Hv.
Qed.

Lemma dumps_no_break j : str_forall no_break (Json.dumps j) = true.
Proof.
  eapply str_forall_impl; [apply printable_no_break|apply dumps_printable].
Qed.

(** Trimming ignores a final line feed. *)
Lemma strip_line s : strip (s +:+ chr LF) = strip s.
Proof. unfold strip, rstrip. by rewrite str_rev_snoc. Qed.

Lemma readlines_nonempty s : s ≠ "" → Text.readlines s ≠ [].
Proof.
  destruct s as [|c s]; [done|]. intros _. cbn.
  repeat case_match; try done.
  unfold Text.cons_head. by case_match.
Qed.

Lemma terminated_tail c c2 s :
  terminated (String c (String c2 s)) = terminated (String c2 s).
Proof. done. Qed.

Lemma readlines_app F : ∀ t,
  terminated F = true →
  Text.readlines (F +:+ t) = Text.readlines F ++ Text.readlines t.
Proof.
  induction (Nat.lt_wf_0_projected String.length F) as [F _ IH]. intros t HF.
  destruct F as [|c F]; [done|].
  rewrite str_cons_app. cbn [Text.readlines].
  destruct (decide (c = LF)) as [->|Hlf].
  { destruct F as [|c2 F]; [done|].
    rewrite terminated_tail in HF. rewrite IH; [done|cbn; lia|done]. }
  destruct F as [|c2 F]; [cbn in HF; by case_bool_decide|].
  rewrite terminated_tail in HF.
  destruct (decide (c = CR)) as [->|Hcr].
  - rewrite str_cons_app. destruct (decide (c2 = LF)) as [->|Hlf2].
    + destruct F as [|c3 F]; [done|].
      rewrite terminated_tail in HF. rewrite IH; [done|cbn; lia|done].
    + rewrite <- str_cons_app, IH; [done|cbn; lia|done].
  - rewrite IH; [|cbn; lia|done].
    pose proof (readlines_nonempty (String c2 F)) as Hne.
    destruct (Text.readlines (String c2 F)); [by destruct Hne|done].
Qed.

Lemma readlines_line s : ∀ t,
  str_forall no_break s = true →
  Text.readlines (s +:+ String LF t) = (s +:+ chr LF) :: Text.readlines t.
Proof.
  induction s as [|c s IH]; intros t Hs; [done|].
  cbn in Hs. apply andb_prop in Hs as [Hc Hs].
  unfold no_break in Hc. apply andb_prop in Hc as [Hc1 Hc2].
  apply negb_true_iff, bool_decide_eq_false in Hc1, Hc2.
  rewrite !str_cons_app. cbn [Text.readlines].
  rewrite !decide_False by done. by rewrite IH.
Qed.

Lemma terminated_app a b :
  b ≠ "" → terminated (a +:+ b) = terminated b.
Proof.
  intros Hb. induction a as [|c a IH]; [done|].
  rewrite str_cons_app. destruct (a +:+ b) eqn:Hab.
  - destruct a; [by rewrite str_nil_app in Hab|done].
  - by rewrite terminated_tail.
Qed.

Lemma terminated_line s : terminated (s +:+ chr LF) = true.
Proof. by rewrite terminated_app. Qed.

End StringFacts.

(** ** The jsonl mode *)

Section Jsonl.
Import Py Text_spec.

Lemma content_of_write fs path text :
  content_of (write fs path text) path = content_of fs path +:+ text.
Proof. unfold content_of, write. by rewrite lookup_insert_eq. Qed.

Lemma write_existing fs path c text :
  fs !! path = Some c → write fs path text = <[path := c +:+ text]> fs.
Proof. unfold write. by intros ->. Qed.

Lemma writes_app path tr1 tr2 : writes path (tr1 ++ tr2) = writes path tr1 ++ writes path tr2.
Proof. apply omap_app. Qed.

Lemma writes_of_texts path texts : writes path (IoWrite path <$> texts) = texts.
Proof.
  induction texts as [|t texts IH]; [done|]. cbn.
  rewrite decide_True by done. f_equal. exact IH.
Qed.

(** The loop of lines 85-88 appends, in order, the lines of the records
    that pass the test of line 87, which looks at the set only. *)
Lemma jsonl_loop_spec existing path data : ∀ fs c,
  fs !! path = Some c →
  jsonl_loop existing false path data fs
  = (<[path := c +:+ concat (jsonl_line <$> filter (jsonl_fresh existing) data)]> fs,
     IoWrite path <$> (jsonl_line <$> filter (jsonl_fresh existing) data)).
Proof.
  induction data as [|item data IH]; intros fs c Hc.
  - cbn. by rewrite str_app_nil_r, insert_id.
  - cbn [jsonl_loop]. rewrite orb_false_l, filter_cons.
    destruct (decide (jsonl_fresh existing item)) as [Hfresh|Hfresh].
    + rewrite bool_decide_eq_true_2 by exact Hfresh.
      rewrite (IH (write fs path (Json.dumps item +:+ chr LF)) (c +:+ jsonl_line item)).
      * rewrite (write_existing _ _ _ _ Hc), insert_insert_eq.
        cbn. by rewrite str_app_assoc.
      * rewrite (write_existing _ _ _ _ Hc). apply lookup_insert_eq.
    + rewrite bool_decide_eq_false_2 by exact Hfresh. by apply IH.
Qed.

Lemma readlines_jsonl_lines items :
  Text.readlines (concat (jsonl_line <$> items)) = jsonl_line <$> items.
Proof.
  induction items as [|item items IH]; [done|].
  cbn [fmap list_fmap concat]. unfold jsonl_line at 1.
  rewrite str_app_assoc. change (chr LF +:+ ?t) with (String LF t).
  rewrite readlines_line by apply dumps_no_break. by rewrite IH.
Qed.

Lemma line_set_app F items :
  terminated F = true →
  line_set (F +:+ concat (jsonl_line <$> items))
  = line_set F ∪ list_to_set ((λ item, strip (Json.dumps item)) <$> items).
Proof.
  intros HF. unfold line_set.
  rewrite readlines_app, readlines_jsonl_lines, fmap_app, list_to_set_app_L by done.
  f_equal. rewrite <- list_fmap_compose. f_equal.
  apply list_fmap_ext. intros _ item _. cbn. apply strip_line.
Qed.

Lemma filter_none {A} (P : A → Prop) `{∀ x, Decision (P x)} (l : list A) :
  (∀ x, x ∈ l → ¬ P x) → filter P l = [].
Proof.
  induction l as [|x l IH]; intros Hl; [done|].
  rewrite filter_cons, decide_False; [|apply Hl; left].
  apply IH. intros y Hy. apply Hl. by right.
Qed.

(** Once the lines of the fresh records are in the file, no record of
    the same input is fresh. *)
Lemma nothing_fresh_after F data :
  terminated F = true →
  filter
    (jsonl_fresh
       (line_set (F +:+ concat (jsonl_line <$> filter (jsonl_fresh (line_set F)) data))))
    data = [].
Proof.
  intros HF. rewrite line_set_app by done.
  apply filter_none.
  intros item Hin Hfresh. unfold jsonl_fresh in Hfresh.
  apply Hfresh. destruct (decide (strip (Json.dumps item) ∈ line_set F)) as [|Hno];
    [by apply elem_of_union_l|].
  apply elem_of_union_r, elem_of_list_to_set, list_elem_of_fmap.
  exists item. split; [done|]. by apply list_elem_of_filter.
Qed.

Lemma append_jsonl_existing data path fmt fs F :
  resolve_format path fmt = "jsonl" →
  fs !! path = Some F →
  append_to_file data path fmt false false fs
  = (inr (),
     <[path := F +:+ concat (jsonl_line <$> filter (jsonl_fresh (line_set F)) data)]> fs,
     [IoExists path; IoOpen path "r"; IoRead path; IoOpen path "a"]
     ++ (IoWrite path <$> (jsonl_line <$> filter (jsonl_fresh (line_set F)) data))).
Proof.
  intros Hfmt HF. unfold append_to_file. rewrite Hfmt, decide_True by done.
  unfold exists_file, open_for_writing. rewrite HF.
  rewrite bool_decide_eq_true_2 by done. cbn [negb andb default].
  fold (line_set F). by rewrite (jsonl_loop_spec _ _ _ _ F HF).
Qed.

End Jsonl.

(** ** The claims on the jsonl mode *)

(** C6, as stated, fails on the code: a file whose last line has no line
    feed.  The first append joins its first line to that last line, so
    the second append finds the record missing and writes it: the set of
    distinct lines grows. *)
Lemma jsonl_unterminated_file_grows :
  let item := JObj [("a", JStr "1")] in
  let fs : files := {[ "out.jsonl" := "{}" ]} in
  let fs1 := (append_to_file [item] "out.jsonl" None false false fs).1.2 in
  let fs2 := (append_to_file [item] "out.jsonl" None false false fs1).1.2 in
  (Json.dumps item ∈ Text_spec.line_set (content_of fs2 "out.jsonl")) ∧
  (Json.dumps item ∉ Text_spec.line_set (content_of fs1 "out.jsonl")) ∧
  (Text_spec.line_set (content_of fs2 "out.jsonl")
   ≠ Text_spec.line_set (content_of fs1 "out.jsonl")).
Proof.
  intros item fs fs1 fs2.
  assert (Json.dumps item ∈ Text_spec.line_set (content_of fs2 "out.jsonl")) as H2
    by (apply (bool_decide_unpack _); by vm_compute).
  assert (Json.dumps item ∉ Text_spec.line_set (content_of fs1 "out.jsonl")) as H1
    by (apply (bool_decide_unpack _); by vm_compute).
  split_and!; [done|done|]. intros Heq. apply H1. by rewrite <- Heq.
Qed.

(** C6, amended.  For a destination that exists and is empty or ends
    with a line feed, in jsonl mode without [overwrite] and without
    [allow_duplicates]: the first call writes, in order, the line of each
    record whose serialization, trimmed, is not in the set of trimmed
    lines of the file as the call found it; the second call with the
    same records returns normally, writes nothing and leaves the file
    system, hence the set of distinct trimmed lines, as the first call
    left it. *)
Theorem jsonl_append_idempotent data file_path file_format fs F :
  resolve_format file_path file_format = "jsonl" →
  fs !! file_path = Some F →
  Text_spec.terminated F = true →
  let '(res1, fs1, tr1) :=
    append_to_file data file_path file_format false false fs in
  let '(res2, fs2, tr2) :=
    append_to_file data file_path file_format false false fs1 in
  res1 = inr () ∧
  writes file_path tr1
  = jsonl_line <$> filter (jsonl_fresh (Text_spec.line_set F)) data ∧
  res2 = inr () ∧
  writes file_path tr2 = [] ∧
  fs2 = fs1 ∧
  Text_spec.line_set (content_of fs2 file_path)
  = Text_spec.line_set (content_of fs1 file_path).
Proof.
  intros Hfmt HF Hterm.
  rewrite (append_jsonl_existing _ _ _ _ _ Hfmt HF).
  erewrite (append_jsonl_existing _ _ _ _ _ Hfmt) by apply lookup_insert_eq.
  rewrite nothing_fresh_after by done. cbn [fmap list_fmap Py.concat].
  rewrite str_app_nil_r, insert_insert_eq, app_nil_r.
  rewrite writes_app, writes_of_texts. done.
Qed.

Lemma jsonl_append_idempotent_witness :
  let data := [JObj [("a", JStr "1")]; JObj [("b", JInt 2)]; JObj [("a", JStr "1")]] in
  let fs : files :=
    {[ "out.jsonl" := Json.dumps (JObj [("b", JInt 2)]) +:+ Py.chr Py.LF ]} in
  let '(res1, fs1, tr1) := append_to_file data "out.jsonl" None false false fs in
  let '(res2, fs2, tr2) := append_to_file data "out.jsonl" None false false fs1 in
  res1 = inr () ∧
  writes "out.jsonl" tr1
  = jsonl_line <$>
      filter (jsonl_fresh (Text_spec.line_set
                (Json.dumps (JObj [("b", JInt 2)]) +:+ Py.chr Py.LF))) data ∧
  res2 = inr () ∧
  writes "out.jsonl" tr2 = [] ∧
  fs2 = fs1 ∧
  Text_spec.line_set (content_of fs2 "out.jsonl")
  = Text_spec.line_set (content_of fs1 "out.jsonl").
Proof.
  intros data fs.
  apply (jsonl_append_idempotent data "out.jsonl" None fs
           (Json.dumps (JObj [("b", JInt 2)]) +:+ Py.chr Py.LF));
    reflexivity.
Defined.

(** ** Reading csv text *)

Section CsvReading.
Import Py Text_spec Csv_spec.

Lemma process_char_shift pre r c :
  Csv.process_char (shift pre r) c = shift pre <$> Csv.process_char r c.
Proof.
  destruct r as [st f fs rs].
  unfold Csv.process_char, Csv.start_field, Csv.add_char, shift.
  cbn [Csv.state Csv.field Csv.fields Csv.rows].
  destruct ((Csv.field_limit <=? len f)%N); destruct st, c as [a|];
    cbn -[Csv.field_limit]; repeat case_match; done.
Qed.

Lemma end_of_line_shift pre r :
  Csv.end_of_line (shift pre r) = shift pre <$> Csv.end_of_line r.
Proof.
  unfold Csv.end_of_line. rewrite process_char_shift.
  destruct (Csv.process_char r None) as [r'|]; [|done]. cbn.
  destruct r' as [st f fs rs]. cbn.
  case_decide; [|done]. unfold shift. cbn. by rewrite app_assoc.
Qed.

Lemma feed_chars_shift pre l : ∀ r,
  Csv.feed_chars (shift pre r) l = shift pre <$> Csv.feed_chars r l.
Proof.
  induction l as [|c l IH]; intros r; [done|]. cbn [Csv.feed_chars].
  rewrite process_char_shift.
  destruct (Csv.process_char r (Some c)) as [r'|]; [|done]. cbn. apply IH.
Qed.

Lemma feed_lines_shift pre ls : ∀ r,
  Csv.feed_lines (shift pre r) ls = shift pre <$> Csv.feed_lines r ls.
Proof.
  induction ls as [|l ls IH]; intros r; [done|]. cbn [Csv.feed_lines].
  rewrite feed_chars_shift.
  destruct (Csv.feed_chars r l) as [r1|]; [|done]. cbn.
  rewrite end_of_line_shift.
  destruct (Csv.end_of_line r1) as [r2|]; [|done]. cbn. apply IH.
Qed.

Lemma feed_lines_app ls1 ls2 r :
  Csv.feed_lines r (ls1 ++ ls2) = Csv.feed_lines r ls1 ≫= λ r', Csv.feed_lines r' ls2.
Proof.
  revert r. induction ls1 as [|l ls1 IH]; intros r; [done|]. cbn.
  destruct (Csv.feed_chars r l) as [r1|]; [|done]. cbn.
  destruct (Csv.end_of_line r1) as [r2|]; [|done]. cbn. apply IH.
Qed.

Lemma records_spec t rs :
  records t = Some rs ↔
  terminated t = true ∧
  Csv.feed_lines Csv.init (Text.readlines t)
  = Some (Csv.Reader Csv.START_RECORD "" [] rs).
Proof.
  unfold records. split.
  - intros H. repeat case_match; simplify_eq. done.
  - intros [-> ->]. done.
Qed.

(** Two texts of whole records read as the records of the first, then
    those of the second. *)
Lemma records_app t1 t2 rs1 rs2 :
  records t1 = Some rs1 → records t2 = Some rs2 →
  records (t1 +:+ t2) = Some (rs1 ++ rs2).
Proof.
  rewrite !records_spec. intros [Ht1 Hf1] [Ht2 Hf2]. split.
  - destruct t2 as [|c t2]; [by rewrite str_app_nil_r|].
    by rewrite terminated_app.
  - rewrite readlines_app, feed_lines_app, Hf1 by done. cbn.
    replace (Csv.Reader Csv.START_RECORD "" [] rs1) with (shift rs1 Csv.init)
      by (unfold shift; cbn; by rewrite app_nil_r).
    by rewrite feed_lines_shift, Hf2.
Qed.

Lemma records_read t rs : records t = Some rs → Csv.read (Text.readlines t) = Some rs.
Proof.
  rewrite records_spec. intros [_ Hf]. unfold Csv.read. by rewrite Hf.
Qed.

End CsvReading.

Section CsvWriting.
Import Py Text_spec Csv_spec.

(** Both readings meet a line ending the same way; what is left is the
    text after it. *)
Ltac after_line_end r :=
  cbn [Csv.feed_lines Csv.feed_chars chr]; unfold line_end;
  destruct (Csv.process_char r (Some LF)) as [?r|]; [|done];
  cbn [mbind option_bind];
  match goal with
  | |- context [Csv.end_of_line ?r1] =>
      destruct (Csv.end_of_line r1) as [?r|]; [|done]
  end;
  cbn [mbind option_bind].

(** On a text that ends with a line feed, the reader over the lines is
    the one-pass reading. *)
Lemma feed_text_readlines s : ∀ r,
  terminated s = true →
  Csv.feed_lines r (Text.readlines s) = feed_text r s.
Proof.
  induction (Nat.lt_wf_0_projected String.length s) as [s _ IH]. intros r Hs.
  destruct s as [|c s]; [done|].
  cbn [Text.readlines feed_text].
  destruct (decide (c = LF)) as [->|Hlf].
  { after_line_end r.
    destruct s as [|c2 s]; [done|]. apply (IH (String c2 s)); [cbn; lia|done]. }
  destruct s as [|c2 s]; [cbn in Hs; by case_bool_decide|].
  rewrite terminated_tail in Hs.
  destruct (decide (c = CR)) as [->|Hcr].
  - destruct (decide (c2 = LF)) as [->|Hlf2]; after_line_end r.
    + destruct s as [|c3 s]; [done|]. apply (IH (String c3 s)); [cbn; lia|done].
    + apply (IH (String c2 s)); [cbn; lia|done].
  - pose proof (readlines_nonempty (String c2 s)) as Hne.
    destruct (Text.readlines (String c2 s)) as [|l ls] eqn:Hls; [by destruct Hne|].
    cbn [Text.cons_head Csv.feed_lines Csv.feed_chars].
    destruct (Csv.process_char r (Some c)) as [r1|]; [|done].
    cbn [mbind option_bind].
    rewrite <- (IH (String c2 s)); [|cbn; lia|done]. by rewrite Hls.
Qed.

Lemma not_special c :
  Csv.special c = false → c ≠ ","%char ∧ c ≠ DQ ∧ c ≠ CR ∧ c ≠ LF.
Proof.
  unfold Csv.special. rewrite !orb_false_iff.
  intros [[[H1 H2] H3] H4]. by apply bool_decide_eq_false in H1, H2, H3, H4.
Qed.

Lemma cell_done_at_start r : cell_start r = true → cell_done r = true.
Proof. unfold cell_done. by intros ->. Qed.

(** Lengths. *)
Lemma len_nil : len "" = 0%N.
Proof. done. Qed.

Lemma len_cons c s : len (String c s) = (1 + len s)%N.
Proof. unfold len. cbn [String.length]. lia. Qed.

Lemma len_app (a b : string) : len (a +:+ b) = (len a + len b)%N.
Proof.
  induction a as [|x a IH]; [by rewrite str_nil_app|].
  rewrite str_cons_app, !len_cons, IH. lia.
Qed.

Lemma len_snoc (a : string) c : len (a +:+ chr c) = (len a + 1)%N.
Proof. by rewrite len_app. Qed.

(** Line endings as a file opened with universal newlines gives them. *)
Lemma universal_newlines_char c s :
  c ≠ CR → universal_newlines (String c s) = String c (universal_newlines s).
Proof. intros Hc. cbn [universal_newlines]. by rewrite decide_False. Qed.

Lemma universal_newlines_cr_lf s :
  universal_newlines (String CR (String LF s)) = String LF (universal_newlines s).
Proof. done. Qed.

Lemma universal_newlines_cr c2 s :
  c2 ≠ LF →
  universal_newlines (String CR (String c2 s))
  = String LF (universal_newlines (String c2 s)).
Proof.
  intros Hc2. cbn [universal_newlines].
  rewrite (decide_True (P := CR = CR)) by done.
  by rewrite (decide_False (P := c2 = LF)).
Qed.

Lemma universal_newlines_plain s :
  Csv.needs_quotes s = false → universal_newlines s = s.
Proof.
  induction s as [|c s IH]; [done|]. cbn [Csv.needs_quotes universal_newlines].
  intros [(_ & _ & Hcr & _)%not_special Hs]%orb_false_iff.
  rewrite decide_False by done. by rewrite IH.
Qed.

(** Universal newlines never lengthen a text: a cell of at most
    [Csv.field_limit] characters fits. *)
Lemma len_universal_newlines s : (len (universal_newlines s) ≤ len s)%N.
Proof.
  induction (Nat.lt_wf_0_projected String.length s) as [s _ IH].
  destruct s as [|c s]; [done|].
  destruct (decide (c = CR)) as [->|Hcr].
  - destruct s as [|c2 s]; [done|].
    destruct (decide (c2 = LF)) as [->|Hlf].
    + rewrite universal_newlines_cr_lf, !len_cons.
      specialize (IH s). cbn [String.length] in IH.
      assert (len (universal_newlines s) ≤ len s)%N by (apply IH; lia). lia.
    + rewrite universal_newlines_cr by done. rewrite !(len_cons CR), (len_cons LF).
      specialize (IH (String c2 s)). cbn [String.length] in IH.
      assert (len (universal_newlines (String c2 s)) ≤ len (String c2 s))%N
        by (apply IH; lia). lia.
  - rewrite universal_newlines_char by done. rewrite !len_cons.
    specialize (IH s). cbn [String.length] in IH.
    assert (len (universal_newlines s) ≤ len s)%N by (apply IH; lia). lia.
Qed.

Lemma cell_fits_short cell : (len cell ≤ Csv.field_limit)%N → cell_fits cell.
Proof. unfold cell_fits. pose proof (len_universal_newlines cell). lia. Qed.

Lemma cell_fits_nil : cell_fits "".
Proof. unfold cell_fits. by vm_compute. Qed.

(** A field below the limit takes one more character. *)
Lemma add_char_fits c st f fs rs :
  (len f < Csv.field_limit)%N →
  Csv.add_char c (Csv.Reader st f fs rs) = Some (Csv.Reader st (f +:+ chr c) fs rs).
Proof.
  intros H. unfold Csv.add_char. cbn [Csv.field Csv.state Csv.fields Csv.rows].
  by rewrite (proj2 (N.leb_gt _ _) H).
Qed.

(** A character that is not special goes to the field. *)
Lemma process_plain_char_data r c :
  cell_done r = true → Csv.special c = false →
  (len (Csv.field r) < Csv.field_limit)%N →
  Csv.process_char r (Some c)
  = Some (Csv.Reader Csv.IN_FIELD (Csv.field r +:+ chr c) (Csv.fields r) (Csv.rows r)).
Proof.
  intros Hr (Hc1 & Hc2 & Hc3 & Hc4)%not_special Hlen.
  destruct r as [st f fs rs]. cbn [Csv.field Csv.fields Csv.rows] in *.
  unfold Csv.process_char, Csv.start_field, Csv.is_eol. cbn [Csv.state].
  destruct st; try done;
    rewrite ?bool_decide_eq_false_2, ?decide_False by congruence;
    cbn [orb]; rewrite add_char_fits by done; done.
Qed.

Lemma str_app_snoc (a : string) c (b : string) :
  (a +:+ chr c) +:+ b = a +:+ String c b.
Proof. by rewrite str_app_assoc. Qed.

Lemma feed_unquoted_data s : ∀ r rest,
  cell_done r = true → Csv.needs_quotes s = false → s ≠ "" →
  (len (Csv.field r) + len s ≤ Csv.field_limit)%N →
  feed_text r (s +:+ rest)
  = feed_text (Csv.Reader Csv.IN_FIELD (Csv.field r +:+ s) (Csv.fields r) (Csv.rows r))
      rest.
Proof.
  induction s as [|c s IH]; intros r rest Hr Hs Hne Hlen; [done|].
  cbn in Hs. apply orb_false_iff in Hs as [Hc Hs].
  rewrite len_cons in Hlen.
  pose proof (process_plain_char_data r c Hr Hc ltac:(lia)) as Hr1.
  apply not_special in Hc as (Hc1 & Hc2 & Hc3 & Hc4).
  rewrite str_cons_app. cbn [feed_text]. rewrite !decide_False, Hr1 by done.
  cbn [mbind option_bind].
  destruct (decide (s = "")) as [->|Hs'].
  - by rewrite str_nil_app.
  - rewrite IH; [|done|done|done|].
    + cbn [Csv.field Csv.fields Csv.rows]. by rewrite str_app_snoc.
    + cbn [Csv.field]. rewrite len_snoc. lia.
Qed.

(** Inside quotes. *)
Lemma process_quoted_char f fs rs c :
  c ≠ DQ → (len f < Csv.field_limit)%N →
  Csv.process_char (Csv.Reader Csv.IN_QUOTED_FIELD f fs rs) (Some c)
  = Some (Csv.Reader Csv.IN_QUOTED_FIELD (f +:+ chr c) fs rs).
Proof.
  intros Hc Hlen. unfold Csv.process_char. cbn [Csv.state].
  rewrite decide_False by done. by apply add_char_fits.
Qed.

Lemma process_doubled_quote f fs rs :
  (len f < Csv.field_limit)%N →
  Csv.process_char (Csv.Reader Csv.QUOTE_IN_QUOTED_FIELD f fs rs) (Some DQ)
  = Some (Csv.Reader Csv.IN_QUOTED_FIELD (f +:+ chr DQ) fs rs).
Proof.
  intros Hlen. unfold Csv.process_char. cbn [Csv.state].
  rewrite decide_True by done. by rewrite add_char_fits.
Qed.

Lemma line_end_in_quotes_data f fs rs :
  (len f < Csv.field_limit)%N →
  line_end (Csv.Reader Csv.IN_QUOTED_FIELD f fs rs)
  = Some (Csv.Reader Csv.IN_QUOTED_FIELD (f +:+ chr LF) fs rs).
Proof.
  intros Hlen. unfold line_end. by rewrite process_quoted_char.
Qed.

Lemma feed_quoted_close f fs rs (t : string) :
  feed_text (Csv.Reader Csv.IN_QUOTED_FIELD f fs rs) (String DQ t)
  = feed_text (Csv.Reader Csv.QUOTE_IN_QUOTED_FIELD f fs rs) t.
Proof. done. Qed.

Lemma feed_after_quote f fs rs (t : string) :
  (len f < Csv.field_limit)%N →
  feed_text (Csv.Reader Csv.QUOTE_IN_QUOTED_FIELD f fs rs) (String DQ t)
  = feed_text (Csv.Reader Csv.IN_QUOTED_FIELD (f +:+ chr DQ) fs rs) t.
Proof.
  intros Hlen. cbn [feed_text]. rewrite !decide_False by done.
  by rewrite process_doubled_quote.
Qed.

Lemma feed_quoted_quote f fs rs (t : string) :
  (len f < Csv.field_limit)%N →
  feed_text (Csv.Reader Csv.IN_QUOTED_FIELD f fs rs) (String DQ (String DQ t))
  = feed_text (Csv.Reader Csv.IN_QUOTED_FIELD (f +:+ chr DQ) fs rs) t.
Proof. intros Hlen. by rewrite feed_quoted_close, feed_after_quote. Qed.

Lemma feed_quoted_lf f fs rs (t : string) :
  (len f < Csv.field_limit)%N →
  feed_text (Csv.Reader Csv.IN_QUOTED_FIELD f fs rs) (String LF t)
  = feed_text (Csv.Reader Csv.IN_QUOTED_FIELD (f +:+ chr LF) fs rs) t.
Proof.
  intros Hlen. cbn [feed_text]. rewrite decide_True by done.
  by rewrite line_end_in_quotes_data.
Qed.

Lemma feed_quoted_cr_lf f fs rs (t : string) :
  (len f < Csv.field_limit)%N →
  feed_text (Csv.Reader Csv.IN_QUOTED_FIELD f fs rs) (String CR (String LF t))
  = feed_text (Csv.Reader Csv.IN_QUOTED_FIELD (f +:+ chr LF) fs rs) t.
Proof.
  intros Hlen. cbn [feed_text]. rewrite decide_False by done.
  rewrite decide_True by done. rewrite line_end_in_quotes_data by done.
  cbn [mbind option_bind]. by rewrite decide_True.
Qed.

Lemma feed_quoted_cr_end f fs rs :
  (len f < Csv.field_limit)%N →
  feed_text (Csv.Reader Csv.IN_QUOTED_FIELD f fs rs) (chr CR)
  = Some (Csv.Reader Csv.IN_QUOTED_FIELD (f +:+ chr LF) fs rs).
Proof.
  intros Hlen. unfold chr. cbn [feed_text]. rewrite decide_False by done.
  rewrite decide_True by done. by rewrite line_end_in_quotes_data.
Qed.

Lemma feed_quoted_cr f fs rs c2 (t : string) :
  c2 ≠ LF → (len f < Csv.field_limit)%N →
  feed_text (Csv.Reader Csv.IN_QUOTED_FIELD f fs rs) (String CR (String c2 t))
  = feed_text (Csv.Reader Csv.IN_QUOTED_FIELD (f +:+ chr LF) fs rs) (String c2 t).
Proof.
  intros Hc2 Hlen. cbn [feed_text]. rewrite decide_False by done.
  rewrite decide_True by done. rewrite line_end_in_quotes_data by done.
  cbn [mbind option_bind]. by rewrite (decide_False (P := c2 = LF)).
Qed.

Lemma feed_quoted_char f fs rs c (t : string) :
  c ≠ DQ → c ≠ LF → c ≠ CR → (len f < Csv.field_limit)%N →
  feed_text (Csv.Reader Csv.IN_QUOTED_FIELD f fs rs) (String c t)
  = feed_text (Csv.Reader Csv.IN_QUOTED_FIELD (f +:+ chr c) fs rs) t.
Proof.
  intros Hdq Hlf Hcr Hlen. cbn [feed_text]. rewrite !decide_False by done.
  by rewrite process_quoted_char.
Qed.

Lemma double_quotes_head c s (rest : string) :
  ∃ t, Csv.double_quotes (String c s) +:+ rest = String c t.
Proof.
  cbn [Csv.double_quotes].
  destruct (decide (c = DQ)) as [->|]; eexists; rewrite str_cons_app; reflexivity.
Qed.

(** The body of a quoted field and its closing quote: the reader has
    the field with its line endings as line feeds, when that stays
    within the limit. *)
Lemma feed_quoted_body_data s : ∀ f fs rs rest,
  (len f + len (universal_newlines s) ≤ Csv.field_limit)%N →
  feed_text (Csv.Reader Csv.IN_QUOTED_FIELD f fs rs)
    (Csv.double_quotes s +:+ String DQ rest)
  = feed_text
      (Csv.Reader Csv.QUOTE_IN_QUOTED_FIELD (f +:+ universal_newlines s) fs rs) rest.
Proof.
  induction (Nat.lt_wf_0_projected String.length s) as [s _ IH].
  intros f fs rs rest Hfit.
  destruct s as [|c s].
  { cbn [Csv.double_quotes universal_newlines].
    by rewrite str_nil_app, feed_quoted_close, str_app_nil_r. }
  destruct (decide (c = DQ)) as [->|Hdq].
  { rewrite universal_newlines_char in Hfit |- * by done.
    rewrite len_cons in Hfit. cbn [Csv.double_quotes].
    rewrite decide_True by done.
    rewrite !str_cons_app, feed_quoted_quote by lia.
    rewrite IH; [by rewrite str_app_snoc|cbn; lia|rewrite len_snoc; lia]. }
  destruct (decide (c = CR)) as [->|Hcr].
  { destruct s as [|c2 s].
    { cbn [Csv.double_quotes universal_newlines] in Hfit |- *.
      rewrite decide_False by done. rewrite str_cons_app, str_nil_app.
      rewrite decide_True in Hfit |- * by done. rewrite len_cons in Hfit.
      rewrite feed_quoted_cr by (done || lia). by rewrite feed_quoted_close. }
    destruct (decide (c2 = LF)) as [->|Hlf2].
    - rewrite universal_newlines_cr_lf in Hfit |- *. rewrite len_cons in Hfit.
      cbn [Csv.double_quotes].
      rewrite !decide_False by done.
      rewrite !str_cons_app, feed_quoted_cr_lf by lia.
      rewrite IH; [by rewrite str_app_snoc|cbn; lia|rewrite len_snoc; lia].
    - rewrite universal_newlines_cr in Hfit |- * by done.
      rewrite (len_cons LF) in Hfit.
      change (Csv.double_quotes (String CR (String c2 s)))
        with (String CR (Csv.double_quotes (String c2 s))).
      rewrite str_cons_app.
      destruct (double_quotes_head c2 s (String DQ rest)) as [t Ht].
      rewrite Ht, feed_quoted_cr, <- Ht by (done || lia).
      rewrite IH; [by rewrite str_app_snoc|cbn; lia|rewrite len_snoc; lia]. }
  rewrite universal_newlines_char in Hfit |- * by done.
  rewrite len_cons in Hfit. cbn [Csv.double_quotes].
  rewrite decide_False by done. rewrite str_cons_app.
  destruct (decide (c = LF)) as [->|Hlf].
  { rewrite feed_quoted_lf by lia.
    rewrite IH; [by rewrite str_app_snoc|cbn; lia|rewrite len_snoc; lia]. }
  rewrite feed_quoted_char by (done || lia).
  rewrite IH; [by rewrite str_app_snoc|cbn; lia|rewrite len_snoc; lia].
Qed.

(** A printed field, read from a state in which a field may begin. *)
Lemma feed_field_data cell r rest :
  cell_start r = true → Csv.field r = "" → cell_fits cell →
  ∃ r', feed_text r (Csv.write_field cell +:+ rest) = feed_text r' rest
        ∧ cell_done r' = true
        ∧ Csv.field r' = universal_newlines cell
        ∧ Csv.fields r' = Csv.fields r
        ∧ Csv.rows r' = Csv.rows r
        ∧ (Csv.state r' = Csv.START_RECORD → Csv.state r = Csv.START_RECORD ∧ cell = "").
Proof.
  intros Hr Hf Hfit. unfold cell_fits in Hfit. unfold Csv.write_field.
  destruct (Csv.needs_quotes cell) eqn:Hq.
  - unfold chr. rewrite !str_app_assoc, !str_cons_app, !str_nil_app.
    assert (feed_text r (String DQ (Csv.double_quotes cell +:+ String DQ rest))
            = feed_text (Csv.Reader Csv.IN_QUOTED_FIELD "" (Csv.fields r) (Csv.rows r))
                (Csv.double_quotes cell +:+ String DQ rest)) as ->.
    { destruct r as [st f fs rs]. cbn in Hf. subst f. by destruct st. }
    rewrite feed_quoted_body_data by (rewrite len_nil; lia).
    eexists. split; [done|]. by split_and!.
  - destruct (decide (cell = "")) as [->|Hne].
    + exists r. rewrite str_nil_app. split_and!; try done.
      by apply cell_done_at_start.
    + rewrite universal_newlines_plain in Hfit by done.
      rewrite feed_unquoted_data;
        [|by apply cell_done_at_start|done|done|rewrite Hf, len_nil; lia].
      eexists. split; [done|]. cbn. rewrite Hf, str_nil_app.
      by rewrite universal_newlines_plain.
Qed.

Lemma feed_comma_data r rest :
  cell_done r = true →
  feed_text r (String "," rest)
  = feed_text (Csv.Reader Csv.START_FIELD "" (Csv.fields r ++ [Csv.field r]) (Csv.rows r))
      rest.
Proof. intros Hr. destruct r as [st f fs rs]. by destruct st. Qed.

Lemma feed_fields_data cells : ∀ r rest,
  cells ≠ [] → cell_start r = true → Csv.field r = "" → Forall cell_fits cells →
  ∃ r', feed_text r (join "," (Csv.write_field <$> cells) +:+ rest)
        = feed_text r' rest
        ∧ cell_done r' = true
        ∧ Csv.fields r' ++ [Csv.field r']
          = Csv.fields r ++ (universal_newlines <$> cells)
        ∧ Csv.rows r' = Csv.rows r
        ∧ (Csv.state r' = Csv.START_RECORD →
           Csv.state r = Csv.START_RECORD ∧ cells = [""]).
Proof.
  induction cells as [|cell cells IH]; intros r rest Hne Hr Hf Hfits; [done|].
  apply Forall_cons in Hfits as [Hfit Hfits].
  destruct cells as [|cell2 cells].
  { destruct (feed_field_data cell r rest Hr Hf Hfit)
      as (r' & Hfeed & Hdone & Hfield & Hfields & Hrows & Hstart).
    exists r'. split_and!; [done|done|by rewrite Hfield, Hfields|done|].
    intros Hst. by destruct (Hstart Hst) as [? ->]. }
  change (join "," (Csv.write_field <$> cell :: cell2 :: cells))
    with (Csv.write_field cell +:+ "," +:+ join "," (Csv.write_field <$> cell2 :: cells)).
  rewrite !str_app_assoc, str_cons_app, str_nil_app.
  destruct (feed_field_data cell r
              (String "," (join "," (Csv.write_field <$> cell2 :: cells) +:+ rest))
              Hr Hf Hfit)
    as (r1 & -> & Hdone1 & Hfield1 & Hfields1 & Hrows1 & _).
  rewrite feed_comma_data by done.
  destruct (IH (Csv.Reader Csv.START_FIELD "" (Csv.fields r1 ++ [Csv.field r1])
                  (Csv.rows r1)) rest) as (r' & -> & Hdone & Hfields & Hrows & Hstart);
    [done|done|done|done|].
  exists r'. split_and!; [done|done| |by rewrite Hrows|].
  - rewrite Hfields. cbn [Csv.fields]. rewrite Hfield1, Hfields1.
    by rewrite <- app_assoc.
  - intros Hst. by destruct (Hstart Hst) as [? _].
Qed.

Lemma feed_terminator_data r :
  cell_done r = true → Csv.state r ≠ Csv.START_RECORD →
  feed_text r (String CR (chr LF))
  = Some (Csv.Reader Csv.START_RECORD "" []
            (Csv.rows r ++ [Csv.fields r ++ [Csv.field r]])).
Proof. intros Hr Hst. destruct r as [st f fs rs]. by destruct st. Qed.

(** A printed row whose cells fit is read back as one record. *)
Lemma feed_write_row cells :
  Forall cell_fits cells →
  feed_text Csv.init (Csv.write_row cells)
  = Some (Csv.Reader Csv.START_RECORD "" [] [universal_newlines <$> cells]).
Proof.
  intros Hfits.
  destruct (decide (cells = [])) as [->|Hne]; [done|].
  destruct (decide (cells = [""])) as [->|Hne1]; [done|].
  assert (Csv.write_row cells
          = join "," (Csv.write_field <$> cells) +:+ String CR (chr LF)) as ->.
  { unfold Csv.write_row. destruct cells as [|[|c cell] [|cell2 cells]]; done. }
  destruct (feed_fields_data cells Csv.init (String CR (chr LF)))
    as (r' & -> & Hdone & Hfields & Hrows & Hstart); [done..|].
  rewrite feed_terminator_data; [|done|by intros [_ ?]%Hstart].
  by rewrite Hfields, Hrows.
Qed.

Lemma terminated_write_row cells : terminated (Csv.write_row cells) = true.
Proof.
  unfold Csv.write_row. repeat case_match; try done; by rewrite terminated_app.
Qed.

Lemma records_write_row cells :
  Forall cell_fits cells →
  records (Csv.write_row cells) = Some [universal_newlines <$> cells].
Proof.
  intros Hfits. apply records_spec. split; [apply terminated_write_row|].
  rewrite feed_text_readlines by apply terminated_write_row.
  by apply feed_write_row.
Qed.

End CsvWriting.

(** ** The csv mode *)

Section CsvMode.
Import Py Text_spec Csv_spec.

Lemma row_texts_spec fieldnames items texts :
  row_texts fieldnames items = inr texts ↔
  Forall2 (λ item text, writerow fieldnames item = inr text) items texts.
Proof.
  revert texts. induction items as [|item items IH]; intros texts; cbn.
  - split; [intros [= <-]; constructor|by intros ->%Forall2_nil_inv_l].
  - destruct (writerow fieldnames item) as [e|text] eqn:Hw.
    + split; [done|]. intros (t & ts & Ht & _ & _)%Forall2_cons_inv_l. congruence.
    + destruct (row_texts fieldnames items) as [e|ts] eqn:Hr.
      * split; [done|]. intros (t & ts & _ & Hts & _)%Forall2_cons_inv_l.
        by apply IH in Hts.
      * split.
        -- intros [= <-]. constructor; [done|]. by apply IH.
        -- intros (t & ts' & Ht & Hts & ->)%Forall2_cons_inv_l.
           apply IH in Hts. congruence.
Qed.

(** The loop of lines 105-107 appends, in order, the rows of the records
    that pass the test of line 106, which looks at the rows read at the
    start only; it stops at the first row the writer refuses. *)
Lemma csv_loop_spec existing fieldnames path data : ∀ fs c,
  fs !! path = Some c →
  match row_texts fieldnames (filter (csv_fresh existing) data) with
  | inr texts =>
      csv_loop existing false fieldnames path data fs
      = (inr (), <[path := c +:+ concat texts]> fs, IoWrite path <$> texts)
  | inl e =>
      ∃ fs' tr, csv_loop existing false fieldnames path data fs = (inl e, fs', tr)
  end.
Proof.
  induction data as [|item data IH]; intros fs c Hc.
  - cbn. by rewrite str_app_nil_r, insert_id.
  - cbn [csv_loop]. rewrite orb_false_l, filter_cons.
    destruct (decide (csv_fresh existing item)) as [Hfresh|Hfresh].
    + unfold csv_fresh in Hfresh. rewrite Hfresh. cbn [negb row_texts].
      destruct (writerow fieldnames item) as [e|text]; [by eexists _, _|].
      specialize (IH (write fs path text) (c +:+ text)).
      rewrite (write_existing _ _ _ _ Hc), lookup_insert_eq in IH.
      specialize (IH eq_refl).
      rewrite (write_existing _ _ _ _ Hc).
      destruct (row_texts fieldnames (filter (csv_fresh existing) data)) as [e|texts].
      * destruct IH as (fs' & tr & ->). by eexists _, _.
      * rewrite IH, insert_insert_eq. cbn. by rewrite str_app_assoc.
    + unfold csv_fresh in Hfresh. apply not_false_is_true in Hfresh.
      rewrite Hfresh. cbn [negb]. by apply IH.
Qed.

Lemma append_csv_existing first_dict rest path fmt fs F existing :
  resolve_format path fmt = "csv" →
  fs !! path = Some F →
  Csv.dict_read (Text.readlines F) = Some existing →
  append_to_file (JObj first_dict :: rest) path fmt false false fs
  = let '(res, fs', tr) :=
      csv_loop existing false (dict_keys first_dict) path
        (JObj first_dict :: rest) fs in
    (res, fs',
     [IoExists path; IoOpen path "r"; IoRead path; IoOpen path "a"; IoExists path]
     ++ tr).
Proof.
  intros Hfmt HF Hread.
  assert (exists_file fs path = true) as Hex
    by (unfold exists_file; rewrite HF; by apply bool_decide_eq_true_2).
  assert (open_for_writing fs path false = fs) as Hopen
    by (unfold open_for_writing; by rewrite HF).
  unfold append_to_file. rewrite Hfmt.
  rewrite decide_False, decide_True by done.
  rewrite Hopen, !Hex, HF. cbn [negb andb orb from_option id].
  rewrite Hread.
  by destruct (csv_loop existing false (dict_keys first_dict) path
                 (JObj first_dict :: rest) fs) as [[res fs'] tr].
Qed.

Lemma dict_read_records t hdr rws :
  records t = Some (hdr :: rws) →
  csv_rows t = Csv.dict_row hdr <$> filter (λ row, row ≠ []) rws.
Proof.
  intros Hr. unfold csv_rows, Csv.dict_read. by rewrite (records_read _ _ Hr).
Qed.

Lemma dict_get_elem {K V : Type} `{EqDecision K} (k : K) (d : list (K * V)) v :
  dict_get k d = Some v → (k, v) ∈ d.
Proof.
  induction d as [|[k' v'] d IH]; [done|]. cbn.
  destruct (decide (k' = k)) as [->|].
  - intros [= ->]. left.
  - intros H. right. by apply IH.
Qed.

(** The cells printed for a record whose values fit all fit. *)
Lemma record_cells_fit fieldnames rowdict :
  record_fits (JObj rowdict) →
  Forall cell_fits
    ((λ k, from_option Csv.cell_text "" (dict_get k rowdict)) <$> fieldnames).
Proof.
  cbn [record_fits]. intros Hfit. apply Forall_fmap, Forall_forall. intros k _. cbn.
  destruct (dict_get k rowdict) as [v|] eqn:Hget; [|apply cell_fits_nil].
  apply dict_get_elem in Hget. rewrite Forall_forall in Hfit.
  exact (Hfit _ Hget).
Qed.

Lemma writerow_records fieldnames item text :
  writerow fieldnames item = inr text → record_fits item →
  ∃ rs, records text = Some rs.
Proof.
  unfold writerow, Csv.dict_write. intros H Hfit.
  repeat case_match; simplify_eq.
  eexists. apply records_write_row. by apply record_cells_fit.
Qed.

Lemma records_concat texts :
  Forall (λ t, is_Some (records t)) texts →
  records (concat texts) = Some (mjoin ((λ t, default [] (records t)) <$> texts)).
Proof.
  induction 1 as [|t texts [rs Hrs] _ IH]; [done|].
  cbn [concat fmap list_fmap mjoin list_join]. rewrite Hrs. cbn [default].
  by apply records_app.
Qed.

Lemma row_texts_records fieldnames items texts :
  row_texts fieldnames items = inr texts →
  Forall record_fits items →
  Forall (λ t, is_Some (records t)) texts.
Proof.
  rewrite row_texts_spec.
  induction 1 as [|item t items texts Hw _ IH]; intros Hfits; [constructor|].
  apply Forall_cons in Hfits as [Hfit Hfits]. constructor; [|by apply IH].
  destruct (writerow_records _ _ _ Hw Hfit) as [rs Hrs]. by exists rs.
Qed.

Lemma csv_rows_appended F hdr rws texts :
  records F = Some (hdr :: rws) →
  Forall (λ t, is_Some (records t)) texts →
  records (F +:+ concat texts)
  = Some (hdr :: rws ++ mjoin ((λ t, default [] (records t)) <$> texts))
  ∧ csv_rows (F +:+ concat texts) = csv_rows F ++ gained hdr texts.
Proof.
  intros HF Htexts.
  pose proof (records_app _ _ _ _ HF (records_concat _ Htexts)) as Happ.
  rewrite <- app_comm_cons in Happ.
  split; [exact Happ|].
  rewrite (dict_read_records _ _ _ Happ), (dict_read_records _ _ _ HF).
  unfold gained. by rewrite filter_app, fmap_app.
Qed.

Lemma gained_mono hdr texts1 texts2 :
  texts2 ⊆ texts1 → gained hdr texts2 ⊆ gained hdr texts1.
Proof.
  intros Hsub row. unfold gained.
  rewrite !list_elem_of_fmap. intros (cells & -> & Hin). exists cells. split; [done|].
  apply list_elem_of_filter in Hin as [Hne Hin]. apply list_elem_of_filter.
  split; [done|].
  apply list_elem_of_join in Hin as (rs & Hcells & Hrs).
  apply list_elem_of_join. exists rs. split; [done|].
  apply list_elem_of_fmap in Hrs as (t & -> & Ht).
  apply list_elem_of_fmap. exists t. split; [done|]. by apply Hsub.
Qed.

Lemma csv_fresh_app existing more item :
  csv_fresh (existing ++ more) item → csv_fresh existing item.
Proof.
  unfold csv_fresh. rewrite existsb_app. by intros [H _]%orb_false_iff.
Qed.

(** Rows of a sub-collection of records that all print. *)
Lemma row_texts_subset fieldnames items texts items' :
  row_texts fieldnames items = inr texts →
  items' ⊆ items →
  ∃ texts', row_texts fieldnames items' = inr texts' ∧ texts' ⊆ texts.
Proof.
  rewrite row_texts_spec. intros Hall.
  induction items' as [|item items' IH]; intros Hsub.
  - exists []. split; [done|]. by intros x Hx%elem_of_nil.
  - destruct IH as (texts' & Hrt & Hsubt).
    { intros x Hx. apply Hsub. by right. }
    assert (item ∈ items) as Hin by (apply Hsub; left).
    apply list_elem_of_lookup in Hin as [i Hi].
    destruct (Forall2_lookup_l _ _ _ _ _ Hall Hi) as (text & Htext & Hw).
    exists (text :: texts'). split.
    + cbn. by rewrite Hw, Hrt.
    + intros x [->|Hx]%elem_of_cons; [by eapply list_elem_of_lookup_2|by apply Hsubt].
Qed.

End CsvMode.

Section CsvIdempotence.
Import Py Text_spec Csv_spec.

Lemma with_header_records F :
  with_header F = true → ∃ hdr rws, records F = Some (hdr :: rws).
Proof.
  unfold with_header. destruct (records F) as [[|hdr rws]|]; [done| |done].
  intros _. by exists hdr, rws.
Qed.

Lemma records_dict_read F hdr rws :
  records F = Some (hdr :: rws) →
  Csv.dict_read (Text.readlines F) = Some (csv_rows F).
Proof.
  intros Hr. unfold csv_rows, Csv.dict_read. by rewrite (records_read _ _ Hr).
Qed.

Lemma writes_prefix path tr :
  writes path ([IoExists path; IoOpen path "r"; IoRead path; IoOpen path "a";
                IoExists path] ++ tr)
  = writes path tr.
Proof. done. Qed.

(** One call in csv mode on a file of whole records with a header. *)
Lemma append_csv_records first_dict rest path fmt fs F hdr rws :
  resolve_format path fmt = "csv" →
  fs !! path = Some F →
  records F = Some (hdr :: rws) →
  match
    row_texts (dict_keys first_dict)
      (filter (csv_fresh (csv_rows F)) (JObj first_dict :: rest))
  with
  | inr texts =>
      ∃ tr,
        append_to_file (JObj first_dict :: rest) path fmt false false fs
        = (inr (), <[path := F +:+ concat texts]> fs, tr)
        ∧ writes path tr = texts
  | inl e =>
      ∃ fs' tr,
        append_to_file (JObj first_dict :: rest) path fmt false false fs
        = (inl e, fs', tr)
  end.
Proof.
  intros Hfmt HF Hrec.
  rewrite (append_csv_existing _ _ _ _ _ _ _ Hfmt HF (records_dict_read _ _ _ Hrec)).
  pose proof (csv_loop_spec (csv_rows F) (dict_keys first_dict) path
                (JObj first_dict :: rest) fs F HF) as Hloop.
  destruct (row_texts (dict_keys first_dict)
              (filter (csv_fresh (csv_rows F)) (JObj first_dict :: rest)))
    as [e|texts].
  - destruct Hloop as (fs' & tr & ->). by eexists _, _.
  - rewrite Hloop. eexists. split; [done|].
    by rewrite writes_prefix, writes_of_texts.
Qed.

End CsvIdempotence.

(** ** The claims on the csv mode *)

(** C7, as stated, fails on the code in two ways.  A file whose last
    line has no line ending: the first append joins its row to that
    line, the second append then adds a row the file did not have.  And
    a first call that the writer aborts (a record with a field the first
    record lacks): the second call, which skips that record as a
    duplicate of a row read back, goes on to add a row the file did not
    have. *)
Lemma csv_second_append_adds_rows :
  (let data := [JObj [("a", JStr "2")]] in
   let fs : files := {[ "out.csv" := "a" +:+ String Py.CR (Py.chr Py.LF) +:+ "1" ]} in
   let call1 := append_to_file data "out.csv" None false false fs in
   let call2 := append_to_file data "out.csv" None false false call1.1.2 in
   call1.1.1 = inr () ∧
   call2.1.1 = inr () ∧
   Csv_spec.csv_rows (content_of call1.1.2 "out.csv") = [[(Some "a", JStr "12")]] ∧
   Csv_spec.csv_rows (content_of call2.1.2 "out.csv")
   = [[(Some "a", JStr "12")]; [(Some "a", JStr "2")]] ∧
   ¬ (Csv_spec.csv_rows (content_of call2.1.2 "out.csv")
      ⊆ Csv_spec.csv_rows (content_of call1.1.2 "out.csv")))
  ∧
  (let data := [JObj [("a", JStr "1")];
                JObj [("a", JStr "1"); ("b", JNull)];
                JObj [("a", JStr "2")]] in
   let fs : files := {[ "out.csv" := "a,b" +:+ String Py.CR (Py.chr Py.LF) ]} in
   let call1 := append_to_file data "out.csv" None false false fs in
   let call2 := append_to_file data "out.csv" None false false call1.1.2 in
   call1.1.1 = inl (ExtraFields ["b"]) ∧
   call2.1.1 = inr () ∧
   Csv_spec.csv_rows (content_of call1.1.2 "out.csv")
   = [[(Some "a", JStr "1"); (Some "b", JNull)]] ∧
   Csv_spec.csv_rows (content_of call2.1.2 "out.csv")
   = [[(Some "a", JStr "1"); (Some "b", JNull)];
      [(Some "a", JStr "1"); (Some "b", JNull)];
      [(Some "a", JStr "2"); (Some "b", JNull)]] ∧
   ¬ (Csv_spec.csv_rows (content_of call2.1.2 "out.csv")
      ⊆ Csv_spec.csv_rows (content_of call1.1.2 "out.csv"))).
Proof.
  split; intros data fs call1 call2.
  - assert (Csv_spec.csv_rows (content_of call1.1.2 "out.csv")
            = [[(Some "a", JStr "12")]]) as H1 by by vm_compute.
    assert (Csv_spec.csv_rows (content_of call2.1.2 "out.csv")
            = [[(Some "a", JStr "12")]; [(Some "a", JStr "2")]]) as H2
      by by vm_compute.
    split_and!; [by vm_compute|by vm_compute|done|done|].
    rewrite H1, H2. intros Hsub.
    specialize (Hsub [(Some "a", JStr "2")]).
    rewrite !elem_of_cons, elem_of_nil in Hsub.
    by destruct Hsub as [[=]|[]]; [right; left|..].
  - assert (Csv_spec.csv_rows (content_of call1.1.2 "out.csv")
            = [[(Some "a", JStr "1"); (Some "b", JNull)]]) as H1 by by vm_compute.
    assert (Csv_spec.csv_rows (content_of call2.1.2 "out.csv")
            = [[(Some "a", JStr "1"); (Some "b", JNull)];
               [(Some "a", JStr "1"); (Some "b", JNull)];
               [(Some "a", JStr "2"); (Some "b", JNull)]]) as H2 by by vm_compute.
    split_and!; [by vm_compute|by vm_compute|done|done|].
    rewrite H1, H2. intros Hsub.
    specialize (Hsub [(Some "a", JStr "2"); (Some "b", JNull)]).
    rewrite !elem_of_cons, elem_of_nil in Hsub.
    by destruct Hsub as [[=]|[]]; [right; right; left|..].
Qed.

(** C7, amended.  For a destination that exists, has a header and ends
    at the end of a record, in csv mode without [overwrite] and without
    [allow_duplicates], and for records that begin with a dict and whose
    values print as cells within the reader's field size limit (131072
    characters): when the first call returns normally, the second call
    with the same records returns normally as well and the rows read
    back from the file after it are, as a set, the rows read back after
    the first call.  In either call the rows written are, in order, those
    of the records for which no row read back at the start of that call
    is equal to the record. *)
Theorem csv_append_idempotent first_dict rest file_path file_format fs F fs1 tr1 :
  let data := JObj first_dict :: rest in
  resolve_format file_path file_format = "csv" →
  fs !! file_path = Some F →
  Csv_spec.with_header F = true →
  Forall record_fits data →
  append_to_file data file_path file_format false false fs = (inr (), fs1, tr1) →
  ∃ fs2 tr2,
    append_to_file data file_path file_format false false fs1 = (inr (), fs2, tr2) ∧
    Csv_spec.csv_rows (content_of fs2 file_path)
    ⊆ Csv_spec.csv_rows (content_of fs1 file_path) ∧
    Csv_spec.csv_rows (content_of fs1 file_path)
    ⊆ Csv_spec.csv_rows (content_of fs2 file_path) ∧
    Csv_spec.row_texts (dict_keys first_dict)
      (filter (Csv_spec.csv_fresh (Csv_spec.csv_rows F)) data)
    = inr (writes file_path tr1) ∧
    Csv_spec.row_texts (dict_keys first_dict)
      (filter (Csv_spec.csv_fresh (Csv_spec.csv_rows (content_of fs1 file_path))) data)
    = inr (writes file_path tr2).
Proof.
  intros data Hfmt HF (hdr & rws & Hrec)%with_header_records Hfits Hcall1.
  assert (∀ existing, Forall record_fits (filter (Csv_spec.csv_fresh existing) data))
    as Hkept.
  { intros existing. apply Forall_forall. intros x [_ Hx]%list_elem_of_filter.
    rewrite Forall_forall in Hfits. by apply Hfits. }
  pose proof (append_csv_records first_dict rest _ _ _ _ _ _ Hfmt HF Hrec) as H1.
  fold data in H1.
  destruct (Csv_spec.row_texts (dict_keys first_dict)
              (filter (Csv_spec.csv_fresh (Csv_spec.csv_rows F)) data))
    as [e|texts1] eqn:Htexts1.
  { destruct H1 as (fs' & tr & H1). congruence. }
  destruct H1 as (tr & H1 & Hw1). rewrite H1 in Hcall1.
  injection Hcall1 as <- <-.
  pose proof (row_texts_records _ _ _ Htexts1 (Hkept _)) as Hrecs1.
  destruct (csv_rows_appended _ _ _ _ Hrec Hrecs1) as [Hrec1 Hrows1].
  assert (content_of (<[file_path := F +:+ Py.concat texts1]> fs) file_path
          = F +:+ Py.concat texts1) as Hc1
    by (unfold content_of; by rewrite lookup_insert_eq).
  rewrite Hc1.
  destruct (row_texts_subset _ _ _
              (filter (Csv_spec.csv_fresh (Csv_spec.csv_rows (F +:+ Py.concat texts1))) data)
              Htexts1) as (texts2 & Htexts2 & Hsub).
  { intros item [Hfresh Hin]%list_elem_of_filter. apply list_elem_of_filter.
    split; [|done]. rewrite Hrows1 in Hfresh. by eapply csv_fresh_app. }
  pose proof (append_csv_records first_dict rest file_path file_format
                (<[file_path := F +:+ Py.concat texts1]> fs) _ _ _ Hfmt
                (lookup_insert_eq _ _ _) Hrec1) as H2.
  fold data in H2. rewrite Htexts2 in H2. destruct H2 as (tr2 & H2 & Hw2).
  eexists _, tr2. split; [exact H2|].
  pose proof (row_texts_records _ _ _ Htexts2 (Hkept _)) as Hrecs2.
  destruct (csv_rows_appended _ _ _ _ Hrec1 Hrecs2) as [_ Hrows2].
  assert (content_of
            (<[file_path := (F +:+ Py.concat texts1) +:+ Py.concat texts2]>
               (<[file_path := F +:+ Py.concat texts1]> fs)) file_path
          = (F +:+ Py.concat texts1) +:+ Py.concat texts2) as ->
    by (unfold content_of; by rewrite lookup_insert_eq).
  rewrite Hw1, Hw2. split_and!; [| |done|done].
  - rewrite Hrows2. intros row [Hrow|Hrow]%elem_of_app; [done|].
    rewrite Hrows1. apply elem_of_app. right. by eapply gained_mono.
  - rewrite Hrows2. intros row Hrow. apply elem_of_app. by left.
Qed.

Lemma csv_append_idempotent_witness :
  let first_dict := [("a", JStr "1"); ("b", JStr "x")] in
  let rest := [JObj [("a", JStr "2"); ("b", JStr "y")];
               JObj [("b", JNull); ("a", JInt 3)]] in
  let F := "a,b" +:+ String Py.CR (Py.chr Py.LF)
           +:+ "1,x" +:+ String Py.CR (Py.chr Py.LF) in
  let fs : files := {[ "out.csv" := F ]} in
  let call1 := append_to_file (JObj first_dict :: rest) "out.csv" None false false fs in
  ∃ fs2 tr2,
    append_to_file (JObj first_dict :: rest) "out.csv" None false false call1.1.2
    = (inr (), fs2, tr2) ∧
    Csv_spec.csv_rows (content_of fs2 "out.csv")
    ⊆ Csv_spec.csv_rows (content_of call1.1.2 "out.csv") ∧
    Csv_spec.csv_rows (content_of call1.1.2 "out.csv")
    ⊆ Csv_spec.csv_rows (content_of fs2 "out.csv") ∧
    Csv_spec.row_texts (dict_keys first_dict)
      (filter (Csv_spec.csv_fresh (Csv_spec.csv_rows F)) (JObj first_dict :: rest))
    = inr (writes "out.csv" call1.2) ∧
    Csv_spec.row_texts (dict_keys first_dict)
      (filter (Csv_spec.csv_fresh
                 (Csv_spec.csv_rows (content_of call1.1.2 "out.csv")))
         (JObj first_dict :: rest))
    = inr (writes "out.csv" tr2).
Proof.
  intros first_dict rest F fs call1.
  apply (csv_append_idempotent first_dict rest "out.csv" None fs F
           call1.1.2 call1.2); [by vm_compute..| |by vm_compute].
  repeat first [apply Forall_nil_2 | apply Forall_cons_2];
    cbn [record_fits]; repeat first [apply Forall_nil_2 | apply Forall_cons_2];
    unfold cell_fits; by vm_compute.
Defined.

(** ** Duplicates inside one call *)

Section SameCall.
Import Py Text_spec Csv_spec.

Lemma open_for_writing_lookup fs path overwrite :
  open_for_writing fs path overwrite !! path
  = Some (if overwrite then "" else content_of fs path).
Proof.
  unfold open_for_writing, content_of. destruct overwrite; [apply lookup_insert_eq|].
  destruct (fs !! path) as [c|] eqn:Hp; [by rewrite Hp|apply lookup_insert_eq].
Qed.

Lemma writes_none path tr :
  Forall (λ e, match e with IoWrite _ _ => False | _ => True end) tr →
  writes path tr = [].
Proof.
  induction 1 as [|e tr He _ IH]; [done|]. destruct e; try done.
Qed.

Lemma writes_same path text tr :
  writes path (IoWrite path text :: tr) = text :: writes path tr.
Proof. cbn. by rewrite decide_True. Qed.

Lemma writes_other path e tr :
  match e with IoWrite _ _ => False | _ => True end →
  writes path (e :: tr) = writes path tr.
Proof. by destruct e. Qed.

(** A call in jsonl mode without [allow_duplicates] returns normally and
    writes the lines of the records that are fresh for what it read at
    its start. *)
Lemma append_jsonl_spec data path fmt overwrite fs :
  resolve_format path fmt = "jsonl" →
  ∃ fs' tr,
    append_to_file data path fmt overwrite false fs = (inr (), fs', tr) ∧
    writes path tr
    = jsonl_line <$> filter (jsonl_fresh (start_lines overwrite fs path)) data.
Proof.
  intros Hfmt. unfold append_to_file. rewrite Hfmt, decide_True by done.
  fold (content_of fs path). fold (line_set (content_of fs path)).
  fold (start_lines overwrite fs path).
  rewrite (jsonl_loop_spec _ _ _ _ _ (open_for_writing_lookup fs path overwrite)).
  eexists _, _. split; [done|].
  rewrite writes_app.
  rewrite (writes_none path); [|by destruct overwrite, (exists_file fs path);
                                   repeat constructor].
  change (writes path (IoOpen path (mode_of overwrite) :: ?t)) with (writes path t).
  by rewrite writes_of_texts.
Qed.

(** A call in csv mode without [allow_duplicates] that returns normally
    has written the header when [overwrite] is set, and then the rows of
    the records that are fresh for what it read at its start. *)
Lemma append_csv_spec first_dict rest path fmt overwrite fs fs' tr :
  resolve_format path fmt = "csv" →
  append_to_file (JObj first_dict :: rest) path fmt overwrite false fs
  = (inr (), fs', tr) →
  ∃ texts,
    row_texts (dict_keys first_dict)
      (filter (csv_fresh (start_rows overwrite fs path)) (JObj first_dict :: rest))
    = inr texts ∧
    writes path tr
    = (if overwrite then [Csv.write_row (dict_keys first_dict)] else []) ++ texts.
Proof.
  intros Hfmt. unfold append_to_file. rewrite Hfmt.
  rewrite decide_False, decide_True by done.
  rewrite header_condition. fold (content_of fs path).
  destruct (if negb overwrite && exists_file fs path
            then Csv.dict_read (Text.readlines (content_of fs path))
            else Some []) as [existing|] eqn:Hread; [|done].
  assert (existing = start_rows overwrite fs path) as ->.
  { unfold start_rows, csv_rows.
    destruct (negb overwrite && exists_file fs path); [by rewrite Hread|congruence]. }
  set (fs1 := open_for_writing fs path overwrite).
  set (fs2 := if overwrite
              then write fs1 path (Csv.write_row (dict_keys first_dict)) else fs1).
  assert (∃ c, fs2 !! path = Some c) as [c Hc].
  { unfold fs2, fs1. destruct overwrite.
    - eexists. unfold write. apply lookup_insert_eq.
    - eexists. apply open_for_writing_lookup. }
  pose proof (csv_loop_spec (start_rows overwrite fs path) (dict_keys first_dict)
                path (JObj first_dict :: rest) fs2 c Hc) as Hloop.
  destruct (row_texts (dict_keys first_dict)
              (filter (csv_fresh (start_rows overwrite fs path))
                 (JObj first_dict :: rest))) as [e|texts].
  - destruct Hloop as (fs'' & tr'' & ->). done.
  - rewrite Hloop. intros [= <- <-]. exists texts. split; [done|].
    destruct overwrite, (exists_file fs path); cbn [negb andb orb app mode_of];
      rewrite ?writes_other, ?writes_same, writes_of_texts by done; done.
Qed.

Lemma row_texts_app fieldnames items1 items2 texts :
  row_texts fieldnames (items1 ++ items2) = inr texts →
  ∃ texts1 texts2,
    row_texts fieldnames items1 = inr texts1 ∧
    row_texts fieldnames items2 = inr texts2 ∧
    texts = texts1 ++ texts2.
Proof.
  rewrite row_texts_spec. intros (t1 & t2 & H1 & H2 & ->)%Forall2_app_inv_l.
  exists t1, t2. by rewrite !row_texts_spec.
Qed.

End SameCall.

(** * Further properties of the fetcher *)

Section FetcherResume.
Context {Srv Srv' : Type}.
Variable http_get : Srv → pydict → string → json * Srv.
Variable http_get' : Srv' → pydict → string → json * Srv'.

Lemma trace_starts_with_nothing (x : outcome * world (Srv:=Srv') * list event) :
  ∃ o w rest, x = (o, w, (EvYield <$> []) ++ rest).
Proof. destruct x as [[o w] tr]. by exists o, w, tr. Qed.

(** X1.  However a walk ended (normally, by an exception or cut short),
    a later walk from a cache that holds at least what the first one
    left, with any token and against any service, begins by yielding
    again every record the first walk yielded, in the same order, before
    it does anything else: it reaches the network only after them. *)
Theorem interrupted_walk_resumes fuel token cur w o w1 tr :
  fetch_loop http_get fuel token cur w = (o, w1, tr) →
  ∀ fuel' token' c' srv',
    (fuel ≤ fuel')%nat →
    cache w1 ⊆ c' →
    ∃ o' w2 rest,
      fetch_loop http_get' fuel' token' cur (World c' srv')
      = (o', w2, (EvYield <$> yielded tr) ++ rest).
Proof.
  revert cur w o w1 tr.
  induction fuel as [|fuel IH]; intros cur w o w1 tr Hrun fuel' token' c' srv' Hle Hsub.
  { injection Hrun as <- <- <-. apply trace_starts_with_nothing. }
  simpl in Hrun.
  destruct (acquire http_get token cur w) as [[a wa] evs] eqn:Ha.
  pose proof (acquire_yielded _ _ _ _ _ _ _ Ha) as Hy.
  destruct a as [r| |e].
  - pose proof (acquire_failed_or_cached _ _ _ _ _ _ _ Ha) as Hr.
    destruct (emit r) as [e|[ys next]] eqn:He.
    { injection Hrun as <- <- <-. rewrite Hy. apply trace_starts_with_nothing. }
    pose proof (emit_yields _ _ _ He) as Hys.
    destruct fuel' as [|fuel']; [lia|].
    destruct (truthy next) eqn:Hn.
    + destruct (fetch_loop http_get fuel token next wa) as [[o2 w2] tr2] eqn:Hl.
      injection Hrun as <- <- <-.
      assert (c' !! cache_key cur = Some r) as Hc'.
      { eapply lookup_weaken; [|exact Hsub].
        eapply lookup_weaken; [exact Hr|].
        eapply apply_stores_subseteq, fetch_loop_stores, Hl. }
      destruct (IH _ _ _ _ _ Hl fuel' token' c' srv' ltac:(lia) Hsub)
        as (o' & w3 & rest & Hnext).
      exists o', w3, rest. simpl.
      rewrite (acquire_hit http_get' token' cur (World c' srv') r Hc'), He, Hn, Hnext.
      rewrite !yielded_app, Hy. cbn [app].
      by rewrite fmap_app, <- Hys, app_assoc.
    + injection Hrun as <- <- <-.
      assert (c' !! cache_key cur = Some r) as Hc'.
      { eapply lookup_weaken; [exact Hr|exact Hsub]. }
      exists Done, (World c' srv'), []. simpl.
      rewrite (acquire_hit http_get' token' cur (World c' srv') r Hc'), He, Hn.
      rewrite yielded_app, Hy. cbn [app]. by rewrite <- Hys, app_nil_r.
  - destruct (fetch_loop http_get fuel token cur wa) as [[o2 w2] tr2] eqn:Hl.
    injection Hrun as <- <- <-.
    rewrite yielded_app, Hy, app_nil_l.
    eapply IH; [exact Hl|lia|exact Hsub].
  - injection Hrun as <- <- <-. rewrite Hy. apply trace_starts_with_nothing.
Qed.

End FetcherResume.

Lemma interrupted_walk_resumes_witness :
  let first := fetch_all_documents three_pages 2 "token" (World ∅ tt) in
  first.1.1 = OutOfFuel ∧
  ∃ o' w2 rest,
    fetch_loop (throttle_forever "5") 4 "other" JNull (World (cache first.1.2) 0%nat)
    = (o', w2, (EvYield <$> yielded first.2) ++ rest).
Proof.
  intros first. split; [reflexivity|].
  apply (interrupted_walk_resumes three_pages (throttle_forever "5")
           2 "token" JNull (World ∅ tt) first.1.1 first.1.2 first.2);
    [reflexivity|lia|reflexivity].
Defined.

Section FetcherInvariants.
Context {Srv : Type}.
Variable http_get : Srv → pydict → string → json * Srv.

Lemma fetch_loop_cache_grows fuel token cur (w : world (Srv:=Srv)) o w1 tr :
  fetch_loop http_get fuel token cur w = (o, w1, tr) → cache w ⊆ cache w1.
Proof. intros H. eapply apply_stores_subseteq, fetch_loop_stores, H. Qed.

Lemma acquire_cache_grows token cur (w : world (Srv:=Srv)) a w1 evs :
  acquire http_get token cur w = (a, w1, evs) → cache w ⊆ cache w1.
Proof. intros H. eapply apply_stores_subseteq, acquire_stores, H. Qed.

(** X2.  Whatever a walk yields, it yields from a page that its cache
    holds when the walk ends: every yielded record is among the results
    of a body stored under the key of some cursor. *)
Theorem yielded_records_are_cached fuel token cur w o w1 tr x :
  fetch_loop http_get fuel token cur w = (o, w1, tr) →
  x ∈ yielded tr →
  ∃ cur' r ys next,
    cache w1 !! cache_key cur' = Some r ∧
    emit r = inr (ys, next) ∧
    x ∈ yielded ys.
Proof.
  revert cur w o w1 tr.
  induction fuel as [|fuel IH]; intros cur w o w1 tr Hrun Hx.
  { injection Hrun as <- <- <-. by apply elem_of_nil in Hx. }
  simpl in Hrun.
  destruct (acquire http_get token cur w) as [[a wa] evs] eqn:Ha.
  pose proof (acquire_yielded _ _ _ _ _ _ _ Ha) as Hy.
  destruct a as [r| |e].
  - pose proof (acquire_failed_or_cached _ _ _ _ _ _ _ Ha) as Hr.
    destruct (emit r) as [e|[ys next]] eqn:He.
    { injection Hrun as <- <- <-. rewrite Hy in Hx. by apply elem_of_nil in Hx. }
    destruct (truthy next).
    + destruct (fetch_loop http_get fuel token next wa) as [[o2 w2] tr2] eqn:Hl.
      injection Hrun as <- <- <-.
      rewrite !yielded_app, Hy in Hx. cbn [app] in Hx.
      apply elem_of_app in Hx as [Hx|Hx]; [|by eapply IH].
      exists cur, r, ys, next. split_and!; [|done|done].
      eapply lookup_weaken; [exact Hr|]. by eapply fetch_loop_cache_grows.
    + injection Hrun as <- <- <-.
      rewrite yielded_app, Hy in Hx. cbn [app] in Hx.
      by exists cur, r, ys, next.
  - destruct (fetch_loop http_get fuel token cur wa) as [[o2 w2] tr2] eqn:Hl.
    injection Hrun as <- <- <-.
    rewrite yielded_app, Hy in Hx. by eapply IH.
  - injection Hrun as <- <- <-. rewrite Hy in Hx. by apply elem_of_nil in Hx.
Qed.

Lemma no_results_requests r a evs :
  no_results r = (a, evs) → network_calls evs = [].
Proof.
  unfold no_results, throttle. intros H.
  repeat case_match; simplify_eq; done.
Qed.

Lemma acquire_requests token cur (w : world (Srv:=Srv)) a w1 evs p :
  acquire http_get token cur w = (a, w1, evs) →
  p ∈ network_calls evs →
  p = params_of cur ∧ cache w !! cache_key cur = None.
Proof.
  unfold acquire. destruct (cache w !! cache_key cur) as [r0|] eqn:Hk.
  - intros [= <- <- <-] Hp. by apply elem_of_nil in Hp.
  - destruct (http_get (server w) (params_of cur) token) as [r1 srv'].
    destruct (py_in "results" r1) as [e|[]].
    + intros [= <- <- <-] Hp. split; [|done].
      change (p ∈ [params_of cur]) in Hp. by apply list_elem_of_singleton in Hp.
    + intros [= <- <- <-] Hp. split; [|done].
      change (p ∈ [params_of cur]) in Hp. by apply list_elem_of_singleton in Hp.
    + destruct (no_results r1) as [a' evs'] eqn:Hn. intros [= <- <- <-] Hp.
      split; [|done].
      change (p ∈ params_of cur :: network_calls evs') in Hp.
      rewrite (no_results_requests _ _ _ Hn) in Hp.
      by apply list_elem_of_singleton in Hp.
Qed.

(** X3.  The fetcher never asks the service for a page it holds: every
    request of a walk carries the parameters of a cursor whose key was
    absent from the cache the walk started with. *)
Theorem cached_pages_are_not_requested fuel token cur w o w1 tr p :
  fetch_loop http_get fuel token cur w = (o, w1, tr) →
  p ∈ network_calls tr →
  ∃ cur', p = params_of cur' ∧ cache w !! cache_key cur' = None.
Proof.
  revert cur w o w1 tr.
  induction fuel as [|fuel IH]; intros cur w o w1 tr Hrun Hp.
  { injection Hrun as <- <- <-. by apply elem_of_nil in Hp. }
  simpl in Hrun.
  destruct (acquire http_get token cur w) as [[a wa] evs] eqn:Ha.
  pose proof (acquire_cache_grows _ _ _ _ _ _ Ha) as Hsub.
  assert (∀ tr2 o2 w2 cur2,
            fetch_loop http_get fuel token cur2 wa = (o2, w2, tr2) →
            p ∈ network_calls tr2 →
            ∃ cur', p = params_of cur' ∧ cache w !! cache_key cur' = None) as Hlater.
  { intros tr2 o2 w2 cur2 Hl Hp2.
    destruct (IH _ _ _ _ _ Hl Hp2) as (cur' & -> & Hnone).
    exists cur'. split; [done|].
    destruct (cache w !! cache_key cur') as [r'|] eqn:Hk; [|done].
    eapply lookup_weaken in Hk; [|exact Hsub]. congruence. }
  assert (p ∈ network_calls evs →
          ∃ cur', p = params_of cur' ∧ cache w !! cache_key cur' = None) as Hnow.
  { intros Hp1. exists cur. by eapply acquire_requests. }
  destruct a as [r| |e].
  - destruct (emit r) as [e|[ys next]] eqn:He.
    { injection Hrun as <- <- <-. by apply Hnow. }
    pose proof (emit_yields _ _ _ He) as Hys.
    destruct (truthy next).
    + destruct (fetch_loop http_get fuel token next wa) as [[o2 w2] tr2] eqn:Hl.
      injection Hrun as <- <- <-.
      rewrite !network_calls_app, Hys, network_calls_yields in Hp. cbn [app] in Hp.
      apply elem_of_app in Hp as [Hp|Hp]; [by apply Hnow|by eapply Hlater].
    + injection Hrun as <- <- <-.
      rewrite network_calls_app, Hys, network_calls_yields, app_nil_r in Hp.
      by apply Hnow.
  - destruct (fetch_loop http_get fuel token cur wa) as [[o2 w2] tr2] eqn:Hl.
    injection Hrun as <- <- <-.
    rewrite network_calls_app in Hp.
    apply elem_of_app in Hp as [Hp|Hp]; [by apply Hnow|by eapply Hlater].
  - injection Hrun as <- <- <-. by apply Hnow.
Qed.



End FetcherInvariants.

Lemma yielded_records_are_cached_witness :
  let run := fetch_all_documents three_pages 3 "token" (World ∅ tt) in
  ∃ cur' r ys next,
    cache run.1.2 !! cache_key cur' = Some r ∧
    emit r = inr (ys, next) ∧
    JInt 3 ∈ yielded ys.
Proof.
  intros run.
  apply (yielded_records_are_cached three_pages 3 "token" JNull (World ∅ tt)
           run.1.1 run.1.2 run.2 (JInt 3)); [reflexivity|].
  assert (yielded run.2 = [JInt 1; JInt 2; JInt 3; JInt 4]) as -> by reflexivity.
  do 2 right. left.
Defined.

Lemma cached_pages_are_not_requested_witness :
  let first := fetch_all_documents three_pages 1 "token" (World ∅ tt) in
  ∃ cur',
    [("pageCursor", JStr "c1")] = params_of cur' ∧
    cache first.1.2 !! cache_key cur' = None.
Proof.
  intros first.
  pose (again := fetch_all_documents three_pages 3 "token" (World (cache first.1.2) tt)).
  apply (cached_pages_are_not_requested three_pages 3 "token" JNull
           (World (cache first.1.2) tt) again.1.1 again.1.2 again.2
           [("pageCursor", JStr "c1")]); [reflexivity|].
  assert (network_calls again.2
          = [[("pageCursor", JStr "c1")]; [("pageCursor", JStr "c2")]]) as ->
    by reflexivity.
  left.
Defined.


(** ** The pattern of line 51 *)

Section Pattern.
Import Py.










End Pattern.


Section PoisonedCache.
Context {Srv Srv' : Type}.
Variable http_get : Srv → pydict → string → json * Srv.
Variable http_get' : Srv' → pydict → string → json * Srv'.

Lemma dict_get_has {K V : Type} `{EqDecision K} (k : K) (d : list (K * V)) v :
  dict_get k d = Some v → dict_has k d = true.
Proof. unfold dict_has. intros ->. by apply bool_decide_eq_true_2. Qed.

(** X7.  A body whose ["results"] cannot be iterated (a number, a
    boolean, [None]) is stored before the loop of line 60 raises on it.
    From then on every walk that reaches the same cursor with a cache
    holding that entry raises the same exception without asking the
    service, whatever the service would answer now. *)
Theorem uniterable_page_poisons_cache token cur w r srv1 v e fuel :
  cache w !! cache_key cur = None →
  http_get (server w) (params_of cur) token = (JObj r, srv1) →
  dict_get "results" r = Some v →
  py_iter v = inl e →
  fetch_loop http_get (S fuel) token cur w
  = (Raised e, World (<[cache_key cur := JObj r]> (cache w)) srv1,
     [EvGet (params_of cur) token; EvStore (cache_key cur) (JObj r)]) ∧
  ∀ fuel' token' c' srv',
    <[cache_key cur := JObj r]> (cache w) ⊆ c' →
    fetch_loop http_get' (S fuel') token' cur (World c' srv')
    = (Raised e, World c' srv', []).
Proof.
  intros Hk Hget Hres Hiter.
  assert (emit (JObj r) = inl e) as He by (unfold emit; by rewrite Hres, Hiter).
  split.
  - cbn [fetch_loop]. unfold acquire.
    rewrite Hk, Hget. cbn [py_in]. rewrite (dict_get_has _ _ _ Hres), He. done.
  - intros fuel' token' c' srv' Hsub.
    assert (c' !! cache_key cur = Some (JObj r)) as Hc'.
    { eapply lookup_weaken; [|exact Hsub]. apply lookup_insert_eq. }
    cbn [fetch_loop].
    by rewrite (acquire_hit http_get' token' cur (World c' srv') (JObj r) Hc'), He.
Qed.

End PoisonedCache.

Lemma uniterable_page_poisons_cache_witness :
  let r := [("results", JNull)] in
  fetch_loop (constant_service (JObj r)) 2 "token" JNull (World ∅ tt)
  = (Raised TypeError, World {[cache_key JNull := JObj r]} tt,
     [EvGet [] "token"; EvStore (cache_key JNull) (JObj r)]) ∧
  ∀ fuel' token' c' srv',
    {[cache_key JNull := JObj r]} ⊆ c' →
    fetch_loop three_pages (S fuel') token' JNull (World c' srv')
    = (Raised TypeError, World c' srv', []).
Proof.
  intros r.
  apply (uniterable_page_poisons_cache (constant_service (JObj r)) three_pages
           "token" JNull (World ∅ tt) r tt JNull TypeError 1); reflexivity.
Defined.

(** * Further properties of the exporter *)

Section ExporterLoops.
Import Py Text_spec Csv_spec.

(** With [allow_duplicates] the loops behave as without it against
    nothing read. *)
Lemma jsonl_loop_allow existing path data : ∀ fs,
  jsonl_loop existing true path data fs = jsonl_loop ∅ false path data fs.
Proof.
  induction data as [|item data IH]; intros fs; [done|].
  cbn [jsonl_loop]. rewrite orb_true_l, orb_false_l.
  rewrite bool_decide_eq_true_2 by set_solver. by rewrite IH.
Qed.

Lemma csv_loop_allow existing fieldnames path data : ∀ fs,
  csv_loop existing true fieldnames path data fs
  = csv_loop [] false fieldnames path data fs.
Proof.
  induction data as [|item data IH]; intros fs; [done|].
  cbn [csv_loop existsb negb orb].
  destruct (writerow fieldnames item); [done|]. by rewrite IH.
Qed.

Lemma open_for_writing_insert fs path overwrite :
  open_for_writing fs path overwrite
  = <[path := opened_content overwrite fs path]> fs.
Proof.
  unfold open_for_writing, opened_content, content_of. destruct overwrite; [done|].
  destruct (fs !! path) as [c|] eqn:Hp; [|done]. by rewrite insert_id.
Qed.

Lemma opened_content_lookup fs path overwrite :
  open_for_writing fs path overwrite !! path = Some (opened_content overwrite fs path).
Proof. apply open_for_writing_lookup. Qed.

Lemma start_lines_spec overwrite (fs : files) path :
  (if negb overwrite && exists_file fs path
   then list_to_set (strip <$> Text.readlines (default "" (fs !! path)))
   else ∅) = start_lines overwrite fs path.
Proof. done. Qed.

(** The jsonl mode in full: the call returns normally, and the file is
    what [open] left followed by the lines of the records that pass the
    test. *)
Lemma append_jsonl_content data path fmt overwrite allow_duplicates fs :
  resolve_format path fmt = "jsonl" →
  ∃ tr,
    append_to_file data path fmt overwrite allow_duplicates fs
    = (inr (),
       <[path := opened_content overwrite fs path
                 +:+ concat (jsonl_line
                             <$> filter (jsonl_fresh
                                           (tested_lines overwrite allow_duplicates fs path))
                                   data)]> fs,
       tr) ∧
    writes path tr
    = jsonl_line
      <$> filter (jsonl_fresh (tested_lines overwrite allow_duplicates fs path)) data.
Proof.
  intros Hfmt. unfold append_to_file. rewrite Hfmt, decide_True by done.
  rewrite start_lines_spec.
  assert (jsonl_loop (start_lines overwrite fs path) allow_duplicates path data
            (open_for_writing fs path overwrite)
          = jsonl_loop (tested_lines overwrite allow_duplicates fs path) false path data
              (open_for_writing fs path overwrite)) as ->.
  { unfold tested_lines. destruct allow_duplicates; [apply jsonl_loop_allow|done]. }
  rewrite (jsonl_loop_spec _ _ _ _ _ (opened_content_lookup fs path overwrite)).
  eexists. split.
  - by rewrite open_for_writing_insert, insert_insert_eq.
  - rewrite writes_app.
    rewrite (writes_none path); [|by destruct overwrite, (exists_file fs path);
                                     repeat constructor].
    change (writes path (IoOpen path (mode_of overwrite) :: ?t)) with (writes path t).
    by rewrite writes_of_texts.
Qed.

Lemma filter_all {A} (P : A → Prop) `{∀ x, Decision (P x)} (l : list A) :
  (∀ x, x ∈ l → P x) → filter P l = l.
Proof.
  induction l as [|x l IH]; intros Hl; [done|].
  rewrite filter_cons, decide_True; [|apply Hl; left].
  f_equal. apply IH. intros y Hy. apply Hl. by right.
Qed.

Lemma tested_lines_overwrite allow_duplicates fs path :
  tested_lines true allow_duplicates fs path = ∅.
Proof. by destruct allow_duplicates. Qed.

End ExporterLoops.

(** X8.  In jsonl mode every call returns normally, whatever the flags,
    on records that [json.dumps] accepts (no integer of more than 4300
    digits).  Afterwards the destination holds what it held before
    (nothing with [overwrite]) followed by one line per record that
    passed the test of line 87, in the order of the input: all the
    records with [allow_duplicates] or [overwrite], otherwise those whose
    trimmed serialization is not a trimmed line of the file as it was.
    No other file has changed. *)
Theorem jsonl_export_content data file_path file_format overwrite allow_duplicates fs :
  resolve_format file_path file_format = "jsonl" →
  Forall (λ item, within_digits item = true) data →
  let kept :=
    if allow_duplicates || overwrite then data
    else filter (jsonl_fresh (Text_spec.line_set (content_of fs file_path))) data in
  ∃ tr,
    append_to_file data file_path file_format overwrite allow_duplicates fs
    = (inr (),
       <[file_path := (if overwrite then "" else content_of fs file_path)
                      +:+ Py.concat (jsonl_line <$> kept)]> fs,
       tr) ∧
    writes file_path tr = jsonl_line <$> kept.
Proof.
  intros Hfmt _ kept.
  destruct (append_jsonl_content data file_path file_format overwrite
              allow_duplicates fs Hfmt) as (tr & Hcall & Hw).
  assert (filter (jsonl_fresh (tested_lines overwrite allow_duplicates fs file_path)) data
          = kept) as Hkept.
  { unfold kept, tested_lines, start_lines.
    destruct allow_duplicates; [apply filter_all; intros x _; unfold jsonl_fresh; set_solver|].
    destruct overwrite; [apply filter_all; intros x _; unfold jsonl_fresh; set_solver|].
    cbn [negb andb orb]. destruct (exists_file fs file_path) eqn:Hex; [done|].
    unfold exists_file in Hex. apply bool_decide_eq_false in Hex.
    assert (fs !! file_path = None) as Hnone
      by (destruct (fs !! file_path); [by destruct Hex|done]).
    unfold content_of. rewrite Hnone. done. }
  rewrite Hkept in Hcall, Hw. by exists tr.
Qed.

Lemma jsonl_export_content_witness :
  let fs : files := {[ "out.jsonl" := "1" +:+ Py.chr Py.LF; "other" := "x" ]} in
  ∃ tr,
    append_to_file [JInt 1; JInt 2; JInt 2] "out.jsonl" None false false fs
    = (inr (),
       <[ "out.jsonl" := "1" +:+ Py.chr Py.LF +:+ "2" +:+ Py.chr Py.LF
                         +:+ "2" +:+ Py.chr Py.LF ]> fs,
       tr) ∧
    writes "out.jsonl" tr = ["2" +:+ Py.chr Py.LF; "2" +:+ Py.chr Py.LF].
Proof.
  intros fs.
  apply (jsonl_export_content [JInt 1; JInt 2; JInt 2] "out.jsonl" None false false fs).
  - reflexivity.
  - repeat first [apply Forall_nil_2 | apply Forall_cons_2]; reflexivity.
Defined.

(** X9.  With [overwrite], a jsonl call on records that [json.dumps]
    accepts (no integer of more than 4300 digits) leaves a file whose
    lines, read back, are the lines of the records, one per record and
    in the order of the input, whatever the file held and whether or not
    duplicates are allowed: no serialization spans lines and nothing is
    dropped. *)
Theorem jsonl_overwrite_lines data file_path file_format allow_duplicates fs :
  resolve_format file_path file_format = "jsonl" →
  Forall (λ item, within_digits item = true) data →
  ∃ fs' tr,
    append_to_file data file_path file_format true allow_duplicates fs
    = (inr (), fs', tr) ∧
    Text.readlines (content_of fs' file_path) = jsonl_line <$> data.
Proof.
  intros Hfmt _.
  destruct (append_jsonl_content data file_path file_format true
              allow_duplicates fs Hfmt) as (tr & Hcall & _).
  eexists _, tr. split; [exact Hcall|].
  unfold content_of. rewrite lookup_insert_eq. cbn [from_option id opened_content].
  rewrite str_nil_app, tested_lines_overwrite, readlines_jsonl_lines.
  f_equal. apply filter_all. intros x _. unfold jsonl_fresh. set_solver.
Qed.

Lemma jsonl_overwrite_lines_witness :
  ∃ fs' tr,
    append_to_file [JStr ("a" +:+ Py.chr Py.LF +:+ "b"); JInt 2; JInt 2]
      "notes.jsonl" None true false {[ "notes.jsonl" := "old" ]}
    = (inr (), fs', tr) ∧
    Text.readlines (content_of fs' "notes.jsonl")
    = jsonl_line <$> [JStr ("a" +:+ Py.chr Py.LF +:+ "b"); JInt 2; JInt 2].
Proof.
  apply (jsonl_overwrite_lines _ "notes.jsonl" None false); [reflexivity|].
  repeat first [apply Forall_nil_2 | apply Forall_cons_2]; reflexivity.
Defined.

(** X10.  After a jsonl call, on records that [json.dumps] accepts (no
    integer of more than 4300 digits), on a destination that was absent,
    empty or ended with a line feed (or with [overwrite]), every record
    of the input is in the file: its trimmed serialization is one of the
    trimmed lines, whether the call wrote it or skipped it. *)
Theorem jsonl_export_complete data file_path file_format overwrite
    allow_duplicates fs item :
  resolve_format file_path file_format = "jsonl" →
  Forall (λ item, within_digits item = true) data →
  overwrite = true ∨ Text_spec.terminated (content_of fs file_path) = true →
  item ∈ data →
  ∃ fs' tr,
    append_to_file data file_path file_format overwrite allow_duplicates fs
    = (inr (), fs', tr) ∧
    Py.strip (Json.dumps item) ∈ Text_spec.line_set (content_of fs' file_path).
Proof.
  intros Hfmt _ Hterm Hin.
  destruct (append_jsonl_content data file_path file_format overwrite
              allow_duplicates fs Hfmt) as (tr & Hcall & _).
  eexists _, tr. split; [exact Hcall|].
  unfold content_of at 1. rewrite lookup_insert_eq. cbn [from_option id].
  assert (Text_spec.terminated (opened_content overwrite fs file_path) = true) as Ht.
  { unfold opened_content. destruct overwrite; [done|]. by destruct Hterm. }
  rewrite line_set_app by exact Ht.
  destruct (decide (jsonl_fresh
                      (tested_lines overwrite allow_duplicates fs file_path) item))
    as [Hfresh|Hseen].
  - apply elem_of_union_r, elem_of_list_to_set, list_elem_of_fmap.
    exists item. split; [done|]. by apply list_elem_of_filter.
  - apply elem_of_union_l. unfold jsonl_fresh in Hseen.
    apply dec_stable in Hseen. revert Hseen.
    unfold tested_lines, start_lines, opened_content.
    destruct allow_duplicates; [set_solver|].
    destruct overwrite; [set_solver|]. cbn [negb andb].
    destruct (exists_file fs file_path); [done|set_solver].
Qed.

Lemma jsonl_export_complete_witness :
  ∃ fs' tr,
    append_to_file [JInt 1; JInt 2] "out.jsonl" None false false
      {[ "out.jsonl" := " 2 " +:+ Py.chr Py.LF ]}
    = (inr (), fs', tr) ∧
    Py.strip (Json.dumps (JInt 2)) ∈ Text_spec.line_set (content_of fs' "out.jsonl").
Proof.
  apply (jsonl_export_complete [JInt 1; JInt 2] "out.jsonl" None false false
           {[ "out.jsonl" := " 2 " +:+ Py.chr Py.LF ]} (JInt 2)).
  - reflexivity.
  - repeat first [apply Forall_nil_2 | apply Forall_cons_2]; reflexivity.
  - right. reflexivity.
  - right. left.
Defined.

Section ExporterFootprint.
Import Py Text_spec Csv_spec.

Lemma Forall_io_path_app path tr1 tr2 :
  Forall (λ e, io_path e = path) tr1 → Forall (λ e, io_path e = path) tr2 →
  Forall (λ e, io_path e = path) (tr1 ++ tr2).
Proof. intros. by apply Forall_app. Qed.

(** The loops add to the file what they write, touch nothing else and
    name no other path. *)
Lemma jsonl_loop_writes existing allow_duplicates path data : ∀ fs c fs' tr,
  fs !! path = Some c →
  jsonl_loop existing allow_duplicates path data fs = (fs', tr) →
  fs' = <[path := c +:+ concat (writes path tr)]> fs ∧
  Forall (λ e, io_path e = path) tr.
Proof.
  induction data as [|item data IH]; intros fs c fs' tr Hc; cbn [jsonl_loop].
  - intros [= <- <-]. cbn. by rewrite str_app_nil_r, insert_id.
  - destruct (allow_duplicates || bool_decide (strip (Json.dumps item) ∉ existing)).
    + destruct (jsonl_loop existing allow_duplicates path data
                  (write fs path (Json.dumps item +:+ chr LF))) as [fs2 tr2] eqn:Hl.
      intros [= <- <-].
      rewrite (write_existing _ _ _ _ Hc) in Hl.
      destruct (IH _ _ _ _ (lookup_insert_eq _ _ _) Hl) as [-> Hall].
      rewrite writes_same, insert_insert_eq. cbn [concat]. rewrite str_app_assoc.
      split; [done|]. by constructor.
    + by apply IH.
Qed.

Lemma csv_loop_writes existing allow_duplicates fieldnames path data :
  ∀ fs c res fs' tr,
  fs !! path = Some c →
  csv_loop existing allow_duplicates fieldnames path data fs = (res, fs', tr) →
  fs' = <[path := c +:+ concat (writes path tr)]> fs ∧
  Forall (λ e, io_path e = path) tr.
Proof.
  induction data as [|item data IH]; intros fs c res fs' tr Hc; cbn [csv_loop].
  - intros [= <- <- <-]. cbn. by rewrite str_app_nil_r, insert_id.
  - destruct (allow_duplicates || negb (existsb (Eq.row_eq item) existing)).
    + destruct (writerow fieldnames item) as [e|text].
      { intros [= <- <- <-]. cbn. by rewrite str_app_nil_r, insert_id. }
      destruct (csv_loop existing allow_duplicates fieldnames path data
                  (write fs path text)) as [[res2 fs2] tr2] eqn:Hl.
      intros [= <- <- <-].
      rewrite (write_existing _ _ _ _ Hc) in Hl.
      destruct (IH _ _ _ _ _ (lookup_insert_eq _ _ _) Hl) as [-> Hall].
      rewrite writes_same, insert_insert_eq. cbn [concat]. rewrite str_app_assoc.
      split; [done|]. by constructor.
    + by apply IH.
Qed.

Lemma read_actions_quiet path (overwrite reading : bool) :
  let tr_read : list io :=
    if overwrite then []
    else IoExists path :: (if reading then [IoOpen path "r"; IoRead path] else []) in
  writes path tr_read = [] ∧ Forall (λ e, io_path e = path) tr_read.
Proof. destruct overwrite, reading; cbn; split; try done; repeat constructor. Qed.

(** What a call leaves: either nothing has happened to the files, or the
    destination holds what [open] left plus the texts written, in order. *)
Lemma append_to_file_footprint data path fmt overwrite allow_duplicates fs
    (res : exn + unit) fs' tr :
  append_to_file data path fmt overwrite allow_duplicates fs = (res, fs', tr) →
  (fs' = fs ∧ writes path tr = [] ∧ res ≠ inr ()
   ∨ fs' = <[path := opened_content overwrite fs path +:+ concat (writes path tr)]> fs)
  ∧ Forall (λ e, io_path e = path) tr.
Proof.
  unfold append_to_file.
  set (reading := negb overwrite && exists_file fs path).
  destruct (read_actions_quiet path overwrite reading) as [Hrw Hrp]. cbn zeta in Hrw, Hrp.
  pose proof (opened_content_lookup fs path overwrite) as Hopen.
  destruct (decide (resolve_format path fmt = "jsonl")) as [_|_].
  { destruct (jsonl_loop _ allow_duplicates path data (open_for_writing fs path overwrite))
      as [fs2 tr2] eqn:Hl.
    intros [= <- <- <-].
    destruct (jsonl_loop_writes _ _ _ _ _ _ _ _ Hopen Hl) as [-> Hall].
    split.
    - right. rewrite open_for_writing_insert, insert_insert_eq.
      rewrite writes_app, Hrw. cbn [app].
      by change (writes path (IoOpen path (mode_of overwrite) :: tr2))
        with (writes path tr2).
    - apply Forall_io_path_app; [done|]. by constructor. }
  destruct (decide (resolve_format path fmt = "csv")) as [_|_];
    [|intros [= <- <- <-]; split; [by left|constructor]].
  destruct (if reading then Csv.dict_read _ else Some []) as [existing|];
    [|intros [= <- <- <-]; split; [by left|done]].
  assert (writes path
            ((if overwrite then []
              else IoExists path ::
                   (if reading then [IoOpen path "r"; IoRead path] else []))
             ++ [IoOpen path (mode_of overwrite)]) = []) as Hopenw
    by (by rewrite writes_app, Hrw).
  assert (Forall (λ e, io_path e = path)
            ((if overwrite then []
              else IoExists path ::
                   (if reading then [IoOpen path "r"; IoRead path] else []))
             ++ [IoOpen path (mode_of overwrite)])) as Hopenp
    by (apply Forall_io_path_app; [done|by repeat constructor]).
  assert (open_for_writing fs path overwrite
          = <[path := opened_content overwrite fs path +:+ concat []]> fs) as Hnothing
    by (cbn [concat]; by rewrite str_app_nil_r, open_for_writing_insert).
  destruct data as [|first_item data'].
  { intros [= <- <- <-]. split; [right; by rewrite Hopenw|done]. }
  destruct first_item as [|b|n|s|l|first_dict];
    try (intros [= <- <- <-]; split; [right; by rewrite Hopenw|done]).
  set (fieldnames := dict_keys first_dict).
  set (header := overwrite || negb (exists_file (open_for_writing fs path overwrite) path)).
  set (fs2 := if header then write (open_for_writing fs path overwrite) path
                                (Csv.write_row fieldnames)
              else open_for_writing fs path overwrite).
  destruct (csv_loop existing allow_duplicates fieldnames path
              (JObj first_dict :: data') fs2) as [[res3 fs3] tr3] eqn:Hl.
  intros [= <- <- <-].
  assert (fs2 !! path
          = Some (opened_content overwrite fs path
                  +:+ (if header then Csv.write_row fieldnames else ""))) as Hfs2.
  { unfold fs2. destruct header.
    - rewrite (write_existing _ _ _ _ Hopen). apply lookup_insert_eq.
    - by rewrite str_app_nil_r. }
  destruct (csv_loop_writes _ _ _ _ _ _ _ _ _ _ Hfs2 Hl) as [-> Hall].
  split.
  - right. rewrite writes_app, Hopenw, writes_app. cbn [app].
    assert (fs2 = <[path := opened_content overwrite fs path
                             +:+ (if header then Csv.write_row fieldnames else "")]> fs)
      as ->.
    { unfold fs2. destruct header.
      - rewrite (write_existing _ _ _ _ Hopen).
        by rewrite open_for_writing_insert, insert_insert_eq.
      - by rewrite str_app_nil_r, open_for_writing_insert. }
    rewrite insert_insert_eq. f_equal.
    rewrite (writes_app path (if overwrite then _ else _)).
    rewrite (writes_none path (if overwrite then _ else _))
      by (destruct overwrite; repeat constructor).
    destruct header; cbn [app].
    + rewrite writes_same. change (writes path []) with (@nil string).
      cbn [app concat]. by rewrite str_app_assoc.
    + change (writes path []) with (@nil string). cbn [app].
      by rewrite str_app_assoc, str_nil_app.
  - apply Forall_io_path_app; [done|].
    apply Forall_io_path_app; [|done].
    apply Forall_io_path_app; [destruct overwrite|destruct header]; repeat constructor.
Qed.

End ExporterFootprint.

(** X11.  Whatever the format, the flags, the records and the outcome, a
    call changes no file but its destination and names no other path in
    any of its actions; and without [overwrite] it only adds to the
    destination: what the file held is still there, followed by the
    texts written, in order. *)
Theorem export_touches_only_destination data file_path file_format overwrite
    allow_duplicates fs res fs' tr :
  append_to_file data file_path file_format overwrite allow_duplicates fs
  = (res, fs', tr) →
  (∀ p, p ≠ file_path → fs' !! p = fs !! p) ∧
  Forall (λ e, io_path e = file_path) tr ∧
  (overwrite = false →
   content_of fs' file_path
   = content_of fs file_path +:+ Py.concat (writes file_path tr)).
Proof.
  intros Hcall.
  destruct (append_to_file_footprint _ _ _ _ _ _ _ _ _ Hcall)
    as [[(-> & Hw & _)| ->] Hpaths].
  - split_and!; [done|done|]. intros _. by rewrite Hw, str_app_nil_r.
  - split_and!; [|done|].
    + intros p Hp. by rewrite lookup_insert_ne.
    + intros ->. unfold content_of at 1. by rewrite lookup_insert_eq.
Qed.

Lemma export_touches_only_destination_witness :
  let fs : files := {[ "out.csv" := "a" ; "keep" := "k" ]} in
  let call := append_to_file [JObj [("a", JInt 1)]; JInt 7] "out.csv" None
                false true fs in
  call.1.1 = inl AttributeError ∧
  (∀ p, p ≠ "out.csv" → call.1.2 !! p = fs !! p) ∧
  Forall (λ e, io_path e = "out.csv") call.2 ∧
  (false = false →
   content_of call.1.2 "out.csv"
   = content_of fs "out.csv" +:+ Py.concat (writes "out.csv" call.2)).
Proof.
  intros fs call. split; [reflexivity|].
  apply (export_touches_only_destination [JObj [("a", JInt 1)]; JInt 7] "out.csv"
           None false true fs call.1.1 call.1.2 call.2).
  reflexivity.
Defined.

Section CsvOverwrite.
Import Py Text_spec Csv_spec.

Lemma filter_csv_fresh_nothing (data : list json) :
  filter (csv_fresh []) data = data.
Proof. by apply filter_all. Qed.

(** The loop on records that all pass the test and print, followed by
    one that passes the test and does not print. *)
Lemma csv_loop_abort existing fieldnames path pre bad post e : ∀ fs c texts,
  fs !! path = Some c →
  row_texts fieldnames (filter (csv_fresh existing) pre) = inr texts →
  csv_fresh existing bad →
  writerow fieldnames bad = inl e →
  csv_loop existing false fieldnames path (pre ++ bad :: post) fs
  = (inl e, <[path := c +:+ concat texts]> fs, IoWrite path <$> texts).
Proof.
  induction pre as [|item pre IH]; intros fs c texts Hc Hrows Hfresh Hbad.
  - injection Hrows as <-. cbn [app csv_loop]. unfold csv_fresh in Hfresh.
    rewrite Hfresh, Hbad. cbn. by rewrite str_app_nil_r, insert_id.
  - cbn [app csv_loop]. rewrite orb_false_l. rewrite filter_cons in Hrows.
    destruct (decide (csv_fresh existing item)) as [Hitem|Hitem].
    + unfold csv_fresh in Hitem. rewrite Hitem. cbn [negb].
      cbn [row_texts] in Hrows.
      destruct (writerow fieldnames item) as [e'|text]; [done|].
      destruct (row_texts fieldnames (filter (csv_fresh existing) pre))
        as [e'|texts'] eqn:Hrest; [done|].
      injection Hrows as <-.
      rewrite (write_existing _ _ _ _ Hc).
      rewrite (IH _ (c +:+ text) texts' (lookup_insert_eq _ _ _) eq_refl Hfresh Hbad).
      rewrite insert_insert_eq. cbn [concat fmap list_fmap].
      by rewrite str_app_assoc.
    + unfold csv_fresh in Hitem. apply not_false_is_true in Hitem.
      rewrite Hitem. cbn [negb]. by apply IH.
Qed.

Lemma csv_overwrite_start first_dict rest path fmt allow_duplicates fs :
  resolve_format path fmt = "csv" →
  append_to_file (JObj first_dict :: rest) path fmt true allow_duplicates fs
  = let '(res, fs', tr) :=
      csv_loop [] false (dict_keys first_dict) path (JObj first_dict :: rest)
        (<[path := Csv.write_row (dict_keys first_dict)]> fs) in
    (res, fs', IoOpen path "w" :: IoWrite path (Csv.write_row (dict_keys first_dict)) :: tr).
Proof.
  intros Hfmt. unfold append_to_file. rewrite Hfmt.
  rewrite decide_False, decide_True by done.
  cbn [negb andb orb app mode_of open_for_writing].
  unfold write. rewrite lookup_insert_eq, insert_insert_eq. cbn [from_option id].
  rewrite str_nil_app.
  destruct allow_duplicates; [by rewrite csv_loop_allow|done].
Qed.

End CsvOverwrite.

(** X12.  In csv mode with [overwrite], for records that begin with a
    dict and that the writer all accepts: the call returns normally and
    the destination then holds the header row (the first record's keys)
    followed by one row per record, duplicates included, in the order of
    the input, whatever it held before and whether or not duplicates are
    allowed. *)
Theorem csv_overwrite_content first_dict rest file_path file_format
    allow_duplicates fs texts :
  resolve_format file_path file_format = "csv" →
  Csv_spec.row_texts (dict_keys first_dict) (JObj first_dict :: rest) = inr texts →
  ∃ tr,
    append_to_file (JObj first_dict :: rest) file_path file_format true
      allow_duplicates fs
    = (inr (),
       <[file_path := Csv.write_row (dict_keys first_dict) +:+ Py.concat texts]> fs,
       tr) ∧
    writes file_path tr = Csv.write_row (dict_keys first_dict) :: texts.
Proof.
  intros Hfmt Hrows. rewrite csv_overwrite_start by done.
  pose proof (csv_loop_spec [] (dict_keys first_dict) file_path (JObj first_dict :: rest)
                (<[file_path := Csv.write_row (dict_keys first_dict)]> fs) _
                (lookup_insert_eq _ _ _)) as Hloop.
  rewrite filter_csv_fresh_nothing, Hrows in Hloop. rewrite Hloop.
  eexists. split; [by rewrite insert_insert_eq|].
  change (writes file_path (IoOpen file_path "w" :: ?t)) with (writes file_path t).
  by rewrite writes_same, writes_of_texts.
Qed.

Lemma csv_overwrite_content_witness :
  let first_dict := [("id", JInt 1); ("title", JStr "a,b")] in
  let rest := [JObj [("title", JNull)]; JObj first_dict] in
  let CRLF := String Py.CR (Py.chr Py.LF) in
  let texts := ["1," +:+ String Py.DQ ("a,b" +:+ String Py.DQ CRLF);
                "," +:+ CRLF;
                "1," +:+ String Py.DQ ("a,b" +:+ String Py.DQ CRLF)] in
  ∃ tr,
    append_to_file (JObj first_dict :: rest) "out.csv" None true false
      {[ "out.csv" := "old" ]}
    = (inr (),
       <[ "out.csv" := Csv.write_row (dict_keys first_dict) +:+ Py.concat texts ]>
         {[ "out.csv" := "old" ]},
       tr) ∧
    writes "out.csv" tr = Csv.write_row (dict_keys first_dict) :: texts.
Proof.
  intros first_dict rest CRLF texts.
  apply (csv_overwrite_content first_dict rest "out.csv" None false
           {[ "out.csv" := "old" ]} texts); reflexivity.
Defined.

(** X13.  In csv mode with [overwrite], a record the writer refuses (a
    field the first record lacks, or a record that is not a dict) ends
    the call with the writer's exception after the header row and the
    rows of the records before it are in the file: the file is left
    with part of the export, and the records after it are not looked
    at. *)
Theorem csv_refused_record_leaves_partial_file first_dict pre bad post file_path
    file_format allow_duplicates fs texts e :
  resolve_format file_path file_format = "csv" →
  Csv_spec.row_texts (dict_keys first_dict) (JObj first_dict :: pre) = inr texts →
  writerow (dict_keys first_dict) bad = inl e →
  ∃ tr,
    append_to_file (JObj first_dict :: pre ++ bad :: post) file_path file_format true
      allow_duplicates fs
    = (inl e,
       <[file_path := Csv.write_row (dict_keys first_dict) +:+ Py.concat texts]> fs,
       tr) ∧
    writes file_path tr = Csv.write_row (dict_keys first_dict) :: texts.
Proof.
  intros Hfmt Hrows Hbad. rewrite csv_overwrite_start by done.
  rewrite (csv_loop_abort [] (dict_keys first_dict) file_path (JObj first_dict :: pre)
             bad post e _ (Csv.write_row (dict_keys first_dict)) texts);
    [|apply lookup_insert_eq|by rewrite filter_csv_fresh_nothing|done|done].
  eexists. split; [by rewrite insert_insert_eq|].
  change (writes file_path (IoOpen file_path "w" :: ?t)) with (writes file_path t).
  by rewrite writes_same, writes_of_texts.
Qed.

Lemma csv_refused_record_leaves_partial_file_witness :
  let first_dict := [("id", JInt 1)] in
  let CRLF := String Py.CR (Py.chr Py.LF) in
  ∃ tr,
    append_to_file
      (JObj first_dict :: [JObj [("id", JInt 2)]]
       ++ JObj [("id", JInt 3); ("note", JStr "n")] :: [JObj [("id", JInt 4)]])
      "out.csv" None true false ∅
    = (inl (ExtraFields ["note"]),
       <[ "out.csv" := Csv.write_row ["id"]
                       +:+ Py.concat ["1" +:+ CRLF; "2" +:+ CRLF] ]> ∅,
       tr) ∧
    writes "out.csv" tr = Csv.write_row ["id"] :: ["1" +:+ CRLF; "2" +:+ CRLF].
Proof.
  intros first_dict CRLF.
  apply (csv_refused_record_leaves_partial_file first_dict [JObj [("id", JInt 2)]]
           (JObj [("id", JInt 3); ("note", JStr "n")]) [JObj [("id", JInt 4)]]
           "out.csv" None false ∅ ["1" +:+ CRLF; "2" +:+ CRLF]
           (ExtraFields ["note"])); reflexivity.
Defined.

Section CsvNumbers.
Import Py Text_spec Csv_spec.

Lemma dict_set_named_textual k v (d : Csv.csvdict) :
  named_textual (k, v) → Forall named_textual d → Forall named_textual (dict_set k v d).
Proof.
  intros Hkv. induction 1 as [|[k' v'] d Hx Hd IH]; cbn.
  - apply Forall_cons_2; [done|apply Forall_nil_2].
  - destruct (decide (k' = k)); by apply Forall_cons_2.
Qed.

Lemma zip_row_named_textual names : ∀ row d,
  Forall named_textual d → Forall named_textual (Csv.zip_row names row d).
Proof.
  induction names as [|k names IH]; intros row d Hd; [done|].
  destruct row as [|v row]; [done|]. cbn. apply IH.
  apply dict_set_named_textual; [by right|done].
Qed.

Lemma foldl_named_textual names : ∀ d,
  Forall named_textual d →
  Forall named_textual (foldl (λ d k, dict_set (Some k) JNull d) d names).
Proof.
  induction names as [|k names IH]; intros d Hd; [done|]. cbn. apply IH.
  apply dict_set_named_textual; [by right|done].
Qed.

Lemma dict_row_named_textual hdr row : Forall named_textual (Csv.dict_row hdr row).
Proof.
  unfold Csv.dict_row.
  pose proof (zip_row_named_textual hdr row [] (Forall_nil_2 _)) as Hz.
  destruct (length hdr <? length row)%nat.
  - apply dict_set_named_textual; [by left|done].
  - by apply foldl_named_textual.
Qed.

Lemma csv_rows_named_textual content :
  Forall (Forall named_textual) (csv_rows content).
Proof.
  unfold csv_rows, Csv.dict_read.
  destruct (Csv.read (Text.readlines content)) as [[|hdr rws]|]; cbn; [done| |done].
  apply Forall_fmap, Forall_forall. intros row _. apply dict_row_named_textual.
Qed.

Lemma start_rows_named_textual overwrite fs path :
  Forall (Forall named_textual) (start_rows overwrite fs path).
Proof.
  unfold start_rows. destruct (negb overwrite && exists_file fs path); [|done].
  apply csv_rows_named_textual.
Qed.

Lemma py_eq_not_textual v v' :
  textual v = false → textual v' = true → Eq.py_eq v v' = false.
Proof. by destruct v, v'. Qed.

Lemma row_eq_not_textual d k v row :
  (k, v) ∈ d → textual v = false → Forall named_textual row →
  Eq.row_eq (JObj d) row = false.
Proof.
  intros Hin Hv Hrow. unfold Eq.row_eq. apply andb_false_iff. right.
  apply not_true_is_false. intros Hall.
  rewrite forallb_forall in Hall.
  specialize (Hall (k, v) (proj1 (list_elem_of_In _ _) Hin)). cbn in Hall.
  destruct (dict_get (Some k) row) as [v'|] eqn:Hget; [|done].
  apply dict_get_elem in Hget. rewrite Forall_forall in Hrow.
  destruct (Hrow _ Hget) as [|Hv']; [done|]. cbn in Hv'.
  by rewrite (py_eq_not_textual _ _ Hv Hv') in Hall.
Qed.

(** A record with a value that is neither a string nor [None] is equal
    to no row read back from any file. *)
Lemma not_textual_fresh existing d k v :
  Forall (Forall named_textual) existing →
  (k, v) ∈ d → textual v = false →
  csv_fresh existing (JObj d).
Proof.
  intros Hrows Hin Hv. unfold csv_fresh.
  apply not_true_is_false. intros (row & Hrow & Heq)%existsb_exists.
  rewrite Forall_forall in Hrows.
  apply list_elem_of_In in Hrow.
  by rewrite (row_eq_not_textual _ _ _ _ Hin Hv (Hrows _ Hrow)) in Heq.
Qed.

End CsvNumbers.

(** X14.  The test of line 106 compares a record with rows whose values
    are the strings read from the file.  A record that holds a number, a
    boolean, a list or a dict under some key is therefore equal to no row
    of any file, and a csv call that returns normally has written its row,
    whatever the destination held: exporting such a record again adds it
    again. *)
Theorem csv_numbers_defeat_the_duplicate_test first_dict rest file_path file_format
    overwrite fs fs' tr d k v :
  resolve_format file_path file_format = "csv" →
  append_to_file (JObj first_dict :: rest) file_path file_format overwrite false fs
  = (inr (), fs', tr) →
  JObj d ∈ JObj first_dict :: rest →
  (k, v) ∈ d →
  textual v = false →
  Csv_spec.csv_fresh (Csv_spec.csv_rows (content_of fs file_path)) (JObj d) ∧
  ∃ text,
    writerow (dict_keys first_dict) (JObj d) = inr text ∧
    text ∈ writes file_path tr.
Proof.
  intros Hfmt Hcall Hin Hkv Hv. split.
  { eapply not_textual_fresh; [apply csv_rows_named_textual|done|done]. }
  destruct (append_csv_spec _ _ _ _ _ _ _ _ Hfmt Hcall) as (texts & Hrows & Hw).
  assert (JObj d ∈ filter (Csv_spec.csv_fresh (start_rows overwrite fs file_path))
                     (JObj first_dict :: rest)) as Hkept.
  { apply list_elem_of_filter. split; [|done].
    eapply not_textual_fresh; [apply start_rows_named_textual|done|done]. }
  apply row_texts_spec in Hrows.
  apply list_elem_of_lookup in Hkept as [i Hi].
  destruct (Forall2_lookup_l _ _ _ _ _ Hrows Hi) as (text & Htext & Hwr).
  exists text. split; [done|]. rewrite Hw.
  apply elem_of_app. right. by eapply list_elem_of_lookup_2.
Qed.

Lemma csv_numbers_defeat_the_duplicate_test_witness :
  let CRLF := String Py.CR (Py.chr Py.LF) in
  let fs : files := {[ "out.csv" := "id,title" +:+ CRLF +:+ "1,a" +:+ CRLF ]} in
  let call := append_to_file [JObj [("id", JInt 1); ("title", JStr "a")]]
                "out.csv" None false false fs in
  Csv_spec.csv_fresh (Csv_spec.csv_rows (content_of fs "out.csv"))
    (JObj [("id", JInt 1); ("title", JStr "a")]) ∧
  ∃ text,
    writerow ["id"; "title"] (JObj [("id", JInt 1); ("title", JStr "a")]) = inr text ∧
    text ∈ writes "out.csv" call.2.
Proof.
  intros CRLF fs call.
  apply (csv_numbers_defeat_the_duplicate_test
           [("id", JInt 1); ("title", JStr "a")] [] "out.csv" None false fs
           call.1.2 call.2 [("id", JInt 1); ("title", JStr "a")] "id" (JInt 1)).
  - reflexivity.
  - reflexivity.
  - left.
  - left.
  - reflexivity.
Defined.

(** ** What the csv writer prints, read back *)

(** X15.  A row the csv writer prints, whose cells are within the
    reader's field size limit (at most 131072 characters once line
    endings are line feeds), is read back by the reader of line 94 from
    the file's lines as one record with the same cells, in order, except
    that a carriage return inside a cell (alone or before a line feed)
    comes back as a line feed: commas, quotes and line feeds inside
    cells survive, carriage returns do not. *)
Theorem csv_row_read_back cells :
  Forall cell_fits cells →
  Csv.read (Text.readlines (Csv.write_row cells))
  = Some [universal_newlines <$> cells].
Proof.
  intros Hfits. unfold Csv.read.
  rewrite feed_text_readlines by apply terminated_write_row.
  by rewrite feed_write_row.
Qed.

Lemma csv_row_read_back_witness :
  let cells := ["a,b"; String Py.DQ "q"; "two" +:+ String Py.CR (Py.chr Py.LF) +:+ "lines";
                ""; "end" +:+ Py.chr Py.CR] in
  Csv.read (Text.readlines (Csv.write_row cells))
  = Some [["a,b"; String Py.DQ "q"; "two" +:+ Py.chr Py.LF +:+ "lines";
           ""; "end" +:+ Py.chr Py.LF]].
Proof.
  intros cells. apply (csv_row_read_back cells).
  repeat first [apply Forall_nil_2 | apply Forall_cons_2]; unfold cell_fits;
    by vm_compute.
Defined.

(** ** Records of strings in csv mode *)

Section CsvTextRecords.
Import Py Text_spec Csv_spec.

Lemma cr_free_universal s : cr_free s = true → universal_newlines s = s.
Proof.
  unfold cr_free. induction s as [|c s IH]; [done|]. cbn [str_forall].
  intros [Hc Hs]%andb_prop. apply negb_true_iff, bool_decide_eq_false in Hc.
  rewrite universal_newlines_char by done. by rewrite IH.
Qed.

Lemma cr_free_universal_list cells :
  Forall (λ c, cr_free c = true) cells → universal_newlines <$> cells = cells.
Proof.
  induction 1 as [|c cells Hc _ IH]; [done|].
  cbn. by rewrite cr_free_universal, IH.
Qed.

Lemma dict_get_elem_unique {V : Type} (k : string) (v : V) (d : list (string * V)) :
  NoDup (dict_keys d) → (k, v) ∈ d → dict_get k d = Some v.
Proof.
  induction d as [|[k' v'] d IH]; [by intros _ ?%elem_of_nil|].
  cbn. intros [Hk' Hnd]%NoDup_cons [[= -> ->]|Hin]%elem_of_cons.
  - by rewrite decide_True.
  - destruct (decide (k' = k)) as [->|]; [|by apply IH].
    destruct Hk'. apply list_elem_of_fmap. by exists (k, v).
Qed.

Lemma record_cells_cr_free fieldnames d :
  Forall (λ kv : string * json, ∃ s, kv.2 = JStr s ∧ cr_free s = true) d →
  Forall (λ c, cr_free c = true) (record_cells fieldnames d).
Proof.
  intros Hd. unfold record_cells. apply Forall_fmap, Forall_forall. intros k _. cbn.
  destruct (dict_get k d) as [v|] eqn:Hget; [|done].
  apply dict_get_elem in Hget. rewrite Forall_forall in Hd.
  destruct (Hd _ Hget) as (s & Hv & Hs). cbn in Hv. by subst v.
Qed.

Lemma writerow_text_record fieldnames item :
  text_record fieldnames item →
  writerow fieldnames item = inr (Csv.write_row (item_cells fieldnames item)).
Proof.
  intros (d & -> & _ & Hperm & Hvals). unfold writerow, Csv.dict_write.
  rewrite filter_none; [|intros k Hk Hno; apply Hno; by rewrite <- Hperm].
  assert (forallb (λ k, from_option within_digits true (dict_get k d)) fieldnames
          = true) as ->; [|done].
  apply forallb_forall. intros k _.
  destruct (dict_get k d) as [v|] eqn:Hget; [|done].
  apply dict_get_elem in Hget. rewrite Forall_forall in Hvals.
  destruct (Hvals _ Hget) as (s & Hv & _). cbn in Hv. by subst v.
Qed.

Lemma row_texts_text_records fieldnames items :
  Forall (text_record fieldnames) items →
  row_texts fieldnames items
  = inr (Csv.write_row <$> (item_cells fieldnames <$> items)).
Proof.
  induction 1 as [|item items Hitem _ IH]; [done|].
  cbn [row_texts]. by rewrite (writerow_text_record _ _ Hitem), IH.
Qed.

Lemma records_rows (rows : list (list string)) :
  Forall (Forall cell_fits) rows →
  records (concat (Csv.write_row <$> rows))
  = Some ((fmap universal_newlines : list string → list string) <$> rows).
Proof.
  induction 1 as [|row rows Hrow _ IH]; [done|].
  cbn [fmap list_fmap concat].
  by rewrite (records_app _ _ _ _ (records_write_row row Hrow) IH).
Qed.

Lemma dict_get_set_eq {K V : Type} `{EqDecision K} (k : K) (v : V) d :
  dict_get k (dict_set k v d) = Some v.
Proof.
  induction d as [|[k' v'] d IH]; cbn; [by rewrite decide_True|].
  destruct (decide (k' = k)) as [->|Hne]; cbn.
  - by rewrite decide_True.
  - by rewrite decide_False.
Qed.

Lemma dict_get_set_ne {K V : Type} `{EqDecision K} (k k' : K) (v : V) d :
  k ≠ k' → dict_get k' (dict_set k v d) = dict_get k' d.
Proof.
  intros Hne. induction d as [|[k2 v2] d IH]; cbn; [by rewrite decide_False|].
  destruct (decide (k2 = k)) as [->|Hne2]; cbn.
  - by rewrite !decide_False.
  - destruct (decide (k2 = k')); [done|exact IH].
Qed.

Lemma dict_keys_set_fresh {K V : Type} `{EqDecision K} (k : K) (v : V) d :
  k ∉ dict_keys d → dict_keys (dict_set k v d) = dict_keys d ++ [k].
Proof.
  induction d as [|[k' v'] d IH]; [done|]. cbn.
  intros [Hne Hk]%not_elem_of_cons.
  rewrite decide_False by done. cbn. f_equal. by apply IH.
Qed.

Lemma zip_row_get (f : string → string) names k : ∀ d0,
  dict_get (Some k) (Csv.zip_row names (f <$> names) d0)
  = if decide (k ∈ names) then Some (JStr (f k)) else dict_get (Some k) d0.
Proof.
  induction names as [|n names IH]; intros d0.
  - cbn. rewrite decide_False; [done|]. by intros ?%elem_of_nil.
  - cbn [fmap list_fmap Csv.zip_row]. rewrite IH.
    destruct (decide (k ∈ names)) as [Hin|Hout].
    + rewrite decide_True; [done|by right].
    + destruct (decide (n = k)) as [->|Hne].
      * rewrite dict_get_set_eq. rewrite decide_True; [done|left].
      * rewrite dict_get_set_ne by congruence.
        rewrite decide_False; [done|].
        intros [->|?]%elem_of_cons; done.
Qed.

Lemma zip_row_keys (f : string → string) names : ∀ d0,
  NoDup (dict_keys d0 ++ (Some <$> names)) →
  dict_keys (Csv.zip_row names (f <$> names) d0) = dict_keys d0 ++ (Some <$> names).
Proof.
  induction names as [|n names IH]; intros d0 Hnd.
  - cbn. by rewrite app_nil_r.
  - cbn [fmap list_fmap Csv.zip_row].
    assert (Some n ∉ dict_keys d0) as Hfresh.
    { apply NoDup_app in Hnd as (_ & Hdis & _). intros Hin.
      apply (Hdis _ Hin). left. }
    rewrite IH; rewrite dict_keys_set_fresh by done.
    + by rewrite <- app_assoc.
    + by rewrite <- app_assoc.
Qed.

Lemma dict_row_full (f : string → string) names :
  Csv.dict_row names (f <$> names) = Csv.zip_row names (f <$> names) [].
Proof.
  unfold Csv.dict_row. rewrite length_fmap, Nat.ltb_irrefl.
  by rewrite drop_all.
Qed.

(** A record of strings is equal to the row read back from its own
    printed row. *)
Lemma row_eq_text_record fieldnames d :
  NoDup fieldnames →
  text_record fieldnames (JObj d) →
  Eq.row_eq (JObj d) (Csv.dict_row fieldnames (record_cells fieldnames d)) = true.
Proof.
  intros Hnd (d' & [= <-] & Hnd_d & Hperm & Hvals).
  unfold record_cells. rewrite dict_row_full. unfold Eq.row_eq.
  apply andb_true_intro. split.
  - apply bool_decide_eq_true_2.
    rewrite <- (length_map fst (Csv.zip_row _ _ _)).
    change (map fst ?l) with (dict_keys l).
    rewrite zip_row_keys by (cbn; by apply (NoDup_fmap_2 Some)).
    cbn. rewrite length_fmap, <- Hperm. unfold dict_keys. by rewrite length_map.
  - apply forallb_forall. intros [k v] Hin%list_elem_of_In. cbn.
    rewrite zip_row_get.
    assert (k ∈ fieldnames) as Hk.
    { rewrite <- Hperm. apply list_elem_of_fmap. by exists (k, v). }
    rewrite decide_True by done.
    rewrite (dict_get_elem_unique _ _ _ Hnd_d Hin). cbn.
    rewrite Forall_forall in Hvals. destruct (Hvals _ Hin) as (s & Hv & _).
    cbn in Hv. subst v. cbn. by apply bool_decide_eq_true_2.
Qed.

Lemma text_record_cells_nonempty fieldnames item :
  fieldnames ≠ [] → item_cells fieldnames item ≠ [] ∨ ¬ text_record fieldnames item.
Proof.
  intros Hne. destruct item as [| | | | |d]; try (right; by intros (d & [=] & _)).
  left. unfold item_cells, record_cells. by destruct fieldnames.
Qed.

End CsvTextRecords.

(** X16.  Where the duplicate test of csv mode does work: records that
    are dicts of strings over the first record's keys (each key once, no
    carriage return in keys or values, at least one key, keys and values
    within the reader's field size limit of 131072 characters).  After a
    call with [overwrite] has written them, a call without [overwrite]
    and without [allow_duplicates] on the same records returns normally
    and writes nothing: every record is equal to the row read back from
    its own printed row, and the file is left as it was. *)
Theorem csv_text_records_are_not_added_again first_dict rest file_path file_format
    allow_duplicates fs :
  let data := JObj first_dict :: rest in
  let fieldnames := dict_keys first_dict in
  resolve_format file_path file_format = "csv" →
  fieldnames ≠ [] →
  Forall (λ k, cr_free k = true) fieldnames →
  Forall (text_record fieldnames) data →
  Forall cell_fits fieldnames →
  Forall record_fits data →
  ∃ fs1 tr1 tr2,
    append_to_file data file_path file_format true allow_duplicates fs
    = (inr (), fs1, tr1) ∧
    append_to_file data file_path file_format false false fs1 = (inr (), fs1, tr2) ∧
    writes file_path tr2 = [].
Proof.
  intros data fieldnames Hfmt Hne Hkeys Hdata Hkfit Hfits.
  set (rows := item_cells fieldnames <$> data).
  set (F := Csv.write_row fieldnames +:+ Py.concat (Csv.write_row <$> rows)).
  pose proof (row_texts_text_records _ _ Hdata) as Hrows. fold rows in Hrows.
  assert (NoDup fieldnames) as Hnd.
  { apply Forall_cons in Hdata as [(d & [= <-] & Hnd & _) _]. exact Hnd. }
  (* the first call *)
  assert (append_to_file data file_path file_format true allow_duplicates fs
          = (inr (), <[file_path := F]> fs,
             IoOpen file_path "w" :: IoWrite file_path (Csv.write_row fieldnames)
             :: (IoWrite file_path <$> (Csv.write_row <$> rows)))) as Hcall1.
  { unfold data. rewrite csv_overwrite_start by done.
    pose proof (csv_loop_spec [] fieldnames file_path data
                  (<[file_path := Csv.write_row fieldnames]> fs) _
                  (lookup_insert_eq _ _ _)) as Hloop.
    rewrite filter_csv_fresh_nothing, Hrows in Hloop.
    fold fieldnames data. rewrite Hloop. by rewrite insert_insert_eq. }
  (* what the second call reads *)
  assert (Forall (Forall (λ c, cr_free c = true)) rows) as Hfree.
  { unfold rows. apply Forall_fmap. eapply Forall_impl; [exact Hdata|].
    intros item (d & -> & _ & _ & Hvals). by apply record_cells_cr_free. }
  assert ((fmap universal_newlines : list string → list string) <$> rows = rows)
    as Hsame.
  { clear -Hfree. induction Hfree as [|row rows Hrow _ IH]; [done|].
    cbn. by rewrite cr_free_universal_list, IH. }
  assert (Forall (Forall cell_fits) rows) as Hrfit.
  { unfold rows. apply Forall_fmap, Forall_forall. intros item Hin.
    rewrite Forall_forall in Hfits. pose proof (Hfits _ Hin) as Hfit.
    destruct item as [| | | | |d]; try apply Forall_nil_2.
    by apply record_cells_fit. }
  assert (Csv_spec.records F = Some (fieldnames :: rows)) as Hrec.
  { unfold F.
    rewrite (records_app _ _ _ _ (records_write_row fieldnames Hkfit)
               (records_rows rows Hrfit)).
    by rewrite cr_free_universal_list, Hsame. }
  set (existing := Csv.dict_row fieldnames <$> filter (λ row, row ≠ []) rows).
  assert (Csv.dict_read (Text.readlines F) = Some existing) as Hread.
  { unfold Csv.dict_read. by rewrite (records_read _ _ Hrec). }
  (* no record is fresh for it *)
  assert (filter (Csv_spec.csv_fresh existing) data = []) as Hnone.
  { apply filter_none. intros item Hin Hfresh.
    rewrite Forall_forall in Hdata. pose proof (Hdata _ Hin) as Htext.
    destruct Htext as (d & -> & Htext).
    unfold Csv_spec.csv_fresh in Hfresh.
    assert (existsb (Eq.row_eq (JObj d)) existing = true) as Hex; [|congruence].
    apply existsb_exists. exists (Csv.dict_row fieldnames (record_cells fieldnames d)).
    split.
    - apply list_elem_of_In, list_elem_of_fmap. eexists. split; [done|].
      apply list_elem_of_filter. split.
      + unfold record_cells. by destruct fieldnames.
      + unfold rows. apply list_elem_of_fmap. by exists (JObj d).
    - apply row_eq_text_record; [done|]. by exists d. }
  eexists (<[file_path := F]> fs), _, _. split; [exact Hcall1|].
  unfold data.
  rewrite (append_csv_existing first_dict rest file_path file_format
             (<[file_path := F]> fs) F existing Hfmt (lookup_insert_eq _ _ _) Hread).
  pose proof (csv_loop_spec existing fieldnames file_path data
                (<[file_path := F]> fs) F (lookup_insert_eq _ _ _)) as Hloop.
  rewrite Hnone in Hloop. cbn [Csv_spec.row_texts] in Hloop.
  fold fieldnames data. rewrite Hloop.
  cbn [Py.concat fmap list_fmap]. rewrite str_app_nil_r, insert_insert_eq.
  split; [done|]. by rewrite app_nil_r.
Qed.

Lemma csv_text_records_are_not_added_again_witness :
  let first_dict := [("id", JStr "1"); ("title", JStr "a,b")] in
  let rest := [JObj [("title", JStr ("two" +:+ Py.chr Py.LF +:+ "lines")); ("id", JStr "2")];
               JObj first_dict] in
  ∃ fs1 tr1 tr2,
    append_to_file (JObj first_dict :: rest) "out.csv" None true false ∅
    = (inr (), fs1, tr1) ∧
    append_to_file (JObj first_dict :: rest) "out.csv" None false false fs1
    = (inr (), fs1, tr2) ∧
    writes "out.csv" tr2 = [].
Proof.
  intros first_dict rest.
  apply (csv_text_records_are_not_added_again first_dict rest "out.csv" None false ∅).
  5: { repeat first [apply Forall_nil_2 | apply Forall_cons_2]; unfold cell_fits;
       by vm_compute. }
  5: { repeat first [apply Forall_nil_2 | apply Forall_cons_2];
       cbn [record_fits]; repeat first [apply Forall_nil_2 | apply Forall_cons_2];
       unfold cell_fits; by vm_compute. }
  - reflexivity.
  - done.
  - repeat constructor.
  - assert (∀ s, cr_free s = true → ∃ s', JStr s = JStr s' ∧ cr_free s' = true)
      as Hvals by (intros s ?; by exists s).
    repeat apply Forall_cons_2; [..|apply Forall_nil_2].
    + eexists. split; [reflexivity|]. split_and!.
      * apply (bool_decide_unpack _). by vm_compute.
      * reflexivity.
      * repeat apply Forall_cons_2; [..|apply Forall_nil_2]; by apply Hvals.
    + eexists. split; [reflexivity|]. split_and!.
      * apply (bool_decide_unpack _). by vm_compute.
      * apply perm_swap.
      * repeat apply Forall_cons_2; [..|apply Forall_nil_2]; by apply Hvals.
    + eexists. split; [reflexivity|]. split_and!.
      * apply (bool_decide_unpack _). by vm_compute.
      * reflexivity.
      * repeat apply Forall_cons_2; [..|apply Forall_nil_2]; by apply Hvals.
Defined.

(** X24.  A destination whose name is a dot followed by a dot-free text
    ([.csv], [.jsonl], [dir/.csv]) has no suffix for [pathlib]: without
    a format the inferred format is empty and the call raises the
    unsupported-format error for the empty format, leaving the files as
    they were and performing no file action. *)
Theorem dotfile_has_no_extension data file_path ext overwrite allow_duplicates fs :
  Path.name file_path = String "." ext →
  Py.str_contains "." ext = false →
  Path.suffix file_path = "" ∧
  append_to_file data file_path None overwrite allow_duplicates fs
  = (inl (UnsupportedFormat ""), fs, []).
Proof.
  intros Hname Hdot.
  assert (Path.suffix file_path = "") as Hsuffix.
  { unfold Path.suffix. rewrite Hname. cbn [Path.split_on].
    rewrite decide_True by done. rewrite (split_on_plain _ _ Hdot).
    change (reverse [""; ext]) with [ext; ""]. cbv beta iota.
    change (Py.join "." (reverse [""])) with "".
    rewrite (bool_decide_eq_true_2 ("" = "")) by done. by rewrite orb_true_r. }
  split; [exact Hsuffix|].
  unfold append_to_file, resolve_format. rewrite Hsuffix.
  by rewrite !decide_False.
Qed.

Lemma dotfile_has_no_extension_witness :
  Path.suffix "exports/.csv" = "" ∧
  append_to_file [JObj [("a", JInt 1)]] "exports/.csv" None true false ∅
  = (inl (UnsupportedFormat ""), ∅, []).
Proof.
  apply (dotfile_has_no_extension [JObj [("a", JInt 1)]] "exports/.csv" "csv"
           true false ∅); reflexivity.
Defined.

(** * The program as a whole *)

Lemma fetch_acts_app tr1 tr2 :
  fetch_acts (tr1 ++ tr2) = fetch_acts tr1 ++ fetch_acts tr2.
Proof. apply omap_app. Qed.

Lemma file_acts_app tr1 tr2 :
  file_acts (tr1 ++ tr2) = file_acts tr1 ++ file_acts tr2.
Proof. apply omap_app. Qed.

Lemma fetch_acts_fetch evs : fetch_acts (ActFetch <$> evs) = evs.
Proof. induction evs as [|e evs IH]; [done|]. cbn. f_equal. exact IH. Qed.

Lemma file_acts_fetch evs : file_acts (ActFetch <$> evs) = [].
Proof. induction evs as [|e evs IH]; [done|]. exact IH. Qed.

Lemma fetch_acts_file tr : fetch_acts (ActFile <$> tr) = [].
Proof. induction tr as [|e tr IH]; [done|]. exact IH. Qed.

Lemma file_acts_file tr : file_acts (ActFile <$> tr) = tr.
Proof. induction tr as [|e tr IH]; [done|]. cbn. f_equal. exact IH. Qed.

Lemma consume_items_app body items1 items2 : ∀ fs,
  consume_items body (items1 ++ items2) fs
  = let '(res, fs1, tr1) := consume_items body items1 fs in
    match res with
    | inl e => (inl e, fs1, tr1)
    | inr _ =>
        let '(res2, fs2, tr2) := consume_items body items2 fs1 in
        (res2, fs2, tr1 ++ tr2)
    end.
Proof.
  induction items1 as [|item items1 IH]; intros fs.
  - cbn. by destruct (consume_items body items2 fs) as [[res2 fs2] tr2].
  - cbn [app consume_items].
    destruct (body item fs) as [[res fs1] tr]. destruct res as [e|u]; [done|].
    rewrite IH.
    destruct (consume_items body items1 fs1) as [[res1 fs2] tr1].
    destruct res1 as [e|u1]; [done|].
    destruct (consume_items body items2 fs2) as [[res2 fs3] tr2].
    cbn [app]. by rewrite <- app_assoc.
Qed.

(** The loop over a page yields the records it takes, in order: all of
    them unless the body raises. *)
Lemma consume_items_yields body items : ∀ fs res fs' acts,
  consume_items body items fs = (res, fs', acts) →
  (∃ rest, EvYield <$> items = fetch_acts acts ++ rest) ∧
  match res with
  | inr _ => fetch_acts acts = EvYield <$> items
  | inl _ => True
  end.
Proof.
  induction items as [|item items IH]; intros fs res fs' acts; cbn [consume_items].
  - intros [= <- <- <-]. split; [by exists []|done].
  - destruct (body item fs) as [[res1 fs1] tr]. destruct res1 as [e|u].
    + intros [= <- <- <-]. split; [|done]. exists (EvYield <$> items).
      cbn. by rewrite fetch_acts_file.
    + destruct (consume_items body items fs1) as [[res2 fs2] tr2] eqn:Hc.
      intros [= <- <- <-].
      destruct (IH _ _ _ _ Hc) as [[rest Hpre] Hfull].
      change (fetch_acts (ActFetch (EvYield item) :: ?t))
        with (EvYield item :: fetch_acts t).
      rewrite fetch_acts_app, fetch_acts_file. cbn [app]. split.
      * exists rest. cbn. by rewrite Hpre.
      * destruct res2; [done|]. cbn. by rewrite Hfull.
Qed.

Section MainFacts.
Context {Srv : Type}.
Variable http_get : Srv → pydict → string → json * Srv.

(** The loop over the generator against the generator followed on its
    own: the body has seen the records the generator yields, in order,
    up to the first one on which it raises; the generator has done what
    it does on its own, up to that record. *)
Lemma for_each_document_spec body fuel token : ∀ cur w fs o w1 tr,
  fetch_loop http_get fuel token cur w = (o, w1, tr) →
  ∃ res fs' acts_items o' w' acts,
    consume_items body (yielded tr) fs = (res, fs', acts_items) ∧
    for_each_document http_get fuel body token cur w fs = (o', w', fs', acts) ∧
    file_acts acts = file_acts acts_items ∧
    (∃ rest, tr = fetch_acts acts ++ rest) ∧
    match res with
    | inr _ => o' = o ∧ w' = w1 ∧ fetch_acts acts = tr
    | inl e => o' = Raised e
    end.
Proof.
  induction fuel as [|fuel IH]; intros cur w fs o w1 tr Hrun.
  { injection Hrun as <- <- <-.
    exists (inr ()), fs, [], OutOfFuel, w, []. split_and!; try done. by exists []. }
  simpl in Hrun. cbn [for_each_document].
  destruct (acquire http_get token cur w) as [[a wa] evs] eqn:Ha.
  pose proof (acquire_yielded _ _ _ _ _ _ _ Ha) as Hy.
  assert (∀ e, ∃ res fs' acts_items o' w' acts,
            consume_items body (yielded evs) fs = (res, fs', acts_items) ∧
            (Raised e, wa, fs, ActFetch <$> evs) = (o', w', fs', acts) ∧
            file_acts acts = file_acts acts_items ∧
            (∃ rest, evs = fetch_acts acts ++ rest) ∧
            match res with
            | inr _ => o' = Raised e ∧ w' = wa ∧ fetch_acts acts = evs
            | inl e' => o' = Raised e'
            end) as Hraised.
  { intros e. rewrite Hy.
    exists (inr ()), fs, [], (Raised e), wa, (ActFetch <$> evs).
    rewrite file_acts_fetch, fetch_acts_fetch. split_and!; try done.
    exists []. by rewrite app_nil_r. }
  destruct a as [r| |e].
  - destruct (emit r) as [e|[ys next]] eqn:He.
    { injection Hrun as <- <- <-. apply Hraised. }
    pose proof (emit_yields _ _ _ He) as Hys.
    destruct (consume_items body (yielded ys) fs) as [[res1 fs1] t1] eqn:Hc1.
    destruct (consume_items_yields _ _ _ _ _ _ Hc1) as [[rest1 Hpre1] Hfull1].
    rewrite <- Hys in Hpre1, Hfull1.
    destruct (truthy next) eqn:Hn.
    + destruct (fetch_loop http_get fuel token next wa) as [[o2 w2] tr2] eqn:Hl.
      injection Hrun as <- <- <-.
      rewrite !yielded_app, Hy. cbn [app]. rewrite consume_items_app, Hc1.
      destruct res1 as [e|u].
      * exists (inl e), fs1, t1, (Raised e), wa, ((ActFetch <$> evs) ++ t1).
        split_and!; try done.
        -- by rewrite file_acts_app, file_acts_fetch.
        -- exists (rest1 ++ tr2).
           rewrite fetch_acts_app, fetch_acts_fetch, Hpre1. by rewrite <- !app_assoc.
      * destruct (IH next wa fs1 _ _ _ Hl)
          as (res2 & fs2 & t2 & o' & w' & acts2 & Hc2 & Hf2 & Hfile2 & [rest2 Hpre2] & Hend2).
        rewrite Hc2, Hf2.
        exists res2, fs2, (t1 ++ t2), o', w', ((ActFetch <$> evs) ++ t1 ++ acts2).
        split_and!; try done.
        -- by rewrite !file_acts_app, file_acts_fetch, Hfile2.
        -- exists rest2. rewrite !fetch_acts_app, fetch_acts_fetch, Hfull1.
           rewrite <- !app_assoc. by rewrite <- Hpre2.
        -- destruct res2 as [e|u2]; [done|]. destruct Hend2 as (-> & -> & Hall).
           split_and!; try done.
           by rewrite !fetch_acts_app, fetch_acts_fetch, Hfull1, Hall.
    + injection Hrun as <- <- <-.
      rewrite yielded_app, Hy. cbn [app]. rewrite Hc1.
      destruct res1 as [e|u].
      * exists (inl e), fs1, t1, (Raised e), wa, ((ActFetch <$> evs) ++ t1).
        split_and!; try done.
        -- by rewrite file_acts_app, file_acts_fetch.
        -- exists rest1. rewrite fetch_acts_app, fetch_acts_fetch, Hpre1.
           by rewrite <- !app_assoc.
      * exists (inr u), fs1, t1, Done, wa, ((ActFetch <$> evs) ++ t1).
        split_and!; try done.
        -- by rewrite file_acts_app, file_acts_fetch.
        -- exists []. by rewrite fetch_acts_app, fetch_acts_fetch, Hfull1, app_nil_r.
        -- by rewrite fetch_acts_app, fetch_acts_fetch, Hfull1.
  - destruct (fetch_loop http_get fuel token cur wa) as [[o2 w2] tr2] eqn:Hl.
    injection Hrun as <- <- <-.
    rewrite yielded_app, Hy. cbn [app].
    destruct (IH cur wa fs _ _ _ Hl)
      as (res2 & fs2 & t2 & o' & w' & acts2 & Hc2 & Hf2 & Hfile2 & [rest2 Hpre2] & Hend2).
    rewrite Hf2.
    exists res2, fs2, t2, o', w', ((ActFetch <$> evs) ++ acts2).
    split_and!; try done.
    + by rewrite file_acts_app, file_acts_fetch.
    + exists rest2. rewrite fetch_acts_app, fetch_acts_fetch.
      rewrite <- app_assoc. by rewrite <- Hpre2.
    + destruct res2 as [e|u2]; [done|]. destruct Hend2 as (-> & -> & Hall).
      split_and!; try done. by rewrite fetch_acts_app, fetch_acts_fetch, Hall.
  - injection Hrun as <- <- <-. apply Hraised.
Qed.

End MainFacts.

(** The loops of the exporter over a list are the loop bodies run on
    the records one by one. *)
Lemma consume_jsonl existing allow_duplicates path items : ∀ fs fs' tr,
  jsonl_loop existing allow_duplicates path items fs = (fs', tr) →
  ∃ acts,
    consume_items (jsonl_body existing allow_duplicates path) items fs
    = (inr (), fs', acts) ∧
    file_acts acts = tr.
Proof.
  induction items as [|item items IH]; intros fs fs' tr;
    cbn [jsonl_loop consume_items].
  - intros [= <- <-]. by exists [].
  - unfold jsonl_body at 1.
    destruct (allow_duplicates
              || bool_decide (Py.strip (Json.dumps item) ∉ existing)).
    + destruct (jsonl_loop existing allow_duplicates path items
                  (write fs path (Json.dumps item +:+ Py.chr Py.LF)))
        as [fs2 tr2] eqn:Hl.
      intros [= <- <-]. destruct (IH _ _ _ Hl) as (acts & -> & Hf).
      eexists. split; [done|].
      change (file_acts (ActFetch ?e :: ?t)) with (file_acts t).
      by rewrite file_acts_app, file_acts_file, Hf.
    + intros Hl. destruct (IH _ _ _ Hl) as (acts & -> & Hf).
      eexists. split; [done|]. exact Hf.
Qed.

Lemma consume_csv existing allow_duplicates fieldnames path items :
  ∀ fs res fs' tr,
  csv_loop existing allow_duplicates fieldnames path items fs = (res, fs', tr) →
  ∃ acts,
    consume_items (csv_body existing allow_duplicates fieldnames path) items fs
    = (res, fs', acts) ∧
    file_acts acts = tr.
Proof.
  induction items as [|item items IH]; intros fs res fs' tr;
    cbn [csv_loop consume_items].
  - intros [= <- <- <-]. by exists [].
  - unfold csv_body at 1.
    destruct (allow_duplicates || negb (existsb (Eq.row_eq item) existing)).
    + destruct (writerow fieldnames item) as [e|text].
      { intros [= <- <- <-]. eexists. split; [done|]. done. }
      destruct (csv_loop existing allow_duplicates fieldnames path items
                  (write fs path text)) as [[res2 fs2] tr2] eqn:Hl.
      intros [= <- <- <-]. destruct (IH _ _ _ _ Hl) as (acts & -> & Hf).
      eexists. split; [done|].
      change (file_acts (ActFetch ?e :: ?t)) with (file_acts t).
      by rewrite file_acts_app, file_acts_file, Hf.
    + intros Hl. destruct (IH _ _ _ _ Hl) as (acts & -> & Hf).
      eexists. split; [done|]. exact Hf.
Qed.

Section MainSteps.
Context {Srv : Type}.
Variable http_get : Srv → pydict → string → json * Srv.

(** The first pull against the generator followed on its own. *)
Lemma first_document_spec fuel token : ∀ cur w o w1 tr,
  fetch_loop http_get fuel token cur w = (o, w1, tr) →
  match first_document http_get fuel token cur w with
  | (FirstItem item items next fuel', w', evs) =>
      ∃ rest,
        yielded evs = [item] ∧
        tr = evs ++ (EvYield <$> items) ++ rest ∧
        (if truthy next
         then fetch_loop http_get fuel' token next w' = (o, w1, rest)
         else o = Done ∧ w1 = w' ∧ rest = [])
  | (NoItem, w', evs) => o = Done ∧ w' = w1 ∧ evs = tr ∧ yielded tr = []
  | (FirstRaised e, w', evs) => o = Raised e ∧ w' = w1 ∧ evs = tr ∧ yielded tr = []
  | (FirstOutOfFuel, w', evs) => o = OutOfFuel ∧ w' = w1 ∧ evs = tr ∧ yielded tr = []
  end.
Proof.
  induction fuel as [|fuel IH]; intros cur w o w1 tr Hrun.
  { by injection Hrun as <- <- <-. }
  simpl in Hrun. cbn [first_document].
  destruct (acquire http_get token cur w) as [[a wa] evs] eqn:Ha.
  pose proof (acquire_yielded _ _ _ _ _ _ _ Ha) as Hy.
  assert (∀ (f : first_pull) w' evs' tr2 (P : Prop),
            match (f, w', evs') with
            | (FirstItem item items next fuel', w', evs') =>
                ∃ rest, yielded evs' = [item] ∧
                        tr2 = evs' ++ (EvYield <$> items) ++ rest ∧
                        (if truthy next
                         then fetch_loop http_get fuel' token next w' = (o, w1, rest)
                         else o = Done ∧ w1 = w' ∧ rest = [])
            | (NoItem, w', evs') => o = Done ∧ w' = w1 ∧ evs' = tr2 ∧ yielded tr2 = []
            | (FirstRaised e, w', evs') =>
                o = Raised e ∧ w' = w1 ∧ evs' = tr2 ∧ yielded tr2 = []
            | (FirstOutOfFuel, w', evs') =>
                o = OutOfFuel ∧ w' = w1 ∧ evs' = tr2 ∧ yielded tr2 = []
            end →
            ∀ pre, yielded pre = [] →
            match (f, w', pre ++ evs') with
            | (FirstItem item items next fuel', w', evs') =>
                ∃ rest, yielded evs' = [item] ∧
                        pre ++ tr2 = evs' ++ (EvYield <$> items) ++ rest ∧
                        (if truthy next
                         then fetch_loop http_get fuel' token next w' = (o, w1, rest)
                         else o = Done ∧ w1 = w' ∧ rest = [])
            | (NoItem, w', evs') =>
                o = Done ∧ w' = w1 ∧ evs' = pre ++ tr2 ∧ yielded (pre ++ tr2) = []
            | (FirstRaised e, w', evs') =>
                o = Raised e ∧ w' = w1 ∧ evs' = pre ++ tr2 ∧ yielded (pre ++ tr2) = []
            | (FirstOutOfFuel, w', evs') =>
                o = OutOfFuel ∧ w' = w1 ∧ evs' = pre ++ tr2 ∧ yielded (pre ++ tr2) = []
            end) as Hlater.
  { intros f w' evs' tr2 _ H pre Hpre. destruct f as [item items next fuel'| | |].
    - destruct H as (rest & Hone & -> & Hrest). exists rest.
      split_and!; [by rewrite yielded_app, Hpre|by rewrite <- app_assoc|done].
    - destruct H as (-> & -> & -> & Hnone).
      split_and!; try done. by rewrite yielded_app, Hpre.
    - destruct H as (-> & -> & -> & Hnone).
      split_and!; try done. by rewrite yielded_app, Hpre.
    - destruct H as (-> & -> & -> & Hnone).
      split_and!; try done. by rewrite yielded_app, Hpre. }
  destruct a as [r| |e].
  - destruct (emit r) as [e|[ys next]] eqn:He.
    { by injection Hrun as <- <- <-. }
    pose proof (emit_yields _ _ _ He) as Hys.
    destruct (yielded ys) as [|item items] eqn:Hitems.
    + cbn in Hys. subst ys.
      destruct (truthy next) eqn:Hn.
      * destruct (fetch_loop http_get fuel token next wa) as [[o2 w2] tr2] eqn:Hl.
        injection Hrun as <- <- <-. cbn [app].
        specialize (IH _ _ _ _ _ Hl).
        destruct (first_document http_get fuel token next wa) as [[f w'] evs'].
        by apply (Hlater f w' evs' tr2 True).
      * injection Hrun as <- <- <-. rewrite app_nil_r. done.
    + destruct (truthy next) eqn:Hn.
      * destruct (fetch_loop http_get fuel token next wa) as [[o2 w2] tr2] eqn:Hl.
        injection Hrun as <- <- <-. exists tr2.
        split_and!; [by rewrite yielded_app, Hy|by rewrite Hys, <- app_assoc|done].
      * injection Hrun as <- <- <-. exists [].
        split; [by rewrite yielded_app, Hy|]. split; [|done].
        rewrite Hys, app_nil_r. cbn. by rewrite <- app_assoc.
  - destruct (fetch_loop http_get fuel token cur wa) as [[o2 w2] tr2] eqn:Hl.
    injection Hrun as <- <- <-.
    specialize (IH _ _ _ _ _ Hl).
    destruct (first_document http_get fuel token cur wa) as [[f w'] evs'].
    by apply (Hlater f w' evs' tr2 True).
  - by injection Hrun as <- <- <-.
Qed.

(** The generator resumed inside a page against the rest of the walk. *)
Lemma resume_spec body fuel token items next w fs o w1 rest :
  (if truthy next
   then fetch_loop http_get fuel token next w = (o, w1, rest)
   else o = Done ∧ w1 = w ∧ rest = []) →
  ∃ res fs' acts_items o' w' acts,
    consume_items body (items ++ yielded rest) fs = (res, fs', acts_items) ∧
    resume http_get fuel body token items next w fs = (o', w', fs', acts) ∧
    file_acts acts = file_acts acts_items ∧
    (∃ more, (EvYield <$> items) ++ rest = fetch_acts acts ++ more) ∧
    match res with
    | inr _ => o' = o ∧ w' = w1 ∧ fetch_acts acts = (EvYield <$> items) ++ rest
    | inl e => o' = Raised e
    end.
Proof.
  intros Hrest. unfold resume. rewrite consume_items_app.
  destruct (consume_items body items fs) as [[res1 fs1] t1] eqn:Hc1.
  destruct (consume_items_yields _ _ _ _ _ _ Hc1) as [[rest1 Hpre1] Hfull1].
  destruct res1 as [e|u].
  { exists (inl e), fs1, t1, (Raised e), w, t1. split_and!; try done.
    exists (rest1 ++ rest). by rewrite Hpre1, <- app_assoc. }
  destruct (truthy next).
  - destruct (for_each_document_spec http_get body fuel token next w fs1 _ _ _ Hrest)
      as (res2 & fs2 & t2 & o' & w' & acts2 & Hc2 & Hf2 & Hfile2 & [rest2 Hpre2] & Hend2).
    rewrite Hc2, Hf2. exists res2, fs2, (t1 ++ t2), o', w', (t1 ++ acts2).
    split_and!; try done.
    + by rewrite !file_acts_app, Hfile2.
    + exists rest2. rewrite fetch_acts_app, Hfull1, <- app_assoc. by rewrite <- Hpre2.
    + destruct res2 as [e|u2]; [done|]. destruct Hend2 as (-> & -> & Hall).
      split_and!; try done. by rewrite fetch_acts_app, Hfull1, Hall.
  - destruct Hrest as (-> & -> & ->). change (yielded []) with (@nil json).
    cbn [consume_items]. destruct u.
    exists (inr ()), fs1, (t1 ++ []), Done, w, t1.
    rewrite !app_nil_r. split_and!; try done.
    exists []. by rewrite Hfull1, app_nil_r.
Qed.

End MainSteps.

Lemma csv_loop_cons existing allow_duplicates fieldnames path item items fs :
  csv_loop existing allow_duplicates fieldnames path (item :: items) fs
  = let '(res, fs1, tr) := csv_body existing allow_duplicates fieldnames path item fs in
    match res with
    | inl e => (inl e, fs1, tr)
    | inr _ =>
        let '(res2, fs2, tr2) :=
          csv_loop existing allow_duplicates fieldnames path items fs1 in
        (res2, fs2, tr ++ tr2)
    end.
Proof.
  cbn [csv_loop]. unfold csv_body.
  destruct (allow_duplicates || negb (existsb (Eq.row_eq item) existing)).
  - destruct (writerow fieldnames item) as [e|text]; [done|].
    by destruct (csv_loop existing allow_duplicates fieldnames path items
                   (write fs path text)) as [[res2 fs2] tr2].
  - by destruct (csv_loop existing allow_duplicates fieldnames path items fs)
      as [[res2 fs2] tr2].
Qed.

Section MainSpec.
Context {Srv : Type}.
Variable http_get : Srv → pydict → string → json * Srv.

(** The exporter on the generator against the exporter on the list of
    what the generator yields when it is followed on its own. *)
Lemma export_documents_spec fuel token path fmt overwrite allow_duplicates
    w fs o w1 tr :
  fetch_all_documents http_get fuel token w = (o, w1, tr) →
  ∃ res fs' e w' acts,
    append_to_file (yielded tr) path fmt overwrite allow_duplicates fs
    = (res, fs', file_acts acts) ∧
    export_documents http_get fuel token path fmt overwrite allow_duplicates w fs
    = (e, w', fs', acts) ∧
    (∃ rest, tr = fetch_acts acts ++ rest) ∧
    match res with
    | inr _ =>
        (e = ending_of o ∧ w' = w1 ∧ fetch_acts acts = tr)
        ∨ (e = Returns ∧ head (yielded tr) = Some JNull
           ∧ resolve_format path fmt = "csv")
    | inl err =>
        e = Raises err ∨ (yielded tr = [] ∧ o ≠ Done ∧ e = ending_of o)
    end.
Proof.
  unfold fetch_all_documents. intros Hrun.
  unfold append_to_file, export_documents.
  set (reading := negb overwrite && exists_file fs path).
  set (tr_read := if overwrite then []
                  else IoExists path ::
                       (if reading then [IoOpen path "r"; IoRead path] else [])).
  set (fs1 := open_for_writing fs path overwrite).
  destruct (decide (resolve_format path fmt = "jsonl")) as [_|_].
  { set (E := if reading then _ else ∅).
    destruct (for_each_document_spec http_get (jsonl_body E allow_duplicates path)
                fuel token JNull w fs1 _ _ _ Hrun)
      as (res & fs' & t & o' & w' & acts & Hc & Hf & Hfile & Hpre & Hend).
    destruct (jsonl_loop E allow_duplicates path (yielded tr) fs1) as [fs2 tr2] eqn:Hl.
    destruct (consume_jsonl _ _ _ _ _ _ _ Hl) as (acts0 & Hc0 & Hf0).
    rewrite Hc0 in Hc. injection Hc as <- <- <-. rewrite Hf.
    destruct Hend as (-> & -> & Hall).
    exists (inr ()), fs2, (ending_of o), w1,
      ((ActFile <$> tr_read ++ [IoOpen path (mode_of overwrite)]) ++ acts).
    rewrite file_acts_app, file_acts_file, fetch_acts_app, fetch_acts_file, Hfile, Hf0.
    cbn [app]. split_and!; [by rewrite <- app_assoc|done|done|by left]. }
  destruct (decide (resolve_format path fmt = "csv")) as [Hcsv|_]; cycle 1.
  { exists (inl (UnsupportedFormat (resolve_format path fmt))), fs,
      (Raises (UnsupportedFormat (resolve_format path fmt))), w, [].
    split_and!; [done|done|by exists tr|by left]. }
  destruct (if reading then Csv.dict_read _ else Some []) as [existing|].
  2:{ exists (inl CsvError), fs, (Raises CsvError), w, (ActFile <$> tr_read).
      rewrite file_acts_file, fetch_acts_file.
      split_and!; [done|done|by exists tr|by left]. }
  set (tr_open := tr_read ++ [IoOpen path (mode_of overwrite)]).
  pose proof (first_document_spec http_get fuel token JNull w _ _ _ Hrun) as Hfirst.
  destruct (first_document http_get fuel token JNull w) as [[first w'] evs].
  assert (file_acts ((ActFile <$> tr_open) ++ (ActFetch <$> evs)) = tr_open) as Hfa
    by (by rewrite file_acts_app, file_acts_file, file_acts_fetch, app_nil_r).
  assert (fetch_acts ((ActFile <$> tr_open) ++ (ActFetch <$> evs)) = evs) as Hfe
    by (by rewrite fetch_acts_app, fetch_acts_file, fetch_acts_fetch).
  destruct first as [item items next fuel'| |e|].
  2:{ destruct Hfirst as (-> & -> & -> & Hnone). rewrite Hnone.
      exists (inl StopIteration), fs1, (Raises StopIteration), w1,
        ((ActFile <$> tr_open) ++ (ActFetch <$> tr)).
      rewrite Hfa, Hfe. split_and!; [done|done|exists []; by rewrite app_nil_r|by left]. }
  2:{ destruct Hfirst as (-> & -> & -> & Hnone). rewrite Hnone.
      exists (inl StopIteration), fs1, (Raises e), w1,
        ((ActFile <$> tr_open) ++ (ActFetch <$> tr)).
      rewrite Hfa, Hfe.
      split_and!; [done|done|exists []; by rewrite app_nil_r|by right]. }
  2:{ destruct Hfirst as (-> & -> & -> & Hnone). rewrite Hnone.
      exists (inl StopIteration), fs1, Unfinished, w1,
        ((ActFile <$> tr_open) ++ (ActFetch <$> tr)).
      rewrite Hfa, Hfe.
      split_and!; [done|done|exists []; by rewrite app_nil_r|by right]. }
  destruct Hfirst as (rest & Hone & -> & Hrest).
  rewrite !yielded_app, Hone, yielded_yields. cbn [app].
  assert (∃ more, evs ++ (EvYield <$> items) ++ rest = evs ++ more) as Hmore
    by (by eexists).
  destruct item as [|b|n|s|l|first_dict].
  1:{ exists (inr ()), fs1, Returns, w', ((ActFile <$> tr_open) ++ (ActFetch <$> evs)).
      rewrite Hfa, Hfe. split_and!; [done|done|done|by right]. }
  1-4: (eexists (inl AttributeError), fs1, (Raises AttributeError), w',
          ((ActFile <$> tr_open) ++ (ActFetch <$> evs));
        rewrite Hfa, Hfe; split_and!; [done|done|done|by left]).
  set (fieldnames := dict_keys first_dict).
  set (header := overwrite || negb (exists_file fs1 path)).
  set (fs2 := if header then write fs1 path (Csv.write_row fieldnames) else fs1).
  set (tr_head := (if overwrite then [] else [IoExists path])
                  ++ (if header then [IoWrite path (Csv.write_row fieldnames)] else [])).
  rewrite csv_loop_cons.
  destruct (csv_body existing allow_duplicates fieldnames path (JObj first_dict) fs2)
    as [[res3 fs3] tr3].
  destruct res3 as [err|u].
  { exists (inl err), fs3, (Raises err), w',
      (((ActFile <$> tr_open) ++ (ActFetch <$> evs))
       ++ (ActFile <$> tr_head) ++ (ActFile <$> tr3)).
    rewrite !file_acts_app, !fetch_acts_app, !file_acts_file, !fetch_acts_file.
    rewrite file_acts_fetch, fetch_acts_fetch, !app_nil_r.
    split_and!; [done|done|done|by left]. }
  destruct (resume_spec http_get
              (csv_body existing allow_duplicates fieldnames path)
              fuel' token items next w' fs3 o w1 rest Hrest)
    as (res & fs' & t & o' & w'' & acts & Hc & Hf & Hfile & [more Hpre] & Hend).
  destruct (csv_loop existing allow_duplicates fieldnames path
              (items ++ yielded rest) fs3) as [[res4 fs4] tr4] eqn:Hl.
  destruct (consume_csv _ _ _ _ _ _ _ _ _ Hl) as (acts0 & Hc0 & Hf0).
  rewrite Hc0 in Hc. injection Hc as <- <- <-. rewrite Hf.
  exists res4, fs4, (match res4 with inl err => Raises err | inr _ => ending_of o end),
    w'',
    (((ActFile <$> tr_open) ++ (ActFetch <$> evs))
     ++ (ActFile <$> tr_head) ++ (ActFile <$> tr3) ++ acts).
  rewrite !file_acts_app, !fetch_acts_app, !file_acts_file, !fetch_acts_file.
  rewrite file_acts_fetch, fetch_acts_fetch, Hfile, Hf0. cbn [app].
  rewrite app_nil_r. split_and!.
  - done.
  - destruct res4 as [err|u4].
    + by rewrite Hend.
    + by destruct Hend as (-> & _ & _).
  - exists more. by rewrite Hpre, app_assoc.
  - destruct res4 as [err|u4]; [by left|].
    destruct Hend as (_ & Hw & Hall). left. by rewrite Hall.
Qed.

End MainSpec.

Section MainTheorems.
Context {Srv : Type}.
Variable http_get : Srv → pydict → string → json * Srv.

Lemma main_with_token fuel token a (w : world (Srv:=Srv)) fs :
  token ≠ "" →
  main http_get fuel (Some token) a w fs
  = export_documents http_get fuel token (Cli.output_path a)
      (Cli.format_name <$> Cli.format a)
      (Cli.overwrite a) (Cli.allow_duplicates a) w fs.
Proof. intros Htoken. unfold main. by destruct token. Qed.

Lemma export_documents_format fuel token path fmt1 fmt2 overwrite allow_duplicates
    (w : world (Srv:=Srv)) fs :
  resolve_format path fmt1 = resolve_format path fmt2 →
  export_documents http_get fuel token path fmt1 overwrite allow_duplicates w fs
  = export_documents http_get fuel token path fmt2 overwrite allow_duplicates w fs.
Proof. intros Hfmt. unfold export_documents. by rewrite Hfmt. Qed.

(** X17.  [main] with a token exports what the generator yields: however
    the walk would end when followed on its own with the same fuel, the
    files [main] leaves and the file actions it performs, in order, are
    those of [append_to_file] on the list of the records the walk yields;
    and what [main] makes the fetcher do is a first part of that walk
    (all of it unless the exporter stops early). *)
Theorem main_exports_what_the_fetcher_yields fuel token a w fs o w1 tr :
  token ≠ "" →
  fetch_all_documents http_get fuel token w = (o, w1, tr) →
  ∃ e w' fs' acts res,
    main http_get fuel (Some token) a w fs = (e, w', fs', acts) ∧
    append_to_file (yielded tr) (Cli.output_path a) (Cli.format_name <$> Cli.format a)
      (Cli.overwrite a) (Cli.allow_duplicates a) fs
    = (res, fs', file_acts acts) ∧
    ∃ rest, tr = fetch_acts acts ++ rest.
Proof.
  intros Htoken Hrun. rewrite main_with_token by done.
  destruct (export_documents_spec http_get fuel token (Cli.output_path a)
              (Cli.format_name <$> Cli.format a) (Cli.overwrite a)
              (Cli.allow_duplicates a) w fs o w1 tr Hrun)
    as (res & fs' & e & w' & acts & Hcall & Hmain & Hpre & _).
  by exists e, w', fs', acts, res.
Qed.

(** X18.  When the walk followed on its own ends normally, [main] ends
    as [append_to_file] ends on the list of the records: it returns when
    that call returns, and raises the exception that call raises
    (unsupported format, the [StopIteration] of an empty collection in
    csv mode, a record the csv writer refuses). *)
Theorem main_ends_as_the_exporter fuel token a w fs w1 tr :
  token ≠ "" →
  fetch_all_documents http_get fuel token w = (Done, w1, tr) →
  (main http_get fuel (Some token) a w fs).1.1.1
  = match (append_to_file (yielded tr) (Cli.output_path a)
             (Cli.format_name <$> Cli.format a)
             (Cli.overwrite a) (Cli.allow_duplicates a) fs).1.1 with
    | inr _ => Returns
    | inl err => Raises err
    end.
Proof.
  intros Htoken Hrun. rewrite main_with_token by done.
  destruct (export_documents_spec http_get fuel token (Cli.output_path a)
              (Cli.format_name <$> Cli.format a) (Cli.overwrite a)
              (Cli.allow_duplicates a) w fs Done w1 tr Hrun)
    as (res & fs' & e & w' & acts & -> & -> & _ & Hend).
  cbn. destruct res as [err|u].
  - by destruct Hend as [->|(_ & ? & _)].
  - by destruct Hend as [(-> & _)|(-> & _)].
Qed.

(** X19.  An exception of the fetcher in the middle of the walk ends
    [main] with that exception after the records yielded before it have
    been exported: the files are those of [append_to_file] on these
    records, the cache is the one the walk leaves, and every action of
    the walk has taken place. *)
Theorem fetch_error_ends_main_after_partial_export fuel token a w fs err w1 tr
    fs' io_tr :
  token ≠ "" →
  fetch_all_documents http_get fuel token w = (Raised err, w1, tr) →
  append_to_file (yielded tr) (Cli.output_path a) (Cli.format_name <$> Cli.format a)
    (Cli.overwrite a) (Cli.allow_duplicates a) fs
  = (inr (), fs', io_tr) →
  head (yielded tr) ≠ Some JNull →
  ∃ acts,
    main http_get fuel (Some token) a w fs = (Raises err, w1, fs', acts) ∧
    file_acts acts = io_tr ∧
    fetch_acts acts = tr.
Proof.
  intros Htoken Hrun Hcall Hhead. rewrite main_with_token by done.
  destruct (export_documents_spec http_get fuel token (Cli.output_path a)
              (Cli.format_name <$> Cli.format a) (Cli.overwrite a)
              (Cli.allow_duplicates a) w fs (Raised err) w1 tr Hrun)
    as (res & fs2 & e & w' & acts & Hcall2 & Hmain & _ & Hend).
  rewrite Hcall in Hcall2. injection Hcall2 as <- <- ->.
  destruct Hend as [(-> & -> & Hall)|(_ & ? & _)]; [|done].
  by exists acts.
Qed.

(** X20.  The defaults and the inferred format.  Without [--output]
    [main] does what it does with [--output readwise_export.<format>],
    the format being csv when [--format] is absent too, and giving that
    format as well changes nothing.  With [--output] a name [stem.ext]
    whose extension is [jsonl] or [csv], leaving [--format] out is the
    same as giving the format the extension names. *)
Theorem main_default_destination :
  (∀ fuel environ_token f overwrite allow_duplicates (w : world (Srv:=Srv)) fs,
     let path := "readwise_export." +:+ Cli.format_name (default Cli.csv f) in
     main http_get fuel environ_token
       (Cli.Args None f overwrite allow_duplicates) w fs
     = main http_get fuel environ_token
         (Cli.Args (Some path) None overwrite allow_duplicates) w fs ∧
     main http_get fuel environ_token
       (Cli.Args None f overwrite allow_duplicates) w fs
     = main http_get fuel environ_token
         (Cli.Args (Some path) (Some (default Cli.csv f)) overwrite allow_duplicates)
         w fs) ∧
  (∀ fuel environ_token file_path (stem : string) f overwrite allow_duplicates
     (w : world (Srv:=Srv)) fs,
     Path.name file_path = stem +:+ String "." (Cli.format_name f) →
     stem ≠ "" →
     main http_get fuel environ_token
       (Cli.Args (Some file_path) None overwrite allow_duplicates) w fs
     = main http_get fuel environ_token
         (Cli.Args (Some file_path) (Some f) overwrite allow_duplicates) w fs).
Proof.
  split.
  - intros fuel environ_token f overwrite allow_duplicates w fs path.
    destruct environ_token as [[|c token]|]; [done| |done].
    rewrite !main_with_token by done. unfold path.
    destruct f as [[|]|]; split; by apply export_documents_format.
  - intros fuel environ_token file_path stem f overwrite allow_duplicates w fs
      Hname Hstem.
    destruct environ_token as [[|c token]|]; [done| |done].
    rewrite !main_with_token by done. apply export_documents_format.
    cbn [Cli.output_path Cli.output Cli.format fmap option_fmap option_map].
    rewrite (format_of_extension _ _ _ Hname Hstem); by destruct f.
Qed.

(** X21.  [main] raises before anything is fetched or touched when the
    setting is wrong: without a token, or with an empty one, it raises
    the error of line 116 whatever the arguments; and with [--output] a
    name [stem.ext] whose extension is neither [jsonl] nor [csv], and no
    [--format], it raises the unsupported-format error for [ext].  In
    both cases no request is made, nothing is stored in the cache and no
    file is opened: the generator is created and never started. *)
Theorem main_raises_before_fetching :
  (∀ fuel a (w : world (Srv:=Srv)) fs,
     main http_get fuel None a w fs = (RaisesTokenNotFound, w, fs, []) ∧
     main http_get fuel (Some "") a w fs = (RaisesTokenNotFound, w, fs, [])) ∧
  (∀ fuel token file_path (stem ext : string) overwrite allow_duplicates
     (w : world (Srv:=Srv)) fs,
     token ≠ "" →
     Path.name file_path = stem +:+ String "." ext →
     stem ≠ "" → ext ≠ "" → Py.str_contains "." ext = false →
     ext ≠ "jsonl" → ext ≠ "csv" →
     main http_get fuel (Some token)
       (Cli.Args (Some file_path) None overwrite allow_duplicates) w fs
     = (Raises (UnsupportedFormat ext), w, fs, [])).
Proof.
  split; [done|].
  intros fuel token file_path stem ext overwrite allow_duplicates w fs
    Htoken Hname Hstem Hext Hdot Hj Hc.
  rewrite main_with_token by done. unfold export_documents. cbn [Cli.output_path Cli.output Cli.format fmap option_fmap option_map].
  rewrite (format_of_extension _ _ _ Hname Hstem Hext Hdot).
  by rewrite !decide_False.
Qed.

(** A second jsonl call on the same records finds none of them fresh. *)
Lemma append_jsonl_again data path fmt (fs : files) F :
  resolve_format path fmt = "jsonl" →
  fs !! path
  = Some (F +:+ Py.concat
                  (jsonl_line <$> filter (jsonl_fresh (Text_spec.line_set F)) data)) →
  Text_spec.terminated F = true →
  ∃ tr,
    append_to_file data path fmt false false fs = (inr (), fs, tr) ∧
    writes path tr = [].
Proof.
  intros Hfmt Hpath Hterm.
  rewrite (append_jsonl_existing data path fmt fs _ Hfmt Hpath).
  rewrite (nothing_fresh_after F data Hterm). cbn [fmap list_fmap Py.concat].
  rewrite str_app_nil_r, (insert_id _ _ _ Hpath).
  eexists. split; [done|]. by rewrite app_nil_r.
Qed.

Lemma start_lines_content (fs : files) path :
  start_lines false fs path = Text_spec.line_set (content_of fs path).
Proof.
  unfold start_lines, exists_file, content_of. cbn [negb andb].
  destruct (fs !! path) as [c|] eqn:Hp.
  - by rewrite bool_decide_eq_true_2.
  - rewrite bool_decide_eq_false_2; [done|]. by intros [? ?].
Qed.

(** X23.  The program run twice in jsonl mode, without [--overwrite] and
    without [--allow-duplicates], on a destination that is absent, empty
    or ends with a line feed: when the first run's walk ends normally,
    the first run returns, and a second run (whatever state the service
    is in by then) returns too without a single request and without
    writing anything: the files and the cache are left as the first run
    left them. *)
Theorem second_run_adds_nothing_jsonl fuel token a w fs w1 tr srv' :
  token ≠ "" →
  resolve_format (Cli.output_path a) (Cli.format_name <$> Cli.format a) = "jsonl" →
  Cli.overwrite a = false →
  Cli.allow_duplicates a = false →
  Text_spec.terminated (content_of fs (Cli.output_path a)) = true →
  fetch_all_documents http_get fuel token w = (Done, w1, tr) →
  ∃ fs1 acts1 acts2,
    main http_get fuel (Some token) a w fs = (Returns, w1, fs1, acts1) ∧
    main http_get fuel (Some token) a (World (cache w1) srv') fs1
    = (Returns, World (cache w1) srv', fs1, acts2) ∧
    network_calls (fetch_acts acts2) = [] ∧
    writes (Cli.output_path a) (file_acts acts2) = [].
Proof.
  intros Htoken Hfmt How Had Hterm Hrun.
  set (path := Cli.output_path a) in *.
  set (fmt := Cli.format_name <$> Cli.format a) in *.
  set (F := content_of fs path) in *.
  assert (∀ x, content_of (<[path := x]> fs) path = x) as Hcontent
    by (intros x; unfold content_of; by rewrite lookup_insert_eq).
  (* the first run *)
  destruct (export_documents_spec http_get fuel token path fmt false false
              w fs Done w1 tr Hrun)
    as (res & fs1 & e & w' & acts1 & Hcall & Hmain & _ & Hend).
  destruct (append_jsonl_content (yielded tr) path fmt false false fs Hfmt)
    as (tr1 & Hcall1 & _).
  unfold tested_lines, opened_content in Hcall1.
  rewrite start_lines_content in Hcall1. fold F in Hcall1.
  rewrite Hcall in Hcall1. injection Hcall1 as -> -> _.
  destruct Hend as [(-> & -> & _)|(_ & _ & Hcsv)]; [|congruence].
  (* the second run *)
  pose proof (fetch_loop_replay http_get fuel token JNull w w1 tr Hrun
                (cache w1) srv' (reflexivity _)) as Hreplay.
  set (kept := filter (jsonl_fresh (Text_spec.line_set F)) (yielded tr)) in *.
  set (fs1 := <[path := F +:+ Py.concat (jsonl_line <$> kept)]> fs) in *.
  destruct (export_documents_spec http_get fuel token path fmt false false
              (World (cache w1) srv') fs1 Done _ _ Hreplay)
    as (res2 & fs2 & e2 & w2 & acts2 & Hcall2 & Hmain2 & _ & Hend2).
  rewrite yielded_yields in Hcall2.
  destruct (append_jsonl_again (yielded tr) path fmt fs1 F Hfmt
              (lookup_insert_eq _ _ _) Hterm) as (tr2 & Hcall3 & Hw3).
  rewrite Hcall2 in Hcall3. injection Hcall3 as -> -> Hacts.
  destruct Hend2 as [(-> & -> & Hall)|(_ & _ & Hcsv)]; [|congruence].
  exists fs1, acts1, acts2.
  rewrite !main_with_token by done. rewrite How, Had. fold path fmt.
  split_and!; [exact Hmain|exact Hmain2| |].
  - by rewrite Hall, network_calls_yields.
  - by rewrite Hacts.
Qed.

End MainTheorems.

Lemma main_exports_what_the_fetcher_yields_witness :
  let a := Cli.Args (Some "out.jsonl") None false false in
  let walk := fetch_all_documents three_pages 2 "token" (World ∅ tt) in
  walk.1.1 = OutOfFuel ∧
  ∃ e w' fs' acts res,
    main three_pages 2 (Some "token") a (World ∅ tt) ∅ = (e, w', fs', acts) ∧
    append_to_file (yielded walk.2) "out.jsonl" None false false ∅
    = (res, fs', file_acts acts) ∧
    ∃ rest, walk.2 = fetch_acts acts ++ rest.
Proof.
  intros a walk. split; [reflexivity|].
  apply (main_exports_what_the_fetcher_yields three_pages 2 "token" a (World ∅ tt) ∅
           walk.1.1 walk.1.2 walk.2); [done|reflexivity].
Defined.

Lemma main_ends_as_the_exporter_witness :
  let a := Cli.Args None None false false in
  (main (constant_service (JObj [("results", JArr [])])) 1 (Some "token") a (World ∅ tt) ∅).1.1.1
  = match (append_to_file [] "readwise_export.csv" None false false ∅).1.1 with
    | inr _ => Returns
    | inl err => Raises err
    end.
Proof.
  intros a.
  apply (main_ends_as_the_exporter (constant_service (JObj [("results", JArr [])])) 1
           "token" a (World ∅ tt) ∅
           (World {[ cache_key JNull := JObj [("results", JArr [])] ]} tt)
           [EvGet [] "token"; EvStore (cache_key JNull) (JObj [("results", JArr [])])]);
    [done|reflexivity].
Defined.

Lemma fetch_error_ends_main_after_partial_export_witness :
  let page := [("results", JArr [JInt 1; JInt 2]); ("nextPageCursor", JStr "c1")] in
  let service (calls : nat) (params : pydict) (token : string) : json * nat :=
    (JObj match calls with O => page | S _ => [("detail", JStr "no more")] end,
     S calls) in
  let a := Cli.Args (Some "out.jsonl") None false false in
  let walk := fetch_all_documents service 5 "token" (World ∅ 0%nat) in
  ∃ acts,
    main service 5 (Some "token") a (World ∅ 0%nat) ∅
    = (Raises (ApiError (JObj [("detail", JStr "no more")])), walk.1.2,
       {[ "out.jsonl" := "1" +:+ Py.chr Py.LF +:+ "2" +:+ Py.chr Py.LF ]}, acts) ∧
    file_acts acts
    = [IoExists "out.jsonl"; IoOpen "out.jsonl" "a";
       IoWrite "out.jsonl" ("1" +:+ Py.chr Py.LF);
       IoWrite "out.jsonl" ("2" +:+ Py.chr Py.LF)] ∧
    fetch_acts acts = walk.2.
Proof.
  intros page service a walk.
  apply (fetch_error_ends_main_after_partial_export service 5 "token" a
           (World ∅ 0%nat) ∅ (ApiError (JObj [("detail", JStr "no more")]))
           walk.1.2 walk.2); [done|reflexivity|reflexivity|done].
Defined.

Lemma main_default_destination_witness :
  main three_pages 3 (Some "token")
    (Cli.Args (Some "exports/all.jsonl") None true false) (World ∅ tt) ∅
  = main three_pages 3 (Some "token")
      (Cli.Args (Some "exports/all.jsonl") (Some Cli.jsonl) true false) (World ∅ tt) ∅.
Proof.
  apply (proj2 (main_default_destination three_pages) 3%nat (Some "token")
           "exports/all.jsonl" "all" Cli.jsonl true false (World ∅ tt) ∅);
    by vm_compute.
Defined.

Lemma main_raises_before_fetching_witness :
  main three_pages 3 (Some "token") (Cli.Args (Some "notes/export.txt") None false false)
    (World ∅ tt) {[ "notes/export.txt" := "kept" ]}
  = (Raises (UnsupportedFormat "txt"), World ∅ tt, {[ "notes/export.txt" := "kept" ]}, []).
Proof.
  apply (proj2 (main_raises_before_fetching three_pages) 3%nat "token"
           "notes/export.txt" "export" "txt" false false (World ∅ tt)
           {[ "notes/export.txt" := "kept" ]}); by vm_compute.
Defined.

(** * The exporter without [tqdm] *)

(** X22.  With the fallback [tqdm] of lines 19-25 no record is ever
    exported: the loops over [tqdm(data)] raise [TypeError] before they
    take a record.  A call returns normally only in csv mode on input
    that begins with [None]; the only text a call writes is the csv
    header row, and only with [overwrite]; and a call that gets as far
    as opening the destination leaves it with what [open] left (nothing
    with [overwrite]) plus that header. *)
Theorem without_tqdm_nothing_is_exported data file_path file_format overwrite
    allow_duplicates fs res fs' tr :
  append_to_file_without_tqdm data file_path file_format overwrite allow_duplicates fs
  = (res, fs', tr) →
  (res = inr () →
   resolve_format file_path file_format = "csv" ∧ head data = Some JNull) ∧
  (writes file_path tr = []
   ∨ ∃ d, head data = Some (JObj d) ∧ overwrite = true ∧
          writes file_path tr = [Csv.write_row (dict_keys d)]) ∧
  (fs' = fs
   ∨ fs' = <[file_path := opened_content overwrite fs file_path
                          +:+ Py.concat (writes file_path tr)]> fs).
Proof.
  unfold append_to_file_without_tqdm.
  set (reading := negb overwrite && exists_file fs file_path).
  destruct (read_actions_quiet file_path overwrite reading) as [Hrw _].
  cbn zeta in Hrw.
  assert (writes file_path
            ((if overwrite then []
              else IoExists file_path ::
                   (if reading then [IoOpen file_path "r"; IoRead file_path] else []))
             ++ [IoOpen file_path (mode_of overwrite)]) = []) as Hopenw
    by (by rewrite writes_app, Hrw).
  assert (open_for_writing fs file_path overwrite
          = <[file_path := opened_content overwrite fs file_path +:+ Py.concat []]> fs)
    as Hnothing
    by (cbn [Py.concat]; by rewrite str_app_nil_r, open_for_writing_insert).
  destruct (decide (resolve_format file_path file_format = "jsonl")) as [Hj|Hj].
  { intros [= <- <- <-]. rewrite Hopenw. split_and!; [done|by left|by right]. }
  destruct (decide (resolve_format file_path file_format = "csv")) as [Hc|Hc];
    [|intros [= <- <- <-]; split_and!; [done|by left|by left]].
  destruct (if reading then Csv.dict_read _ else Some []) as [existing|];
    [|intros [= <- <- <-]; rewrite Hrw; split_and!; [done|by left|by left]].
  destruct data as [|first_item data'].
  { intros [= <- <- <-]. rewrite Hopenw. split_and!; [done|by left|by right]. }
  destruct first_item as [|b|n|s|l|first_dict];
    try (intros [= <- <- <-]; rewrite Hopenw; split_and!; [done|by left|by right]).
  rewrite header_condition. intros [= <- <- <-].
  rewrite writes_app, Hopenw. cbn [app].
  rewrite (writes_app file_path (if overwrite then _ else _)).
  rewrite (writes_none file_path (if overwrite then _ else _))
    by (destruct overwrite; repeat constructor).
  cbn [app]. split; [done|].
  destruct overwrite.
  - rewrite writes_same. change (writes file_path []) with (@nil string). split.
    + right. by exists first_dict.
    + right. rewrite (write_existing _ _ _ _ (opened_content_lookup fs file_path true)).
      rewrite open_for_writing_insert, insert_insert_eq. cbn [Py.concat].
      by rewrite str_app_nil_r.
  - change (writes file_path []) with (@nil string). split; [by left|by right].
Qed.

Lemma without_tqdm_nothing_is_exported_witness :
  let fs : files := {[ "out.jsonl" := "kept" ]} in
  let call := append_to_file_without_tqdm [JInt 1; JInt 2] "out.jsonl" None true false fs in
  call.1.1 = inl TypeError ∧
  content_of call.1.2 "out.jsonl" = "" ∧
  (call.1.1 = inr () →
   resolve_format "out.jsonl" None = "csv" ∧ head [JInt 1; JInt 2] = Some JNull) ∧
  (writes "out.jsonl" call.2 = []
   ∨ ∃ d, head [JInt 1; JInt 2] = Some (JObj d) ∧ true = true ∧
          writes "out.jsonl" call.2 = [Csv.write_row (dict_keys d)]) ∧
  (call.1.2 = fs
   ∨ call.1.2 = <[ "out.jsonl" := opened_content true fs "out.jsonl"
                                  +:+ Py.concat (writes "out.jsonl" call.2) ]> fs).
Proof.
  intros fs call. split; [reflexivity|]. split; [reflexivity|].
  apply (without_tqdm_nothing_is_exported [JInt 1; JInt 2] "out.jsonl" None true false
           fs call.1.1 call.1.2 call.2).
  reflexivity.
Defined.

Lemma second_run_adds_nothing_jsonl_witness :
  let a := Cli.Args None (Some Cli.jsonl) false false in
  let fs : files := {[ "readwise_export.jsonl" := "1" +:+ Py.chr Py.LF ]} in
  let walk := fetch_all_documents three_pages 3 "token" (World ∅ tt) in
  ∃ fs1 acts1 acts2,
    main three_pages 3 (Some "token") a (World ∅ tt) fs
    = (Returns, walk.1.2, fs1, acts1) ∧
    main three_pages 3 (Some "token") a (World (cache walk.1.2) tt) fs1
    = (Returns, World (cache walk.1.2) tt, fs1, acts2) ∧
    network_calls (fetch_acts acts2) = [] ∧
    writes (Cli.output_path a) (file_acts acts2) = [].
Proof.
  intros a fs walk.
  apply (second_run_adds_nothing_jsonl three_pages 3 "token" a (World ∅ tt) fs
           walk.1.2 walk.2 tt); try reflexivity.
  done.
Defined.

(** ** The claim on duplicates inside one call *)

(** C10, as stated, fails on the code in csv mode.  A record with a
    field the first record lacks, twice in the input and in no row of
    the file: the writer refuses its first occurrence, the call ends
    there and neither occurrence is written.  And an input that begins
    with [None]: line 100 returns before the loop, so a record that
    follows twice is not written at all. *)
Lemma repeated_record_not_written :
  (let r := JObj [("b", JStr "2")] in
   let data := [JObj [("a", JStr "1")]; r; r] in
   let call := append_to_file data "out.csv" None false false ∅ in
   Csv_spec.csv_fresh (start_rows false ∅ "out.csv") r ∧
   call.1.1 = inl (ExtraFields ["b"]) ∧
   writes "out.csv" call.2 = ["1" +:+ String Py.CR (Py.chr Py.LF)] ∧
   content_of call.1.2 "out.csv" = "1" +:+ String Py.CR (Py.chr Py.LF) ∧
   ¬ ∃ row rows1 rows2 rows3,
       writes "out.csv" call.2 = rows1 ++ row :: rows2 ++ row :: rows3)
  ∧
  (let r := JObj [("a", JStr "1")] in
   let data := [JNull; r; r] in
   let call := append_to_file data "out.csv" None false false ∅ in
   Csv_spec.csv_fresh (start_rows false ∅ "out.csv") r ∧
   call.1.1 = inr () ∧
   writes "out.csv" call.2 = [] ∧
   content_of call.1.2 "out.csv" = "" ∧
   ¬ ∃ row rows1 rows2 rows3,
       writes "out.csv" call.2 = rows1 ++ row :: rows2 ++ row :: rows3).
Proof.
  assert (∀ (ws : list string), (length ws < 2)%nat →
            ¬ ∃ row rows1 rows2 rows3, ws = rows1 ++ row :: rows2 ++ row :: rows3)
    as Hshort.
  { intros ws Hlen (row & rows1 & rows2 & rows3 & ->).
    rewrite length_app in Hlen. cbn [length] in Hlen.
    rewrite length_app in Hlen. cbn [length] in Hlen. lia. }
  split; intros r data call.
  - assert (writes "out.csv" call.2 = ["1" +:+ String Py.CR (Py.chr Py.LF)]) as Hw
      by by vm_compute.
    split_and!; [by vm_compute|by vm_compute|done|by vm_compute|].
    apply Hshort. rewrite Hw. cbn. lia.
  - assert (writes "out.csv" call.2 = []) as Hw by by vm_compute.
    split_and!; [by vm_compute|by vm_compute|done|by vm_compute|].
    apply Hshort. rewrite Hw. cbn. lia.
Qed.

(** C10, amended.  Without [allow_duplicates] a call tests every record
    against what it read from the destination at its start and against
    nothing else.  So when a record occurs twice in the input and is
    fresh for that reading, both occurrences are written, each between
    the writes of the fresh records around it, and the destination then
    holds what [open] left followed by these texts: in jsonl mode the
    call returns normally and has written the record's line twice (for
    records that [json.dumps] accepts); in csv mode a call that returns
    normally on an input beginning with a dict has written the record's
    row twice. *)
Theorem repeated_record_written_twice d1 r d2 d3 file_path file_format
    overwrite fs :
  let data := d1 ++ r :: d2 ++ r :: d3 in
  (resolve_format file_path file_format = "jsonl" →
   Forall (λ item, within_digits item = true) data →
   jsonl_fresh (start_lines overwrite fs file_path) r →
   let lines l :=
     jsonl_line <$> filter (jsonl_fresh (start_lines overwrite fs file_path)) l in
   ∃ fs' tr,
     append_to_file data file_path file_format overwrite false fs = (inr (), fs', tr) ∧
     writes file_path tr
     = lines d1 ++ jsonl_line r :: lines d2 ++ jsonl_line r :: lines d3 ∧
     content_of fs' file_path
     = opened_content overwrite fs file_path +:+ Py.concat (writes file_path tr))
  ∧
  (resolve_format file_path file_format = "csv" →
   Csv_spec.csv_fresh (start_rows overwrite fs file_path) r →
   ∀ first_dict fs' tr,
     head data = Some (JObj first_dict) →
     append_to_file data file_path file_format overwrite false fs = (inr (), fs', tr) →
     ∃ row rows1 rows2 rows3,
       writerow (dict_keys first_dict) r = inr row ∧
       Csv_spec.row_texts (dict_keys first_dict)
         (filter (Csv_spec.csv_fresh (start_rows overwrite fs file_path)) d1)
       = inr rows1 ∧
       Csv_spec.row_texts (dict_keys first_dict)
         (filter (Csv_spec.csv_fresh (start_rows overwrite fs file_path)) d2)
       = inr rows2 ∧
       Csv_spec.row_texts (dict_keys first_dict)
         (filter (Csv_spec.csv_fresh (start_rows overwrite fs file_path)) d3)
       = inr rows3 ∧
       writes file_path tr
       = (if overwrite then [Csv.write_row (dict_keys first_dict)] else [])
         ++ rows1 ++ row :: rows2 ++ row :: rows3 ∧
       content_of fs' file_path
       = opened_content overwrite fs file_path +:+ Py.concat (writes file_path tr)).
Proof.
  intros data.
  assert (∀ fs' tr,
            append_to_file data file_path file_format overwrite false fs
            = (inr (), fs', tr) →
            content_of fs' file_path
            = opened_content overwrite fs file_path
              +:+ Py.concat (writes file_path tr)) as Hcontent.
  { intros fs' tr Hcall.
    destruct (append_to_file_footprint _ _ _ _ _ _ _ _ _ Hcall)
      as [[(_ & _ & Hres)| ->] _]; [done|].
    unfold content_of at 1. by rewrite lookup_insert_eq. }
  split.
  - intros Hfmt _ Hfresh lines.
    destruct (append_jsonl_spec data file_path file_format overwrite fs Hfmt)
      as (fs' & tr & Hcall & Hw).
    exists fs', tr. split_and!; [done| |by apply Hcontent].
    rewrite Hw. unfold data, lines.
    rewrite filter_app, filter_cons, decide_True, filter_app, filter_cons,
      decide_True by done.
    by rewrite fmap_app, fmap_cons, fmap_app, fmap_cons.
  - intros Hfmt Hfresh first_dict fs' tr Hhead Hcall.
    pose proof (Hcontent _ _ Hcall) as Hfile.
    assert (∃ rest, data = JObj first_dict :: rest) as [rest Hdata].
    { destruct data as [|x rest]; [done|]. injection Hhead as ->. by exists rest. }
    rewrite Hdata in Hcall.
    destruct (append_csv_spec _ _ _ _ _ _ _ _ Hfmt Hcall) as (texts & Htexts & Hw).
    rewrite <- Hdata in Htexts. unfold data in Htexts.
    rewrite filter_app, filter_cons, decide_True, filter_app, filter_cons,
      decide_True in Htexts by done.
    apply row_texts_app in Htexts as (rows1 & t1 & Hrows1 & Ht1 & ->).
    cbn [Csv_spec.row_texts] in Ht1.
    destruct (writerow (dict_keys first_dict) r) as [e|row] eqn:Hrow; [done|].
    destruct (Csv_spec.row_texts (dict_keys first_dict)
                (filter (Csv_spec.csv_fresh (start_rows overwrite fs file_path)) d2
                 ++ r :: filter (Csv_spec.csv_fresh (start_rows overwrite fs file_path)) d3))
      as [e|t2] eqn:Ht2; [done|].
    injection Ht1 as <-.
    apply row_texts_app in Ht2 as (rows2 & t3 & Hrows2 & Ht3 & ->).
    cbn [Csv_spec.row_texts] in Ht3. rewrite Hrow in Ht3.
    destruct (Csv_spec.row_texts (dict_keys first_dict)
                (filter (Csv_spec.csv_fresh (start_rows overwrite fs file_path)) d3))
      as [e|rows3] eqn:Hrows3; [done|].
    injection Ht3 as <-.
    exists row, rows1, rows2, rows3. by rewrite <- Hw.
Qed.

Lemma repeated_record_written_twice_witness :
  let r := JObj [("a", JStr "1")] in
  let other := JObj [("a", JStr "2")] in
  let data := [] ++ r :: [other] ++ r :: [] in
  let csv := append_to_file data "out.csv" None true false {[ "out.csv" := "old" ]} in
  (∃ fs' tr,
     append_to_file data "out.jsonl" None false false ∅ = (inr (), fs', tr) ∧
     writes "out.jsonl" tr = [jsonl_line r; jsonl_line other; jsonl_line r] ∧
     content_of fs' "out.jsonl"
     = opened_content false ∅ "out.jsonl" +:+ Py.concat (writes "out.jsonl" tr))
  ∧ ∃ row rows1 rows2 rows3,
      writerow ["a"] r = inr row ∧
      Csv_spec.row_texts ["a"]
        (filter (Csv_spec.csv_fresh (start_rows true {[ "out.csv" := "old" ]} "out.csv"))
           []) = inr rows1 ∧
      Csv_spec.row_texts ["a"]
        (filter (Csv_spec.csv_fresh (start_rows true {[ "out.csv" := "old" ]} "out.csv"))
           [other]) = inr rows2 ∧
      Csv_spec.row_texts ["a"]
        (filter (Csv_spec.csv_fresh (start_rows true {[ "out.csv" := "old" ]} "out.csv"))
           []) = inr rows3 ∧
      writes "out.csv" csv.2
      = [Csv.write_row ["a"]] ++ rows1 ++ row :: rows2 ++ row :: rows3 ∧
      content_of csv.1.2 "out.csv"
      = opened_content true {[ "out.csv" := "old" ]} "out.csv"
        +:+ Py.concat (writes "out.csv" csv.2).
Proof.
  intros r other data csv. split.
  - refine (proj1 (repeated_record_written_twice [] r [other] [] "out.jsonl" None
                     false ∅) _ _ _).
    + by vm_compute.
    + repeat first [apply Forall_nil_2 | apply Forall_cons_2]; reflexivity.
    + apply (bool_decide_unpack _). by vm_compute.
  - refine (proj2 (repeated_record_written_twice [] r [other] [] "out.csv" None
                     true {[ "out.csv" := "old" ]}) _ _ [("a", JStr "1")]
              csv.1.2 csv.2 _ _).
    + by vm_compute.
    + by vm_compute.
    + by vm_compute.
    + by vm_compute.
Defined.
